(** * pgSQL-Backup-Script: the backup orchestration engine, embedded in Rocq

    A shallow embedding of [pg_backup_main.py] (class [PostgreSQLBackup]):
    the file-name sanitizer, the artifact naming and the date parsing of the
    remote sweep, the capacity check, the execution guard, the failed-upload
    ledger, the upload path, the two retention sweeps and the procedure that
    sequences them.

    Conventions of the embedding.
    - A Python [str] is a [string]; a character is a code point below 256.
      In that range the regex class [\d] is exactly the ten ASCII digits.
    - The dictionary [self.failed_uploads] is a [gmap string entry].
    - A [datetime] is a record of its fields; comparison and subtraction of
      a [timedelta] go through the number of microseconds since the start of
      year 1 (Python's proleptic Gregorian ordinal).
    - An exception is a value ([exn]): its class, as far as the handlers look
      at it, and its text.
    - What the outside world answers (file locking, free disk space, the
      PostgreSQL tools, Azure Blob Storage) is an explicit argument of the
      method that asks.
    - The state carries, next to the fields of the object, the part of the
      world the object acts on (local files, remote container, the saved
      ledger), the log as the list of its records, and a ghost list of
      events: the methods entered and the calls made, in order. *)

From Stdlib Require Import ZArith QArith Lia List Ascii String Bool.
From stdpp Require Import base option list gmap strings pretty.

Open Scope string_scope.
Open Scope list_scope.
Open Scope Z_scope.

(** ** Text helpers (the pieces of [str] and [re] the script uses) *)

Module Text.

Definition in_range (lo hi c : ascii) : bool :=
  (N_of_ascii lo <=? N_of_ascii c)%N && (N_of_ascii c <=? N_of_ascii hi)%N.

(** [\d] *)
Definition is_digit (c : ascii) : bool := in_range "0" "9" c.

(** [s[:n]] *)
Definition take (n : nat) (s : string) : string := substring 0 n s.

(** [sub in s] *)
Fixpoint contains (sub s : string) : bool :=
  String.prefix sub s ||
  match s with
  | EmptyString => false
  | String _ t => contains sub t
  end.

(** [s.endswith(suf)] *)
Definition ends_with (suf s : string) : bool :=
  String.prefix (String.rev suf) (String.rev s).

(** [c in s] for a single character *)
Fixpoint has_char (c : ascii) (s : string) : bool :=
  match s with
  | EmptyString => false
  | String d t => if Ascii.eqb c d then true else has_char c t
  end.

(** [sep.join(l)] *)
Definition join (sep : string) (l : list string) : string := String.concat sep l.

(** A non-negative integer written with exactly [w] decimal digits
    (the zero-padded fields of [strftime]). *)
Definition digit_char (d : Z) : ascii := ascii_of_N (48 + Z.to_N d).

Fixpoint digits_fixed (w : nat) (n : Z) : list ascii :=
  match w with
  | O => []
  | S w' => digits_fixed w' (n / 10) ++ [digit_char (n mod 10)]
  end.

(** [int(s)] on a run of decimal digits. *)
Definition digit_val (c : ascii) : Z := Z.of_N (N_of_ascii c) - 48.

Definition int_of_digits (l : list ascii) : Z :=
  fold_left (fun acc c => acc * 10 + digit_val c) l 0.

End Text.

(** ** [_sanitize_filename] *)

(** The characters outside the class [[^a-zA-Z0-9_-]]. *)
Definition allowed_char (c : ascii) : bool :=
  Text.in_range "a" "z" c || Text.in_range "A" "Z" c || Text.in_range "0" "9" c
  || Ascii.eqb c "_" || Ascii.eqb c "-".

(** [re.sub(r'[^a-zA-Z0-9_-]', '_', name)] *)
Fixpoint re_sub_disallowed (name : string) : string :=
  match name with
  | EmptyString => EmptyString
  | String c t => String (if allowed_char c then c else "_"%char) (re_sub_disallowed t)
  end.

Definition _sanitize_filename (name : string) : string :=
  let sanitized := re_sub_disallowed name in
  Text.take 50 sanitized.

(** ** Dates and times ([datetime], [timedelta], [strftime], [strptime]) *)

Record datetime := mk_datetime {
  year : Z; month : Z; day : Z;
  hour : Z; minute : Z; second : Z; microsecond : Z
}.

Module Calendar.

Definition is_leap (y : Z) : bool :=
  (y mod 4 =? 0) && (negb (y mod 100 =? 0) || (y mod 400 =? 0)).

Definition days_in_month (y m : Z) : Z :=
  if (m =? 2) && is_leap y then 29
  else nth (Z.to_nat m) [0; 31; 28; 31; 30; 31; 30; 31; 31; 30; 31; 30; 31] 0.

Definition days_before_year (y : Z) : Z :=
  let y1 := y - 1 in y1 * 365 + y1 / 4 - y1 / 100 + y1 / 400.

Definition days_before_month (y m : Z) : Z :=
  nth (Z.to_nat m) [0; 0; 31; 59; 90; 120; 151; 181; 212; 243; 273; 304; 334] 0
  + (if (2 <? m) && is_leap y then 1 else 0).

(** The proleptic Gregorian ordinal of a date; 1 is January 1 of year 1. *)
Definition ymd2ord (y m d : Z) : Z :=
  days_before_year y + days_before_month y m + d.

Definition valid_date (y m d : Z) : bool :=
  (1 <=? y) && (y <=? 9999) && (1 <=? m) && (m <=? 12)
  && (1 <=? d) && (d <=? days_in_month y m).

Definition us_per_day : Z := 86400 * 1000000.

(** Microseconds since the start of year 1: the order of [datetime]
    values is the order of these numbers. *)
Definition micros (t : datetime) : Z :=
  ymd2ord (year t) (month t) (day t) * us_per_day
  + ((hour t * 60 + minute t) * 60 + second t) * 1000000 + microsecond t.

(** What [datetime.now()] can return on a system whose [%Y] prints four
    digits (years 1000 to 9999). *)
Definition valid_datetime (t : datetime) : bool :=
  valid_date (year t) (month t) (day t) && (1000 <=? year t)
  && (0 <=? hour t) && (hour t <=? 23)
  && (0 <=? minute t) && (minute t <=? 59)
  && (0 <=? second t) && (second t <=? 59)
  && (0 <=? microsecond t) && (microsecond t <=? 999999).

(** [t.strftime('%Y%m%d')] *)
Definition strftime_Ymd (t : datetime) : list ascii :=
  Text.digits_fixed 4 (year t) ++ Text.digits_fixed 2 (month t)
  ++ Text.digits_fixed 2 (day t).

(** [t.strftime('%Y%m%d_%H%M%S_%f')] *)
Definition strftime_stamp (t : datetime) : list ascii :=
  strftime_Ymd t ++ "_"%char ::
  (Text.digits_fixed 2 (hour t) ++ Text.digits_fixed 2 (minute t)
   ++ Text.digits_fixed 2 (second t)) ++ "_"%char ::
  Text.digits_fixed 6 (microsecond t).

(** [datetime.strptime(s, '%Y%m%d')] on the eight digits the sweep hands
    it: four digits of year, two of month, two of day. [None] stands for
    the [ValueError] raised on a month outside 01..12, a day outside the
    month or the year 0000. *)
Definition strptime_Ymd (s : list ascii) : option datetime :=
  if negb ((List.length s =? 8)%nat && forallb Text.is_digit s) then None
  else
    let y := Text.int_of_digits (firstn 4 s) in
    let m := Text.int_of_digits (firstn 2 (skipn 4 s)) in
    let d := Text.int_of_digits (skipn 6 s) in
    if valid_date y m d then Some (mk_datetime y m d 0 0 0 0) else None.

(** [t.date()] printed ([YYYY-MM-DD]). *)
Definition str_date (t : datetime) : string :=
  string_of_list_ascii
    (Text.digits_fixed 4 (year t) ++ "-"%char :: Text.digits_fixed 2 (month t)
     ++ "-"%char :: Text.digits_fixed 2 (day t)).

End Calendar.

(** [now - timedelta(days=n)], as a point on the microsecond axis. *)
Definition cutoff_date (now : datetime) (days : Z) : Z :=
  Calendar.micros now - days * Calendar.us_per_day.

(** ** The date pattern of the remote sweep

    [re.search(r'_(\d{8})_\d{6}_\d+\.sql\.gz$', name)] *)

Module DatePattern.

Definition expect (c : ascii) (l : list ascii) : option (list ascii) :=
  match l with
  | d :: t => if Ascii.eqb c d then Some t else None
  | [] => None
  end.

Fixpoint expect_all (lit l : list ascii) : option (list ascii) :=
  match lit with
  | [] => Some l
  | c :: lit' => l' ← expect c l; expect_all lit' l'
  end.

(** [\d{n}] *)
Fixpoint take_digits (n : nat) (l : list ascii) : option (list ascii * list ascii) :=
  match n with
  | O => Some ([], l)
  | S n' =>
      match l with
      | c :: t =>
          if Text.is_digit c
          then '(ds, r) ← take_digits n' t; Some (c :: ds, r)
          else None
      | [] => None
      end
  end.

(** [\d+] is greedy; what follows it in the pattern is a literal dot, so
    giving back digits can never help and the longest run is the only
    candidate. *)
Fixpoint span_digits (l : list ascii) : list ascii * list ascii :=
  match l with
  | c :: t =>
      if Text.is_digit c
      then let '(ds, r) := span_digits t in (c :: ds, r)
      else ([], l)
  | [] => ([], [])
  end.

(** [$]: the end of the string, or just before a newline that ends it. *)
Definition at_end (l : list ascii) : bool :=
  match l with
  | [] => true
  | [c] => Ascii.eqb c "010"%char
  | _ => false
  end.

(** The pattern matched at the very start of [l]; the result is group 1. *)
Definition match_here (l : list ascii) : option (list ascii) :=
  l1 ← expect "_" l;
  '(g, l2) ← take_digits 8 l1;
  l3 ← expect "_" l2;
  '(_, l4) ← take_digits 6 l3;
  l5 ← expect "_" l4;
  let '(ds, l6) := span_digits l5 in
  match ds with
  | [] => None
  | _ :: _ =>
      l7 ← expect_all (list_ascii_of_string ".sql.gz") l6;
      if at_end l7 then Some g else None
  end.

(** [re.search]: the leftmost position at which the pattern matches. *)
Fixpoint search (l : list ascii) : option (list ascii) :=
  match match_here l with
  | Some g => Some g
  | None =>
      match l with
      | [] => None
      | _ :: t => search t
      end
  end.

(** [date_match.group(1)] when there is a match. *)
Definition date_match (name : string) : option (list ascii) :=
  search (list_ascii_of_string name).

End DatePattern.

(** ** Constants *)

Definition BACKUP_DIR : string := "/var/backups/pgbackup".
Definition TEMP_DIR : string := BACKUP_DIR +:+ "/tmp".
Definition LOCK_FILE : string := BACKUP_DIR +:+ "/pgbackup.lock".
Definition FAILED_UPLOADS_FILE : string := BACKUP_DIR +:+ "/.failed_uploads.json".
Definition RETENTION_DAYS : Z := 365.
Definition LOCAL_RETENTION_DAYS : Z := 7.
Definition MIN_DISK_SPACE_MB : Z := 1024.
Definition MAX_UPLOAD_RETRIES : Z := 3.

(** ** Artifact naming ([backup_database], the three lines that build the path) *)

(** [f"{sanitized_db_name}_{timestamp}.sql.gz"] *)
Definition backup_file_name (db_name : string) (now : datetime) : string :=
  let timestamp := string_of_list_ascii (Calendar.strftime_stamp now) in
  let sanitized_db_name := _sanitize_filename db_name in
  sanitized_db_name +:+ "_" +:+ timestamp +:+ ".sql.gz".

(** [dir / name] for a relative [name]. *)
Definition path_join (dir name : string) : string := dir +:+ "/" +:+ name.

Definition backup_file_path (db_name : string) (now : datetime) : string :=
  path_join BACKUP_DIR (backup_file_name db_name now).

(** ** Exceptions, log records, observable events *)

Inductive exn_class :=
| PermissionError | BlockingIOError | OSError
| AzureError | ResourceExistsError
| ValueError | AttributeError | OtherException.

(** [str(e)] is [exn_text]; [error_code] is the attribute Azure errors carry. *)
Record exn := mk_exn {
  exn_cls : exn_class;
  exn_text : string;
  error_code : option string
}.

(** [isinstance(e, AzureError)]: [ResourceExistsError] is a subclass. *)
Definition is_azure_error (e : exn) : bool :=
  match exn_cls e with
  | AzureError | ResourceExistsError => true
  | _ => false
  end.

Inductive level := DEBUG | INFO | WARNING | ERROR.

(** What a run does that can be seen from outside, in order: the methods
    it enters and the calls it makes on files, locks and the container.
    The list is ghost state: the script keeps no such record. *)
Inductive event :=
| EvOpenLock (path : string)
| EvReleaseLock (path : string)
| EvDiskUsage
| EvHealthCheck
| EvRetryPass
| EvGetDatabases
| EvPreMaintenance (db : string)
| EvBackup (db : string)
| EvPostMaintenance (db : string)
| EvUpload (path : string) (is_retry : bool)
| EvUploadBlob (blob : string)
| EvCleanupAzure
| EvDeleteBlob (blob : string)
| EvCleanupLocal
| EvUnlink (path : string)
| EvNotify (subject : string).

(** ** The ledger entry and the state *)

(** One value of [self.failed_uploads]. The timestamps are written with
    [isoformat()] and never read back; the model keeps the [datetime]. An
    entry read back from the file is taken to have its four keys. *)
Record entry := mk_entry {
  file : string;
  first_failure : datetime;
  retry_count : Z;
  last_attempt : datetime
}.

(** The keys of [self.config] the engine reads. *)
Record config := mk_config {
  azure_account_name : option string;
  azure_account_key : option string;
  azure_container_name : option string;
  notify_on_warnings : bool;
  pg_user : string;
  pg_connection_method : string;
  run_maintenance : bool;
  pg_maintenance_user : option string;
  run_post_backup_maintenance : bool;
  check_long_queries : bool
}.

(** An open file object on a lock path. *)
Record handle := mk_handle { h_path : string; h_open : bool }.

(** The object ([self]) together with the part of the world it acts on.
    The ledger file is kept by what it holds ([saved_uploads]) and is not
    one of [files]: writing it changes [saved_uploads] and nothing else. *)
Record state := mk_state {
  cfg : config;
  errors : list string;
  warnings : list string;
  failed_uploads : gmap string entry;
  lock_file : option handle;          (* [None]: the attribute is not set *)
  actual_lock_file : option string;   (* likewise *)
  saved_uploads : gmap string entry;  (* contents of [.failed_uploads.json] *)
  files : gmap string Z;              (* the other local files: path and [st_mtime] as a local [datetime], in microseconds *)
  container : list string;            (* names of the blobs in the container *)
  log : list (level * string);
  events : list event
}.

Definition set_errors (v : list string) (s : state) : state :=
  mk_state (cfg s) v (warnings s) (failed_uploads s) (lock_file s) (actual_lock_file s)
           (saved_uploads s) (files s) (container s) (log s) (events s).
Definition set_warnings (v : list string) (s : state) : state :=
  mk_state (cfg s) (errors s) v (failed_uploads s) (lock_file s) (actual_lock_file s)
           (saved_uploads s) (files s) (container s) (log s) (events s).
Definition set_failed_uploads (v : gmap string entry) (s : state) : state :=
  mk_state (cfg s) (errors s) (warnings s) v (lock_file s) (actual_lock_file s)
           (saved_uploads s) (files s) (container s) (log s) (events s).
Definition set_lock_file (v : option handle) (s : state) : state :=
  mk_state (cfg s) (errors s) (warnings s) (failed_uploads s) v (actual_lock_file s)
           (saved_uploads s) (files s) (container s) (log s) (events s).
Definition set_actual_lock_file (v : option string) (s : state) : state :=
  mk_state (cfg s) (errors s) (warnings s) (failed_uploads s) (lock_file s) v
           (saved_uploads s) (files s) (container s) (log s) (events s).
Definition set_saved_uploads (v : gmap string entry) (s : state) : state :=
  mk_state (cfg s) (errors s) (warnings s) (failed_uploads s) (lock_file s) (actual_lock_file s)
           v (files s) (container s) (log s) (events s).
Definition set_files (v : gmap string Z) (s : state) : state :=
  mk_state (cfg s) (errors s) (warnings s) (failed_uploads s) (lock_file s) (actual_lock_file s)
           (saved_uploads s) v (container s) (log s) (events s).
Definition set_container (v : list string) (s : state) : state :=
  mk_state (cfg s) (errors s) (warnings s) (failed_uploads s) (lock_file s) (actual_lock_file s)
           (saved_uploads s) (files s) v (log s) (events s).
Definition set_log (v : list (level * string)) (s : state) : state :=
  mk_state (cfg s) (errors s) (warnings s) (failed_uploads s) (lock_file s) (actual_lock_file s)
           (saved_uploads s) (files s) (container s) v (events s).
Definition set_events (v : list event) (s : state) : state :=
  mk_state (cfg s) (errors s) (warnings s) (failed_uploads s) (lock_file s) (actual_lock_file s)
           (saved_uploads s) (files s) (container s) (log s) v.

(** [self.errors.append(m)], [self.warnings.append(m)], [logger.<level>(m)] *)
Definition errors_append (m : string) (s : state) : state := set_errors (errors s ++ [m]) s.
Definition warnings_append (m : string) (s : state) : state := set_warnings (warnings s ++ [m]) s.
Definition warnings_extend (ms : list string) (s : state) : state := set_warnings (warnings s ++ ms) s.
Definition logger (l : level) (m : string) (s : state) : state := set_log (log s ++ [(l, m)]) s.
Definition emit (e : event) (s : state) : state := set_events (events s ++ [e]) s.

(** [Path(p).name]: the text after the last slash. *)
Fixpoint path_name_go (acc p : string) : string :=
  match p with
  | EmptyString => acc
  | String c t => if Ascii.eqb c "/" then path_name_go EmptyString t
                  else path_name_go (acc +:+ String c EmptyString) t
  end.
Definition path_name (p : string) : string := path_name_go EmptyString p.

(** [Path(p).parent] for an absolute path with at least one component. *)
Definition path_parent (p : string) : string :=
  Text.take (String.length p - String.length (path_name p) - 1) p.

(** ** [_check_disk_space] *)

(** [f"{x:.2f}"] for a non-negative [x]: the nearest multiple of 1/100,
    ties to even. *)
Definition format_2f (x : Q) : string :=
  let n := Qnum x * 100 in
  let d := Zpos (Qden x) in
  let q := n / d in
  let r := n mod d in
  let h := if (2 * r <? d) then q
           else if (d <? 2 * r) then q + 1
           else if Z.even q then q else q + 1 in
  pretty (h / 100) +:+ "." +:+ string_of_list_ascii (Text.digits_fixed 2 (h mod 100)).

Definition Qlt_bool (a b : Q) : bool := negb (Qle_bool b a).

(** The integer nearest to [n] among those a float holds exactly: 53
    significant bits, ties to the even mantissa. Below 2^53 that is [n]. *)
Definition round53 (n : Z) : Z :=
  let a := Z.abs n in
  let e := Z.log2 a - 52 in
  if e <=? 0 then n
  else
    let q := a / 2 ^ e in
    let r := a mod 2 ^ e in
    let h := 2 ^ (e - 1) in
    let q := if r <? h then q
             else if h <? r then q + 1
             else if Z.even q then q else q + 1 in
    Z.sgn n * (q * 2 ^ e).

(** [free / (1024 * 1024)] on integers: the float nearest to the quotient.
    The divisor is a power of two, so that float is [round53 free] over
    2^20; when it would reach 2^1024 the division raises. *)
Definition true_divide_mb (free : Z) : exn + Q :=
  if 2 ^ 1044 <=? Z.abs (round53 free)
  then inl (mk_exn OtherException "integer division result too large for a float" None)
  else inr (Qdiv (inject_Z (round53 free)) (inject_Z (1024 * 1024))).

(** The answer of [shutil.disk_usage(self.backup_dir)]: the free bytes, or
    the exception it raises. The comparison of the float [free_mb] with the
    integer [required_mb] is exact, as Python's is. *)
Definition _check_disk_space (usage : exn + Z) (required_mb : Z) (warn_only : bool)
    (s : state) : state * bool :=
  let s := emit EvDiskUsage s in
  let free_mb :=
    match usage with
    | inr free => true_divide_mb free
    | inl e => inl e
    end in
  match free_mb with
  | inr free_mb =>
      if Qlt_bool free_mb (inject_Z required_mb) then
        let error_msg := "Insufficient disk space: " +:+ format_2f free_mb
                         +:+ " MB free, need at least " +:+ pretty required_mb +:+ " MB" in
        if warn_only then
          let s := logger WARNING error_msg s in
          let s := warnings_append error_msg s in
          (s, true)
        else
          let s := logger ERROR error_msg s in
          let s := errors_append error_msg s in
          (s, false)
      else
        let s := logger INFO ("Disk space check: " +:+ format_2f free_mb +:+ " MB available") s in
        (s, true)
  | inl e =>
      let s := logger WARNING ("Could not check disk space: " +:+ exn_text e) s in
      (s, true)
  end.

(** ** [_acquire_lock] and [_release_lock] *)

(** The outcome of the sequence open, [flock(LOCK_EX | LOCK_NB)], write
    the pid, flush on one lock path. Every exception these raise is an
    [OSError]; it comes either before the file object exists ([mkdir],
    [open]) or after ([flock], [write], [flush]). *)
Inductive lock_attempt :=
| Locked
| OpenRaises (e : exn)
| FlockRaises (e : exn).

Definition FALLBACK_LOCK : string := "/tmp/pgbackup.lock".

(** ["Permission denied" in str(e) or isinstance(e, PermissionError)] *)
Definition permission_condition (e : exn) : bool :=
  Text.contains "Permission denied" (exn_text e)
  || match exn_cls e with PermissionError => true | _ => false end.

Definition _acquire_lock (primary fallback : lock_attempt) (s : state) : state * bool :=
  let s := set_actual_lock_file (Some LOCK_FILE) s in
  let attempt (path : string) (a : lock_attempt) (s : state) : state * option exn :=
    let s := emit (EvOpenLock path) s in
    match a with
    | Locked => (set_lock_file (Some (mk_handle path true)) s, None)
    | OpenRaises e => (s, Some e)
    | FlockRaises e => (set_lock_file (Some (mk_handle path true)) s, Some e)
    end in
  match attempt LOCK_FILE primary s with
  | (s, None) => (s, true)
  | (s, Some e) =>
      if permission_condition e then
        let fallback_lock := FALLBACK_LOCK in
        match attempt fallback_lock fallback s with
        | (s, None) =>
            let s := set_actual_lock_file (Some fallback_lock) s in
            let s := logger WARNING ("Using fallback lock file: " +:+ fallback_lock) s in
            (s, true)
        | (s, Some e2) =>
            let s := logger ERROR ("Cannot acquire lock (tried " +:+ LOCK_FILE +:+ " and "
                                   +:+ fallback_lock +:+ "): " +:+ exn_text e2) s in
            let s := errors_append "Cannot acquire lock - check permissions" s in
            (s, false)
        end
      else
        let s := logger ERROR ("Another backup process is already running (lock file: "
                               +:+ LOCK_FILE +:+ "): " +:+ exn_text e) s in
        let s := errors_append "Backup already in progress - another instance is running" s in
        (s, false)
  end.

(** Unlocking, closing and unlinking are taken to succeed on an open file
    object; on a closed one [fileno()] raises and the handler logs it. *)
Definition _release_lock (s : state) : state :=
  match lock_file s with
  | Some h =>
      if h_open h then
        let lock_file_to_remove := default LOCK_FILE (actual_lock_file s) in
        let s := set_lock_file (Some (mk_handle (h_path h) false)) s in
        emit (EvReleaseLock lock_file_to_remove) s
      else
        logger WARNING "Error releasing lock: I/O operation on closed file" s
  | None => s
  end.

(** ** The failed-upload ledger *)

(** [_save_failed_uploads]: the dump of the dictionary to
    [.failed_uploads.json]. The write is taken to succeed; the handler that
    logs a failed write and goes on is left out. *)
Definition _save_failed_uploads (s : state) : state :=
  set_saved_uploads (failed_uploads s) s.

(** [_load_failed_uploads], as [__init__] calls it. *)
Definition _load_failed_uploads (s : state) : state :=
  set_failed_uploads (saved_uploads s) s.

Definition _mark_upload_failed (now : datetime) (backup_file : string) (s : state) : state :=
  let file_str := backup_file in
  let s :=
    match failed_uploads s !! file_str with
    | None =>
        set_failed_uploads
          (<[file_str := mk_entry backup_file now 0 now]> (failed_uploads s)) s
    | Some e =>
        set_failed_uploads
          (<[file_str := mk_entry (file e) (first_failure e) (retry_count e + 1) now]>
             (failed_uploads s)) s
    end in
  _save_failed_uploads s.

Definition _mark_upload_success (backup_file : string) (s : state) : state :=
  let file_str := backup_file in
  match failed_uploads s !! file_str with
  | Some _ =>
      let s := set_failed_uploads (delete file_str (failed_uploads s)) s in
      _save_failed_uploads s
  | None => s
  end.

(** [backup_file.exists()] *)
Definition exists_ (path : string) (s : state) : bool :=
  bool_decide (is_Some (files s !! path)).

Definition _should_retry_upload (backup_file : string) (s : state) : state * bool :=
  let file_str := backup_file in
  match failed_uploads s !! file_str with
  | None => (s, false)
  | Some upload_info =>
      let retry_count := retry_count upload_info in
      if MAX_UPLOAD_RETRIES <=? retry_count then (s, false)
      else if negb (exists_ backup_file s) then
        let s := set_failed_uploads (delete file_str (failed_uploads s)) s in
        let s := _save_failed_uploads s in
        (s, false)
      else (s, true)
  end.

(** ** [upload_to_azure] *)

(** What Azure Blob Storage and the key check answer: [None] is a call that
    returns, [Some e] one that raises [e]. [upload_blob] stands for opening
    the file and sending it, asked about by local path; [delete_blob] is
    asked about by blob name. *)
Record azure := mk_azure {
  b64decode : option exn;
  from_connection_string : option exn;
  create_container : option exn;
  upload_blob : string -> option exn;
  list_blobs : option exn;
  delete_blob : string -> option exn
}.

(** [not v] for a configuration value that is absent or a string. *)
Definition falsy (v : option string) : bool :=
  match v with
  | None => true
  | Some x => String.eqb x EmptyString
  end.

(** [str.lower()] on code points below 256. *)
Definition lower_char (c : ascii) : ascii :=
  let n := N_of_ascii c in
  if ((65 <=? n) && (n <=? 90) || (192 <=? n) && (n <=? 222) && negb (n =? 215))%N
  then ascii_of_N (n + 32) else c.

Fixpoint lower (x : string) : string :=
  match x with
  | EmptyString => EmptyString
  | String c t => String (lower_char c) (lower t)
  end.

(** The advice appended to an error text that points at the account key;
    the arrows of the script's text are kept as their UTF-8 bytes. *)
Definition key_hint (last : string) : string :=
  String "010" "  → The Azure storage account key appears to be malformed"
  +:+ String "010" "  → Please verify the key from Azure Portal (Storage Account > Access Keys)"
  +:+ String "010" "  → Make sure you copied the entire key without extra spaces or newlines"
  +:+ String "010" last.

(** The container name is [config.get('azure_container_name', 'pgbackups')]. *)
Definition container_name (s : state) : string :=
  default "pgbackups" (azure_container_name (cfg s)).

(** The part of [upload_to_azure] after the client exists, up to the first
    exception: ensure the container, open the file, send it. *)
Definition send_blob (az : azure) (backup_file : string) (s : state) : state * option exn :=
  let ensured : state * option exn :=
    match create_container az with
    | None => (logger INFO ("Created Azure container: " +:+ container_name s) s, None)
    | Some e =>
        if is_azure_error e then
          match exn_cls e with
          | ResourceExistsError => (s, None)
          | _ =>
              if bool_decide (error_code e = Some "ContainerAlreadyExists")
              then (s, None) else (s, Some e)
          end
        else (s, Some e)
    end in
  match ensured with
  | (s, Some e) => (s, Some e)
  | (s, None) =>
      let blob_name := path_name backup_file in
      if negb (exists_ backup_file s) then
        (s, Some (mk_exn OSError ("[Errno 2] No such file or directory: '"
                                  +:+ backup_file +:+ "'") None))
      else
        let s := emit (EvUploadBlob blob_name) s in
        match upload_blob az backup_file with
        | Some e => (s, Some e)
        | None =>
            let s := if bool_decide (blob_name ∈ container s) then s
                     else set_container (container s ++ [blob_name]) s in
            (s, None)
        end
  end.

Definition upload_to_azure (az : azure) (now : datetime) (backup_file : string)
    (is_retry : bool) (s : state) : state * bool :=
  let s := emit (EvUpload backup_file is_retry) s in
  let s :=
    if is_retry
    then logger INFO ("Retrying upload of " +:+ path_name backup_file
                      +:+ " to Azure Blob Storage...") s
    else logger INFO ("Uploading " +:+ path_name backup_file
                      +:+ " to Azure Blob Storage...") s in
  let account_name := azure_account_name (cfg s) in
  let account_key := azure_account_key (cfg s) in
  if falsy account_name || falsy account_key then
    let error_msg := "Azure credentials not configured" in
    let s := logger ERROR error_msg s in
    let s := errors_append error_msg s in
    let s := if negb is_retry then _mark_upload_failed now backup_file s else s in
    (s, false)
  else
  match b64decode az with
  | Some e =>
      let error_msg := "Azure storage account key appears to be invalid (not base64): "
                       +:+ exn_text e in
      let s := logger ERROR error_msg s in
      let s := logger ERROR "Please verify the Azure storage account key in the configuration" s in
      let s := logger ERROR "The key should be a base64-encoded string from Azure Portal" s in
      let s := logger ERROR "Get it from: Azure Portal > Storage Account > Access Keys" s in
      let s := errors_append "Azure account key validation failed" s in
      let s := if negb is_retry then _mark_upload_failed now backup_file s else s in
      (s, false)
  | None =>
  match from_connection_string az with
  | Some e =>
      let error_msg := "Failed to create Azure client: " +:+ exn_text e in
      let error_detail := lower (exn_text e) in
      let error_msg :=
        if Text.contains "incorrect padding" error_detail
           || Text.contains "base64" error_detail
           || Text.contains "invalid" error_detail
        then error_msg
             +:+ key_hint "  → The key should be a base64-encoded string (typically 88 characters)"
        else error_msg in
      let s := logger ERROR error_msg s in
      let s := errors_append "Azure client creation failed" s in
      let s := if negb is_retry then _mark_upload_failed now backup_file s else s in
      (s, false)
  | None =>
  match send_blob az backup_file s with
  | (s, None) =>
      let s := logger INFO ("Successfully uploaded " +:+ path_name backup_file +:+ " to Azure") s in
      let s := _mark_upload_success backup_file s in
      (s, true)
  | (s, Some e) =>
      let error_detail := lower (exn_text e) in
      let error_msg :=
        if is_azure_error e then
          let error_msg := "Azure upload error: " +:+ exn_text e in
          if Text.contains "incorrect padding" error_detail
             || Text.contains "base64" error_detail
          then error_msg +:+ key_hint "  → Re-run setup: python3 pg_backup_setup.py"
          else error_msg
        else
          let error_msg := "Error uploading to Azure: " +:+ exn_text e in
          if Text.contains "incorrect padding" error_detail
             || Text.contains "base64" error_detail
             || Text.contains "invalid" error_detail
          then error_msg +:+ key_hint "  → Re-run setup: python3 pg_backup_setup.py"
          else error_msg in
      let s := logger ERROR error_msg s in
      let s :=
        if negb is_retry then
          let s := errors_append error_msg s in
          _mark_upload_failed now backup_file s
        else s in
      (s, false)
  end end end.

(** ** [cleanup_old_backups_azure] *)

(** [except (ValueError, AttributeError)]: the classes the handler inside
    the loop catches. *)
Definition caught_in_loop (e : exn) : bool :=
  match exn_cls e with
  | ValueError | AttributeError => true
  | _ => false
  end.

(** The exception with which the deletion of a blob leaves the loop: what
    [delete_blob] raises, unless the handler inside the loop catches it. *)
Definition leaves_loop (az : azure) (blob_name : string) : option exn :=
  match delete_blob az blob_name with
  | Some e => if caught_in_loop e then None else Some e
  | None => None
  end.

(** One turn of the loop over the blobs. The third component is the
    exception that leaves the loop: the handler inside the loop covers the
    parsing of the date and the deletion, and catches [ValueError] and
    [AttributeError] only; it warns and goes on to the next blob. The text
    of the [ValueError] of [strptime] varies with the check that fails and
    with the version of Python; the model writes the one of a failed
    format match. *)
Definition sweep_blob (az : azure) (cutoff : Z) (blob_name : string)
    (acc : state * Z) : state * Z * option exn :=
  let '(s, deleted_count) := acc in
  match DatePattern.date_match blob_name with
  | Some date_str =>
      match Calendar.strptime_Ymd date_str with
      | Some blob_date =>
          if Calendar.micros blob_date <? cutoff then
            let s := emit (EvDeleteBlob blob_name) s in
            match delete_blob az blob_name with
            | Some e =>
                if caught_in_loop e then
                  let s := logger WARNING ("Could not parse date from blob name "
                              +:+ blob_name +:+ ": " +:+ exn_text e) s in
                  (s, deleted_count, None)
                else (s, deleted_count, Some e)
            | None =>
                let s := set_container (filter (λ b, b ≠ blob_name) (container s)) s in
                let deleted_count := deleted_count + 1 in
                let s := logger INFO ("Deleted old backup: " +:+ blob_name +:+ " (from "
                                      +:+ Calendar.str_date blob_date +:+ ")") s in
                (s, deleted_count, None)
            end
          else (s, deleted_count, None)
      | None =>
          let s := logger WARNING ("Could not parse date from blob name " +:+ blob_name
                      +:+ ": time data '" +:+ string_of_list_ascii date_str
                      +:+ "' does not match format '%Y%m%d'") s in
          (s, deleted_count, None)
      end
  | None =>
      let s := logger WARNING ("Could not parse date from blob name " +:+ blob_name
                  +:+ ": expected format dbname_YYYYMMDD_HHMMSS_microseconds.sql.gz") s in
      (s, deleted_count, None)
  end.

Fixpoint sweep_blobs (az : azure) (cutoff : Z) (blobs : list string)
    (acc : state * Z) : state * Z * option exn :=
  match blobs with
  | [] => (acc, None)
  | blob :: rest =>
      match sweep_blob az cutoff blob acc with
      | (acc', None) => sweep_blobs az cutoff rest acc'
      | (acc', Some e) => (acc', Some e)
      end
  end.

Definition cleanup_old_backups_azure (az : azure) (now : datetime) (s : state) : state * Z :=
  let s := emit EvCleanupAzure s in
  let s := logger INFO "Cleaning up old backups from Azure..." s in
  let deleted_count := 0 in
  let cutoff := cutoff_date now RETENTION_DAYS in
  let account_name := azure_account_name (cfg s) in
  let account_key := azure_account_key (cfg s) in
  if falsy account_name || falsy account_key then
    (logger WARNING "Azure credentials not configured, skipping cleanup" s, 0)
  else
  match b64decode az with
  | Some _ =>
      (logger WARNING "Azure account key validation failed during cleanup - skipping" s, 0)
  | None =>
  match from_connection_string az with
  | Some e =>
      let error_detail := lower (exn_text e) in
      let s :=
        if Text.contains "incorrect padding" error_detail || Text.contains "base64" error_detail
        then
          let s := logger WARNING ("Azure client creation failed during cleanup (key issue): "
                                   +:+ exn_text e) s in
          logger WARNING "Fix Azure key in configuration and retry" s
        else logger WARNING ("Azure client creation failed during cleanup: " +:+ exn_text e) s in
      (s, 0)
  | None =>
      let failed (e : exn) (acc : state * Z) : state * Z :=
        let '(s, deleted_count) := acc in
        let error_msg := "Error during Azure cleanup: " +:+ exn_text e in
        let s := logger ERROR error_msg s in
        let s := errors_append error_msg s in
        (s, deleted_count) in
      match list_blobs az with
      | Some e => failed e (s, deleted_count)
      | None =>
          let blobs := container s in
          match sweep_blobs az cutoff blobs (s, deleted_count) with
          | (acc, Some e) => failed e acc
          | ((s, deleted_count), None) =>
              let s := logger INFO ("Cleanup completed: deleted " +:+ pretty deleted_count
                                    +:+ " old backups") s in
              (s, deleted_count)
          end
      end
  end end.

(** ** [cleanup_local_backups] *)

(** [dir.glob(pattern)], for the two patterns used ("*.sql", "*.sql.gz"):
    the entries directly in [dir] whose names end with the suffix. The
    order is the one of the map, standing for the order of the directory. *)
Definition in_glob (dir suffix path : string) : bool :=
  String.eqb (path_parent path) dir && Text.ends_with suffix (path_name path).

Definition glob (dir suffix : string) (s : state) : list string :=
  filter (λ p, in_glob dir suffix p = true) (map_to_list (files s)).*1.

(** [unlink_raises p] is the exception [p.unlink()] raises, if any. *)
Definition sweep_temp_file (unlink_raises : string -> option exn) (tmp_file : string)
    (s : state) : state :=
  let s := emit (EvUnlink tmp_file) s in
  match unlink_raises tmp_file with
  | None =>
      let s := set_files (delete tmp_file (files s)) s in
      logger INFO ("Cleaned up leftover temp file: " +:+ path_name tmp_file) s
  | Some e =>
      logger WARNING ("Error deleting temp file " +:+ path_name tmp_file +:+ ": "
                      +:+ exn_text e) s
  end.

(** One turn of the loop over [self.backup_dir.glob("*.sql.gz")]. An
    exception inside ([stat] on a file that is gone, [unlink]) is logged
    and the loop goes on. *)
Definition sweep_local_file (unlink_raises : string -> option exn) (cutoff : Z)
    (backup_file : string) (acc : state * Z) : state * Z :=
  let '(s, deleted_count) := acc in
  let failed (e : exn) (s : state) : state :=
    logger WARNING ("Error deleting " +:+ path_name backup_file +:+ ": " +:+ exn_text e) s in
  if String.eqb (path_name backup_file) ".failed_uploads.json" then (s, deleted_count)
  else
  match files s !! backup_file with
  | None =>
      (failed (mk_exn OSError ("[Errno 2] No such file or directory: '"
                               +:+ backup_file +:+ "'") None) s, deleted_count)
  | Some file_time =>
      let file_str := backup_file in
      let is_failed_upload := bool_decide (is_Some (failed_uploads s !! file_str)) in
      if (file_time <? cutoff) && negb is_failed_upload then
        let s := emit (EvUnlink backup_file) s in
        match unlink_raises backup_file with
        | Some e => (failed e s, deleted_count)
        | None =>
            let s := set_files (delete backup_file (files s)) s in
            let deleted_count := deleted_count + 1 in
            let s := logger INFO ("Deleted old local backup: " +:+ path_name backup_file
                                  +:+ " (successfully uploaded)") s in
            (s, deleted_count)
        end
      else
        match failed_uploads s !! file_str with
        | Some upload_info =>
            let retry_count := retry_count upload_info in
            if MAX_UPLOAD_RETRIES <=? retry_count then
              let s := logger WARNING ("Deleting backup " +:+ path_name backup_file
                          +:+ " after " +:+ pretty retry_count
                          +:+ " failed upload attempts") s in
              let s := emit (EvUnlink backup_file) s in
              match unlink_raises backup_file with
              | Some e => (failed e s, deleted_count)
              | None =>
                  let s := set_files (delete backup_file (files s)) s in
                  let s := set_failed_uploads (delete file_str (failed_uploads s)) s in
                  let deleted_count := deleted_count + 1 in
                  let s := _save_failed_uploads s in
                  (s, deleted_count)
              end
            else (s, deleted_count)
        | None => (s, deleted_count)
        end
  end.

Definition cleanup_local_backups (unlink_raises : string -> option exn) (now : datetime)
    (s : state) : state * Z :=
  let s := emit EvCleanupLocal s in
  let s := logger INFO "Cleaning up old local backups..." s in
  let deleted_count := 0 in
  let cutoff := cutoff_date now LOCAL_RETENTION_DAYS in
  let s := foldl (λ s tmp_file, sweep_temp_file unlink_raises tmp_file s) s
                 (glob TEMP_DIR ".sql" s) in
  let '(s, deleted_count) :=
    foldl (λ acc backup_file, sweep_local_file unlink_raises cutoff backup_file acc)
          (s, deleted_count) (glob BACKUP_DIR ".sql.gz" s) in
  let s := logger INFO ("Local cleanup completed: deleted " +:+ pretty deleted_count
                        +:+ " files") s in
  (s, deleted_count).

(** ** [retry_failed_uploads] *)

(** One turn of the loop over the snapshot of the keys. *)
Definition retry_one (az : azure) (now : datetime) (file_str : string)
    (acc : state * (Z * Z)) : state * (Z * Z) :=
  let '(s, (successful_retries, failed_retries)) := acc in
  let backup_file := file_str in
  match _should_retry_upload backup_file s with
  | (s, false) => (s, (successful_retries, failed_retries))
  | (s, true) =>
      if negb (exists_ backup_file s) then
        let s := logger WARNING ("Failed upload file no longer exists: "
                                 +:+ path_name backup_file) s in
        let s :=
          match failed_uploads s !! file_str with
          | Some _ =>
              let s := set_failed_uploads (delete file_str (failed_uploads s)) s in
              _save_failed_uploads s
          | None => s
          end in
        (s, (successful_retries, failed_retries))
      else
        let s := logger INFO ("Retrying upload of " +:+ path_name backup_file +:+ "...") s in
        match upload_to_azure az now backup_file true s with
        | (s, true) =>
            let s := logger INFO ("Successfully retried upload of "
                                  +:+ path_name backup_file) s in
            (s, (successful_retries + 1, failed_retries))
        | (s, false) =>
            let retry_count :=
              match failed_uploads s !! file_str with
              | Some upload_info => retry_count upload_info
              | None => 0
              end in
            let s := logger WARNING ("Retry failed for " +:+ path_name backup_file
                        +:+ " (attempt " +:+ pretty (retry_count + 1) +:+ "/"
                        +:+ pretty MAX_UPLOAD_RETRIES +:+ ")") s in
            (s, (successful_retries, failed_retries + 1))
        end
  end.

(** The keys are visited in the order of the map, where the script visits
    them in the insertion order of the dictionary: the attempts of one pass
    may come in another order than the script makes them. *)
Definition retry_failed_uploads (az : azure) (now : datetime) (s : state) : state * (Z * Z) :=
  let s := emit EvRetryPass s in
  let s := logger INFO "Checking for failed uploads to retry..." s in
  if bool_decide (failed_uploads s = ∅) then
    (logger INFO "No failed uploads to retry" s, (0, 0))
  else
    let s := logger INFO ("Found " +:+ pretty (Z.of_nat (size (failed_uploads s)))
                          +:+ " failed upload(s) to retry") s in
    let failed_files := (map_to_list (failed_uploads s)).*1 in
    let '(s, (successful_retries, failed_retries)) :=
      foldl (λ acc file_str, retry_one az now file_str acc) (s, (0, 0)) failed_files in
    let s := if 0 <? successful_retries
             then logger INFO ("Successfully retried " +:+ pretty successful_retries
                               +:+ " upload(s)") s
             else s in
    let s := if 0 <? failed_retries
             then logger WARNING ("Failed to retry " +:+ pretty failed_retries
                                  +:+ " upload(s)") s
             else s in
    (s, (successful_retries, failed_retries)).

(** ** The procedure: [run_backup_procedure] *)

(** What the outside world answers during one run. The methods that only
    wrap an external tool ([check_postgresql_health], [get_databases], the
    two maintenance methods, the dump and compression inside
    [backup_database], [send_email_notification]) are represented by what
    they hand back to the procedure; their own log lines are not modelled. *)
Record world := mk_world {
  lock_primary : lock_attempt;
  lock_fallback : lock_attempt;
  disk_usage : exn + Z;                       (* before the run *)
  disk_usage_before : string -> exn + Z;      (* before the dump of a database *)
  health_issues : list string;
  databases : list string;                    (* what [get_databases] returns *)
  databases_errors : list string;             (* and what it appends to [self.errors] *)
  pre_maintenance : string -> list string;    (* warnings it adds *)
  post_maintenance : string -> list string;
  dump : string -> option string;             (* [Some m]: the dump fails with error [m] *)
  backup_time : string -> datetime;           (* the clock when a database is dumped *)
  cloud : azure;
  unlink_raises : string -> option exn;
  start_time : datetime;
  end_time : datetime                         (* the clock from the sweeps on *)
}.

Fixpoint repeat_string (x : string) (n : nat) : string :=
  match n with
  | O => EmptyString
  | S n' => x +:+ repeat_string x n'
  end.

(** [str(b - a)] for two [datetime] values. *)
Definition str_timedelta (a b : datetime) : string :=
  let d := Calendar.micros b - Calendar.micros a in
  let days := d / Calendar.us_per_day in
  let rest := d mod Calendar.us_per_day in
  let seconds := rest / 1000000 in
  let us := rest mod 1000000 in
  let mm := seconds / 60 in
  let ss := seconds mod 60 in
  let hh := mm / 60 in
  let mm := mm mod 60 in
  let t := pretty hh +:+ ":" +:+ string_of_list_ascii (Text.digits_fixed 2 mm)
           +:+ ":" +:+ string_of_list_ascii (Text.digits_fixed 2 ss) in
  let t := if days =? 0 then t
           else pretty days +:+ " day" +:+ (if Z.abs days =? 1 then EmptyString else "s") +:+ ", " +:+ t in
  if us =? 0 then t else t +:+ "." +:+ string_of_list_ascii (Text.digits_fixed 6 us).

(** [_send_final_notification]: the subject is built as the script builds
    it; the body and the delivery belong to the mail collaborator. *)
Definition _send_final_notification (s : state) : state :=
  let subject := "PostgreSQL Backup " in
  let subject :=
    match errors s, warnings s with
    | _ :: _, _ => subject +:+ "FAILED"
    | [], _ :: _ => subject +:+ "COMPLETED WITH WARNINGS"
    | [], [] => subject +:+ "SUCCESS"
    end in
  emit (EvNotify subject) s.

(** [backup_database]: the soft capacity check, the name, then the dump
    and compression as the world reports them. *)
Definition backup_database (w : world) (db_name : string) (s : state) : state * option string :=
  let s := emit (EvBackup db_name) s in
  let '(s, _) := _check_disk_space (disk_usage_before w db_name) (MIN_DISK_SPACE_MB * 2) true s in
  let backup_file := backup_file_path db_name (backup_time w db_name) in
  let s := logger INFO ("Starting backup of database: " +:+ db_name) s in
  match dump w db_name with
  | Some error_msg =>
      let s := logger ERROR error_msg s in
      let s := errors_append error_msg s in
      (s, None)
  | None =>
      let s := set_files (<[backup_file := Calendar.micros (backup_time w db_name)]> (files s)) s in
      (s, Some backup_file)
  end.

(** One turn of the loop over the databases. *)
Definition process_database (w : world) (db_name : string) (acc : state * (Z * Z))
    : state * (Z * Z) :=
  let '(s, (successful_backups, failed_backups)) := acc in
  let s := logger INFO (repeat_string "-" 60) s in
  let s := logger INFO ("Processing database: " +:+ db_name) s in
  let s := logger INFO (repeat_string "-" 60) s in
  let s := emit (EvPreMaintenance db_name) s in
  let s := warnings_extend (pre_maintenance w db_name) s in
  match backup_database w db_name s with
  | (s, Some backup_file) =>
      match upload_to_azure (cloud w) (backup_time w db_name) backup_file false s with
      | (s, true) =>
          let s := emit (EvPostMaintenance db_name) s in
          let s := warnings_extend (post_maintenance w db_name) s in
          (s, (successful_backups + 1, failed_backups))
      | (s, false) => (s, (successful_backups, failed_backups + 1))
      end
  | (s, None) => (s, (successful_backups, failed_backups + 1))
  end.

Definition enabled (b : bool) : string := if b then "ENABLED" else "DISABLED".

(** The summary of the configuration logged at the start of the [try] block. *)
Definition log_configuration (s : state) : state :=
  let s := logger INFO (repeat_string "=" 60) s in
  let s := logger INFO "Starting PostgreSQL backup procedure" s in
  let s := logger INFO (repeat_string "=" 60) s in
  let s := logger INFO "Backup Configuration:" s in
  let s := logger INFO ("  PostgreSQL User: " +:+ pg_user (cfg s)) s in
  let s := logger INFO ("  Connection Method: " +:+ pg_connection_method (cfg s)) s in
  let s := logger INFO ("  Pre-backup Maintenance (VACUUM/CHECKPOINT): "
                        +:+ enabled (run_maintenance (cfg s))) s in
  let s := if run_maintenance (cfg s)
           then logger INFO ("  Maintenance User: "
                             +:+ default (pg_user (cfg s)) (pg_maintenance_user (cfg s))) s
           else s in
  let s := logger INFO ("  Post-backup Maintenance (REINDEX): "
                        +:+ enabled (run_post_backup_maintenance (cfg s))) s in
  let s := logger INFO ("  Long-running Query Check: "
                        +:+ enabled (check_long_queries (cfg s))) s in
  logger INFO (repeat_string "=" 60) s.

(** The [try] block from the loop over a non-empty list of databases to
    its end: the loop, the two sweeps, the summary, the notification. *)
Definition backup_and_sweep (w : world) (dbs : list string) (s : state) : state :=
  let s := logger INFO ("Found " +:+ pretty (Z.of_nat (List.length dbs))
                        +:+ " database(s) to backup: " +:+ Text.join ", " dbs) s in
  let s := logger INFO EmptyString s in
  let '(s, (successful_backups, failed_backups)) :=
    foldl (λ acc db_name, process_database w db_name acc) (s, (0, 0)) dbs in
  let '(s, _) := cleanup_old_backups_azure (cloud w) (end_time w) s in
  let '(s, _) := cleanup_local_backups (unlink_raises w) (end_time w) s in
  let s := logger INFO (repeat_string "=" 60) s in
  let s := logger INFO ("Backup procedure completed in "
                        +:+ str_timedelta (start_time w) (end_time w)) s in
  let s := logger INFO ("Successful backups: " +:+ pretty successful_backups) s in
  let s := logger INFO ("Failed backups: " +:+ pretty failed_backups) s in
  let s := logger INFO ("Errors: " +:+ pretty (Z.of_nat (List.length (errors s)))) s in
  let s := logger INFO ("Warnings: " +:+ pretty (Z.of_nat (List.length (warnings s)))) s in
  let s := logger INFO (repeat_string "=" 60) s in
  match errors s, warnings s with
  | _ :: _, _ => _send_final_notification s
  | [], _ :: _ => if notify_on_warnings (cfg s) then _send_final_notification s else s
  | [], [] => s
  end.

(** The [try] block once the capacity check has let the run through:
    health checks, retry pass, enumeration, and the rest. *)
Definition after_preflight (w : world) (s : state) : state :=
  let s := logger INFO EmptyString s in
  let s := emit EvHealthCheck s in
  let s := match health_issues w with
           | [] => s
           | issues => warnings_extend issues s
           end in
  let '(s, (retry_success, retry_failed)) :=
    retry_failed_uploads (cloud w) (start_time w) s in
  let s := if 0 <? retry_success
           then logger INFO ("Successfully retried " +:+ pretty retry_success
                             +:+ " previously failed upload(s)") s
           else s in
  let s := logger INFO EmptyString s in
  let s := logger INFO "Getting list of databases to backup..." s in
  let s := emit EvGetDatabases s in
  let s := set_errors (errors s ++ databases_errors w) s in
  match databases w with
  | [] =>
      let error_msg := "No databases found or error listing databases" in
      let s := logger ERROR error_msg s in
      let s := logger ERROR "Cannot proceed with backup - exiting" s in
      let s := errors_append error_msg s in
      _send_final_notification s
  | dbs => backup_and_sweep w dbs s
  end.

(** The body of the [try] block. *)
Definition procedure_body (w : world) (s : state) : state :=
  let s := log_configuration s in
  match _check_disk_space (disk_usage w) MIN_DISK_SPACE_MB false s with
  | (s, false) =>
      let error_msg := "Insufficient disk space - backup aborted" in
      let s := logger ERROR error_msg s in
      let s := errors_append error_msg s in
      _send_final_notification s
  | (s, true) => after_preflight w s
  end.

Definition run_backup_procedure (w : world) (s : state) : state :=
  match _acquire_lock (lock_primary w) (lock_fallback w) s with
  | (s, false) =>
      logger ERROR "Could not acquire lock - another backup may be running" s
  | (s, true) =>
      let s := procedure_body w s in
      _release_lock s
  end.

(** A new process: [__init__] starts from empty lists and the ledger on
    disk; [main] runs the procedure and exits with 1 if an error was
    recorded. The log and the events of the new process start empty.
    This is the process whose constructor returns (the configuration is
    found, the directories can be made, [pg_user] is an identifier) and
    which nothing interrupts: the exits of the constructor and the two
    handlers of [main], all of status 1, are left out. *)
Definition new_process (s : state) : state :=
  mk_state (cfg s) [] [] (saved_uploads s) None None
           (saved_uploads s) (files s) (container s) [] [].

Definition main (w : world) (s : state) : state * Z :=
  let s := run_backup_procedure w (new_process s) in
  (s, match errors s with [] => 0 | _ :: _ => 1 end).

(** * The vocabulary of the properties, and sample inputs

    The statements below are written with these definitions: the decisions
    of the sweeps in the words of the specification, the sentences of the
    specification that the code does not satisfy, and the concrete states
    and worlds on which the statements are tried. *)

(** ** The shape of a name the date pattern matches *)

Module PatternShape.

Abbreviation digits l := (Forall (λ c, Text.is_digit c = true) l).

Definition suffix_lit : list ascii := list_ascii_of_string ".sql.gz".

(** The shape of a text the pattern matches from its first character:
    group 1 is [g]. *)
Definition shaped (l g : list ascii) : Prop :=
  ∃ a n tl,
    l = "_"%char :: g ++ "_"%char :: a ++ "_"%char :: n ++ suffix_lit ++ tl
    ∧ List.length g = 8%nat ∧ digits g
    ∧ List.length a = 6%nat ∧ digits a
    ∧ n ≠ [] ∧ digits n
    ∧ (tl = [] ∨ tl = ["010"%char]).

(** What follows the longest run of digits is not a digit. *)
Definition no_digit_ahead (r : list ascii) : Prop :=
  match r with
  | [] => True
  | c :: _ => Text.is_digit c = false
  end.

End PatternShape.

(** ** The decisions of the code, in the words of the specification *)

Definition replace_disallowed (c : ascii) : ascii :=
  if allowed_char c then c else "_"%char.

Definition BYTES_PER_MB : Z := 1024 * 1024.

(** The text recorded when space is short. *)
Definition insufficient_msg (free required_mb : Z) : string :=
  "Insufficient disk space: " +:+ format_2f (Qdiv (inject_Z free) (inject_Z (1024 * 1024)))
  +:+ " MB free, need at least " +:+ pretty required_mb +:+ " MB".

(** The exception a lock attempt ends with, if any. *)
Definition raised (a : lock_attempt) : option exn :=
  match a with
  | Locked => None
  | OpenRaises e | FlockRaises e => Some e
  end.

(** The entry a failed first attempt leaves: a new one with count 0, or
    the old one with its count raised by one. *)
Definition failure_entry (now : datetime) (backup_file : string) (prior : option entry) : entry :=
  match prior with
  | None => mk_entry backup_file now 0 now
  | Some e => mk_entry (file e) (first_failure e) (retry_count e + 1) now
  end.

(** What the sweep looks at for one path: its time on disk and its entry. *)
Definition view (s : state) (p : string) : option Z * option entry :=
  (files s !! p, failed_uploads s !! p).

(** The decision of the sweep for a path, in the words of the
    specification: a file that is neither in the ledger nor younger than
    the window goes; a file whose entry has reached the maximum goes with
    its entry; everything else stays. A failing [unlink] leaves both. *)
Definition local_verdict (unlink_raises : string → option exn) (cutoff : Z) (p : string)
    (v : option Z * option entry) : option Z * option entry :=
  match v with
  | (Some t, None) =>
      if (t <? cutoff) && bool_decide (unlink_raises p = None) then (None, None) else v
  | (Some t, Some e) =>
      if (MAX_UPLOAD_RETRIES <=? retry_count e) && bool_decide (unlink_raises p = None)
      then (None, None) else v
  | (None, _) => v
  end.

Definition is_artifact (p : string) : bool := in_glob BACKUP_DIR ".sql.gz" p.

(** The decision of the sweep for a blob name, in the words of the
    specification: the name matches the pattern, its eight digits are a
    date, and that date is strictly before the cutoff. *)
Definition blob_expired (cutoff : Z) (name : string) : Prop :=
  ∃ date_str blob_date,
    DatePattern.date_match name = Some date_str
    ∧ Calendar.strptime_Ymd date_str = Some blob_date
    ∧ Calendar.micros blob_date < cutoff.

Definition blob_expiredb (cutoff : Z) (name : string) : bool :=
  match DatePattern.date_match name with
  | Some date_str =>
      match Calendar.strptime_Ymd date_str with
      | Some blob_date => Calendar.micros blob_date <? cutoff
      | None => false
      end
  | None => false
  end.

(** A name parses when the pattern matches it and its eight digits are a
    date. *)
Definition parses (name : string) : Prop :=
  ∃ date_str blob_date,
    DatePattern.date_match name = Some date_str
    ∧ Calendar.strptime_Ymd date_str = Some blob_date.

(** The warning logged for a name that does not parse, and the one for a
    name the pattern does not match. *)
Definition skip_warning (name reason : string) : level * string :=
  (WARNING, "Could not parse date from blob name " +:+ name +:+ ": " +:+ reason).

Definition unparsable_warning (name : string) : level * string :=
  skip_warning name "expected format dbname_YYYYMMDD_HHMMSS_microseconds.sql.gz".

(** Every call the sweep needs is answered: the credentials are there,
    the key and the client are accepted, the listing and each deletion
    succeed. *)
Definition storage_answers (az : azure) (s : state) : Prop :=
  falsy (azure_account_name (cfg s)) = false
  ∧ falsy (azure_account_key (cfg s)) = false
  ∧ b64decode az = None
  ∧ from_connection_string az = None
  ∧ list_blobs az = None
  ∧ ∀ b, b ∈ container s → delete_blob az b = None.

(** The path [_release_lock] removes. *)
Definition held_path (s : state) : string := default LOCK_FILE (actual_lock_file s).

(** ** What a step leaves alone, and the events it adds *)

Global Instance event_eq_dec : EqDecision event.
Proof. solve_decision. Defined.

Global Instance level_eq_dec : EqDecision level.
Proof. solve_decision. Defined.

(** [s'] has the lock, the configuration and the local files of [s]. *)
Definition same_surroundings (s s' : state) : Prop :=
  lock_file s' = lock_file s ∧ actual_lock_file s' = actual_lock_file s
  ∧ cfg s' = cfg s ∧ files s' = files s.

(** From [s] to [s'] events were only added, all of them in [P]. *)
Definition adds_events (P : event → Prop) (s s' : state) : Prop :=
  ∃ evs, events s' = events s ++ evs ∧ Forall P evs.

(** The events of one upload attempt on [f]. *)
Definition upload_event (f : string) (is_retry : bool) (e : event) : Prop :=
  e = EvUpload f is_retry ∨ e = EvUploadBlob (path_name f).

Definition not_upload_of (f : string) (e : event) : Prop := ∀ r, e ≠ EvUpload f r.

Definition retry_pass_event (e : event) : Prop :=
  match e with
  | EvRetryPass | EvUpload _ true | EvUploadBlob _ => True
  | _ => False
  end.

(** The events of the stages after the lock, and of the release. *)
Definition beyond_lock (e : event) : Prop :=
  match e with
  | EvOpenLock _ | EvNotify _ => False
  | _ => True
  end.

(** ** Sample inputs *)

Definition quiet_config : config :=
  mk_config (Some "backupacct") (Some "a2V5") None false "postgres" "tcp" true None false false.

Definition empty_state : state :=
  mk_state quiet_config [] [] ∅ None None ∅ ∅ [] [] [].

Definition contention : exn :=
  mk_exn BlockingIOError "[Errno 11] Resource temporarily unavailable" None.

Definition denied : exn :=
  mk_exn PermissionError
         "[Errno 13] Permission denied: '/var/backups/pgbackup/pgbackup.lock'" None.

Definition probe_error : exn :=
  mk_exn OSError "[Errno 5] Input/output error: '/var/backups/pgbackup'" None.

Definition network_down : exn := mk_exn AzureError "Connection refused" None.

Definition azure_up : azure :=
  mk_azure None None None (λ _, None) None (λ _, None).

Definition azure_down : azure :=
  mk_azure None None None (λ _, Some network_down) None (λ _, None).

Definition plenty : exn + Z := inr (5000 * BYTES_PER_MB).

Definition night (d : Z) : datetime := mk_datetime 2024 6 d 2 0 0 17.

(** A world in which the lock is free and every tool answers; the fields
    that vary between the samples are its arguments. *)
Definition sample_world (primary : lock_attempt) (usage : exn + Z) (dbs : list string)
    (az : azure) (d : Z) : world :=
  mk_world primary Locked usage (λ _, plenty) [] dbs [] (λ _, []) (λ _, [])
           (λ _, None) (λ _, night d) az (λ _, None) (night d) (night d).

Definition sample_artifact : string :=
  "/var/backups/pgbackup/analytics_20240601_020000_000017.sql.gz".

(** A state in which [sample_artifact] is on disk and in the ledger with
    the given retry count. *)
Definition tracked_state (count : Z) : state :=
  let ledger : gmap string entry :=
    {[ sample_artifact := mk_entry sample_artifact (night 1) count (night 1) ]} in
  mk_state quiet_config [] [] ledger None None ledger
           {[ sample_artifact := Calendar.micros (night 1) ]} [] [] [].

(** Scenario D of the specification: a remote window of 365 days and
    "now" on 2024-06-01. *)
Definition scenario_D_state : state :=
  mk_state quiet_config [] [] ∅ None None ∅ ∅
           ["sales_20230101_120000_000001.sql.gz"; "malformed_backup.sql.gz"] [] [].

(** Scenario B of the specification: the uploads of [analytics] fail in
    every run. [after_runs n] is the state after the first [n] nightly
    runs, each a new process. *)
Fixpoint after_runs (n : nat) : state :=
  match n with
  | O => empty_state
  | S n' =>
      (main (sample_world Locked plenty ["analytics"] azure_down (Z.of_nat n))
            (after_runs n')).1
  end.

(** ** Sentences of the specification that the code does not satisfy *)

(** The sentence of the specification: after a failed first-attempt
    upload the entry has the count it had before (0 if it is new). *)
Definition keeps_prior_count (az : azure) (now : datetime) (f : string) (s : state) : Prop :=
  let r := upload_to_azure az now f false s in
  r.2 = false →
  ∃ e', failed_uploads r.1 !! f = Some e'
        ∧ retry_count e' = from_option retry_count 0 (failed_uploads s !! f).

(** The sentence of the specification for one run: the final
    notification is performed and the lock released. *)
Definition notifies_and_releases (w : world) (s : state) : Prop :=
  (∃ subject, EvNotify subject ∈ events (run_backup_procedure w s))
  ∧ (∃ path, EvReleaseLock path ∈ events (run_backup_procedure w s)).

(** ** What a stage of the run leaves alone *)

(** The events of the stages between the taking of the lock and the final
    notification. *)
Definition stage_event (e : event) : Prop :=
  match e with
  | EvOpenLock _ | EvReleaseLock _ | EvNotify _ => False
  | _ => True
  end.

(** From [s] to [s'] the guard and the configuration are untouched, the
    errors, the warnings, the log and the events only grow, and the new
    events are in [P]. *)
Definition advances (P : event → Prop) (s s' : state) : Prop :=
  lock_file s' = lock_file s ∧ actual_lock_file s' = actual_lock_file s ∧ cfg s' = cfg s
  ∧ adds_events P s s'
  ∧ (∃ es, errors s' = errors s ++ es)
  ∧ (∃ ws, warnings s' = warnings s ++ ws)
  ∧ (∃ l, log s' = log s ++ l).

(** The notification a run that holds the lock ends with, read off the
    lists it leaves. *)
Definition final_notification (s' : state) : list event :=
  match errors s', warnings s' with
  | _ :: _, _ => [EvNotify "PostgreSQL Backup FAILED"]
  | [], _ :: _ =>
      if notify_on_warnings (cfg s')
      then [EvNotify "PostgreSQL Backup COMPLETED WITH WARNINGS"] else []
  | [], [] => []
  end.

(** The error [upload_to_azure] records before it has a client: the
    credentials are missing, the key is not base64, or the client cannot be
    built. [None] when the client exists. *)
Definition setup_failure (az : azure) (s : state) : option string :=
  if falsy (azure_account_name (cfg s)) || falsy (azure_account_key (cfg s))
  then Some "Azure credentials not configured"
  else match b64decode az with
       | Some _ => Some "Azure account key validation failed"
       | None =>
           match from_connection_string az with
           | Some _ => Some "Azure client creation failed"
           | None => None
           end
       end.


(** A ledger whose only entry has outlived its file: the count is at the
    maximum and nothing is on disk. *)
Definition orphan_state : state :=
  let ledger : gmap string entry :=
    {[ sample_artifact := mk_entry sample_artifact (night 1) 3 (night 1) ]} in
  mk_state quiet_config [] [] ledger None None ledger ∅ [] [] [].

(** What the [try] block ends with: the notification, when the lists call
    for one. *)
Definition closing (s : state) : state :=
  match errors s, warnings s with
  | _ :: _, _ => _send_final_notification s
  | [], _ :: _ => if notify_on_warnings (cfg s) then _send_final_notification s else s
  | [], [] => s
  end.

(** The start of the day of [t]: what [strptime] makes of the date printed
    in an artifact name. *)
Definition midnight (t : datetime) : datetime :=
  mk_datetime (year t) (month t) (day t) 0 0 0 0.

(** The text [cleanup_old_backups_azure] records when the listing or a
    deletion raises [e]. *)
Definition cleanup_error (e : exn) : string := "Error during Azure cleanup: " +:+ exn_text e.

(** A store that lists and refuses every deletion, and a container with
    two blobs from 2020. *)
Definition azure_no_delete : azure :=
  mk_azure None None None (λ _, None) None (λ _, Some network_down).

(** A store whose deletion of the first of these blobs raises a
    [ValueError] and which deletes the second. *)
Definition azure_value_error : azure :=
  mk_azure None None None (λ _, None) None
    (λ b, if String.eqb b "sales_20200101_120000_000001.sql.gz"
          then Some (mk_exn ValueError "invalid blob reference" None) else None).

Definition two_old_blobs : state :=
  mk_state quiet_config [] [] ∅ None None ∅ ∅
           ["sales_20200101_120000_000001.sql.gz"; "sales_20200102_120000_000001.sql.gz"]
           [] [].

(** A backup directory with a dump left behind by an interrupted run and
    the lock file. *)
Definition leftover_dump : string := "/var/backups/pgbackup/tmp/tmpk3v9_2xa.sql".

Definition leftover_state : state :=
  mk_state quiet_config [] [] ∅ None None ∅
           {[ leftover_dump := Calendar.micros (night 1);
              LOCK_FILE := Calendar.micros (night 1) ]} [] [] [].

(** * The PostgreSQL side: identifiers, commands and what they answer *)

(** ** [_validate_identifier] *)

(** The classes [[a-zA-Z_]] and [[a-zA-Z0-9_$]]. *)
Definition identifier_start (c : ascii) : bool :=
  Text.in_range "a" "z" c || Text.in_range "A" "Z" c || Ascii.eqb c "_".

Definition identifier_char (c : ascii) : bool :=
  Text.in_range "a" "z" c || Text.in_range "A" "Z" c || Text.in_range "0" "9" c
  || Ascii.eqb c "_" || Ascii.eqb c "$".

(** [[a-zA-Z0-9_$]*] is greedy; what follows it in the pattern is the end
    anchor, which a character of the class can never satisfy, so the
    longest run is the only candidate. The result is what is left. *)
Fixpoint skip_identifier_chars (l : list ascii) : list ascii :=
  match l with
  | c :: t => if identifier_char c then skip_identifier_chars t else l
  | [] => []
  end.

(** [re.match(r'^[a-zA-Z_][a-zA-Z0-9_$]*$', identifier)] *)
Definition match_identifier (identifier : string) : bool :=
  match list_ascii_of_string identifier with
  | c :: t => identifier_start c && DatePattern.at_end (skip_identifier_chars t)
  | [] => false
  end.

Definition _validate_identifier (identifier identifier_type : string) (s : state)
    : state * bool :=
  if String.eqb identifier EmptyString then (s, false)
  else if negb (match_identifier identifier) then
    (logger ERROR ("Invalid " +:+ identifier_type +:+ ": '" +:+ identifier
                   +:+ "' - contains invalid characters") s, false)
  else if (63 <? String.length identifier)%nat then
    (logger ERROR ("Invalid " +:+ identifier_type +:+ ": '" +:+ identifier
                   +:+ "' - too long (max 63 characters)") s, false)
  else (s, true).

(** ** [_build_pg_connection_args] *)

(** The result is the state and either the exception raised or the list
    returned. [database] is [None] when the argument is left out. *)
Definition _build_pg_connection_args (user : string) (database : option string) (s : state)
    : state * (exn + list string) :=
  match _validate_identifier user "PostgreSQL username" s with
  | (s, false) => (s, inl (mk_exn ValueError ("Invalid PostgreSQL username: " +:+ user) None))
  | (s, true) =>
      let checked :=
        if negb (falsy database)
        then _validate_identifier (default EmptyString database) "database name" s
        else (s, true) in
      match checked with
      | (s, false) =>
          (s, inl (mk_exn ValueError
                          ("Invalid database name: " +:+ default EmptyString database) None))
      | (s, true) =>
          let args := [] in
          let args :=
            if String.eqb (pg_connection_method (cfg s)) "unix_socket"
            then args ++ ["-U"; user]
            else args ++ ["-h"; "localhost"; "-U"; user] in
          let args :=
            if negb (falsy database)
            then args ++ ["-d"; default EmptyString database] else args in
          (s, inr args)
      end
  end.

(** ** The tools and their environment *)

(** The keys of [self.config] only the PostgreSQL side reads. *)
Record pg_options := mk_pg_options {
  skip_databases : option (list string);
  reindex_after_backup : bool;
  PGPASSWORD : option string
}.

(** What [subprocess.run] does with a command: it returns a completed
    process, or raises [TimeoutExpired] (kept with its text), or raises
    something else. *)
Inductive run_result :=
| Completed (returncode : Z) (stdout stderr : string)
| TimeoutExpired (text : string)
| Raised (e : exn).

(** [os.environ], and the answer to a command run with a timeout (in
    seconds) and an environment. *)
Record tools := mk_tools {
  environ : gmap string string;
  run : list string → Z → gmap string string → run_result
}.

Definition _build_pg_env (o : pg_options) (t : tools) (user : string) (s : state)
    : state * gmap string string :=
  let env := <["PGUSER" := user]> (environ t) in
  match PGPASSWORD o with
  | Some password =>
      let env := <["PGPASSWORD" := password]> env in
      let s := logger DEBUG "Using PGPASSWORD from config (less secure than .pgpass file)" s in
      (s, env)
  | None => (s, env)
  end.

(** ** Pieces of [str] the listing is parsed with *)

(** [c.isspace()] on code points below 256. *)
Definition is_space (c : ascii) : bool :=
  let n := N_of_ascii c in
  ((9 <=? n) && (n <=? 13) || (28 <=? n) && (n <=? 32) || (n =? 133) || (n =? 160))%N.

Fixpoint lstrip (x : string) : string :=
  match x with
  | EmptyString => EmptyString
  | String c t => if is_space c then lstrip t else x
  end.

Definition rstrip (x : string) : string := String.rev (lstrip (String.rev x)).

(** [x.strip()] *)
Definition strip (x : string) : string := rstrip (lstrip x).

(** [x.split(sep)] for a separator of one character. *)
Fixpoint str_split (sep : ascii) (x : string) : list string :=
  match x with
  | EmptyString => [EmptyString]
  | String c t =>
      if Ascii.eqb c sep then EmptyString :: str_split sep t
      else match str_split sep t with
           | piece :: rest => String c piece :: rest
           | [] => [String c EmptyString]
           end
  end.

(** ["password" in stderr.lower() or "authentication" in stderr.lower()]:
    the test every error text of the PostgreSQL side goes through before it
    quotes what the tool printed. *)
Definition mentions_credentials (stderr : string) : bool :=
  Text.contains "password" (lower stderr) || Text.contains "authentication" (lower stderr).

(** ** [get_databases] *)

(** The text recorded when the listing fails with a message about
    credentials: advice, and nothing of what the tool printed. *)
Definition authentication_advice (s : state) : string :=
  let error_msg := "Failed to list databases" in
  let error_msg := error_msg +:+ " (authentication failed)" in
  let error_msg := error_msg +:+ String "010" "  → Check PostgreSQL authentication setup:" in
  if String.eqb (pg_connection_method (cfg s)) "tcp" then
    let error_msg := error_msg +:+ String "010" "    - Verify .pgpass file exists: /root/.pgpass" in
    let error_msg := error_msg +:+ String "010" "    - Format: localhost:5432:*:"
                     +:+ pg_user (cfg s) +:+ ":PASSWORD" in
    error_msg +:+ String "010" "    - Run: bash setup_pg_auth.sh (or see CREATE_BACKUP_USER.md)"
  else
    let error_msg := error_msg
                     +:+ String "010" "    - For Unix socket: script must run as PostgreSQL user" in
    error_msg +:+ String "010" "    - Or configure peer authentication in pg_hba.conf".

(** The body of the loop over the lines of the listing. *)
Definition parse_database_line (skip_dbs : list string) (acc : state * list string)
    (line : string) : state * list string :=
  let '(s, databases) := acc in
  let line := strip line in
  if negb (String.eqb line EmptyString) && Text.has_char "|" line then
    let db_name := strip (hd EmptyString (str_split "|" line)) in
    if negb (String.eqb db_name EmptyString) && negb (bool_decide (db_name ∈ skip_dbs)) then
      match _validate_identifier db_name "database name" s with
      | (s, true) => (s, databases ++ [db_name])
      | (s, false) => (logger WARNING ("Skipping invalid database name: " +:+ db_name) s, databases)
      end
    else (s, databases)
  else (s, databases).

Definition get_databases (o : pg_options) (t : tools) (s : state) : state * list string :=
  let failed (text : string) (s : state) : state * list string :=
    let s := logger ERROR text s in
    let s := errors_append text s in
    (s, []) in
  match _build_pg_connection_args (pg_user (cfg s)) None s with
  | (s, inl e) => failed ("Error listing databases: " +:+ exn_text e) s
  | (s, inr args) =>
      let '(s, env) := _build_pg_env o t (pg_user (cfg s)) s in
      match run t ("psql" :: args ++ ["-l"; "-t"]) 30 env with
      | Completed returncode stdout stderr =>
          if negb (returncode =? 0) then
            let error_msg :=
              if mentions_credentials stderr then authentication_advice s
              else "Failed to list databases" +:+ ": " +:+ stderr in
            failed error_msg s
          else
            let skip_dbs := default ["template0"; "template1"] (skip_databases o) in
            let '(s, databases) :=
              foldl (parse_database_line skip_dbs) (s, []) (str_split "010" stdout) in
            let s := logger INFO ("Found " +:+ pretty (List.length databases)
                                  +:+ " databases to backup: " +:+ Text.join ", " databases) s in
            (s, databases)
      | TimeoutExpired _ => failed "Timeout while listing databases" s
      | Raised e => failed ("Error listing databases: " +:+ exn_text e) s
      end
  end.

(** ** The two maintenance methods *)

(** [error_msg], with what the tool printed cut to 200 characters, unless
    it mentions credentials. *)
Definition with_stderr (error_msg stderr : string) : string :=
  if negb (Text.contains "password" (lower stderr))
     && negb (Text.contains "authentication" (lower stderr))
  then error_msg +:+ ": " +:+ Text.take 200 stderr
  else error_msg.

(** The user the maintenance commands run as: the configured one, or the
    backup user when the configured one is no identifier. *)
Definition maintenance_user_of (s : state) : state * string :=
  let maintenance_user := default (pg_user (cfg s)) (pg_maintenance_user (cfg s)) in
  match _validate_identifier maintenance_user "maintenance username" s with
  | (s, true) => (s, maintenance_user)
  | (s, false) =>
      let s := logger ERROR ("Invalid maintenance username in config: " +:+ maintenance_user) s in
      let maintenance_user := pg_user (cfg s) in
      let s := logger WARNING ("Using backup user '" +:+ maintenance_user
                               +:+ "' for maintenance operations") s in
      (s, maintenance_user)
  end.

(** The first [try] block of [perform_pre_backup_maintenance]: the state
    and [maintenance_errors] after it. *)
Definition pre_backup_vacuum (t : tools) (db_name maintenance_user : string)
    (env : gmap string string) (s : state) : state * list string :=
  let maintenance_errors : list string := [] in
  let s := logger INFO ("Running VACUUM ANALYZE on " +:+ db_name +:+ " as "
                        +:+ maintenance_user +:+ "...") s in
  let raised (text : string) (s : state) :=
    (logger WARNING ("Error running VACUUM ANALYZE for " +:+ db_name +:+ ": " +:+ text) s,
     maintenance_errors ++ ["VACUUM ANALYZE error for " +:+ db_name +:+ ": " +:+ text]) in
  match _build_pg_connection_args maintenance_user (Some db_name) s with
  | (s, inl e) => raised (exn_text e) s
  | (s, inr args) =>
      match run t ("psql" :: args ++ ["-c"; "VACUUM ANALYZE;"]) 3600 env with
      | Completed returncode _ stderr =>
          if negb (returncode =? 0) then
            let error_msg := with_stderr ("VACUUM ANALYZE failed for " +:+ db_name) stderr in
            (logger ERROR error_msg s, maintenance_errors ++ [error_msg])
          else (logger INFO ("VACUUM ANALYZE completed for " +:+ db_name) s,
                maintenance_errors)
      | TimeoutExpired _ =>
          (logger WARNING ("VACUUM ANALYZE timed out for " +:+ db_name
                           +:+ " - continuing with backup") s,
           maintenance_errors ++ ["VACUUM ANALYZE timeout for " +:+ db_name])
      | Raised e => raised (exn_text e) s
      end
  end.

(** The second [try] block: nothing it meets goes further than the log. *)
Definition pre_backup_checkpoint (t : tools) (db_name maintenance_user : string)
    (env : gmap string string) (s : state) : state :=
  let s := logger INFO ("Running CHECKPOINT for " +:+ db_name +:+ " as "
                        +:+ maintenance_user +:+ "...") s in
  let raised (text : string) (s : state) :=
    logger WARNING ("Error running CHECKPOINT for " +:+ db_name +:+ ": " +:+ text) s in
  match _build_pg_connection_args maintenance_user (Some db_name) s with
  | (s, inl e) => raised (exn_text e) s
  | (s, inr args) =>
      match run t ("psql" :: args ++ ["-c"; "CHECKPOINT;"]) 300 env with
      | Completed returncode _ stderr =>
          if negb (returncode =? 0) then
            logger WARNING (with_stderr ("CHECKPOINT failed for " +:+ db_name) stderr) s
          else logger INFO ("CHECKPOINT completed for " +:+ db_name) s
      | TimeoutExpired text => raised text s
      | Raised e => raised (exn_text e) s
      end
  end.

Definition perform_pre_backup_maintenance (o : pg_options) (t : tools) (db_name : string)
    (s : state) : state * bool :=
  let s := logger INFO ("Performing pre-backup maintenance for database: " +:+ db_name) s in
  if negb (run_maintenance (cfg s)) then
    (logger INFO "Maintenance operations disabled in config" s, true)
  else
    let '(s, maintenance_user) := maintenance_user_of s in
    let '(s, env) := _build_pg_env o t maintenance_user s in
    let '(s, maintenance_errors) := pre_backup_vacuum t db_name maintenance_user env s in
    let s := pre_backup_checkpoint t db_name maintenance_user env s in
    match maintenance_errors with
    | _ :: _ => (warnings_extend maintenance_errors s, false)
    | [] => (s, true)
    end.

Definition perform_post_backup_maintenance (o : pg_options) (t : tools) (db_name : string)
    (s : state) : state * bool :=
  let s := logger INFO ("Performing post-backup maintenance for database: " +:+ db_name) s in
  if negb (run_post_backup_maintenance (cfg s)) then
    (logger DEBUG "Post-backup maintenance disabled in config" s, true)
  else
    let '(s, maintenance_user) := maintenance_user_of s in
    let '(s, env) := _build_pg_env o t maintenance_user s in
    if reindex_after_backup o then
      match _validate_identifier db_name "database name" s with
      | (s, false) =>
          let error_msg := "Invalid database name for REINDEX: " +:+ db_name in
          let s := logger ERROR error_msg s in
          (warnings_append error_msg s, false)
      | (s, true) =>
          let s := logger INFO ("Running REINDEX for " +:+ db_name +:+ " as "
                                +:+ maintenance_user +:+ "...") s in
          let raised (text : string) (s : state) :=
            let s := logger WARNING ("Error running REINDEX for " +:+ db_name
                                     +:+ ": " +:+ text) s in
            warnings_append ("REINDEX error for " +:+ db_name +:+ ": " +:+ text) s in
          let quoted_db_name := String "034" db_name +:+ String "034" EmptyString in
          let s :=
            match _build_pg_connection_args maintenance_user (Some db_name) s with
            | (s, inl e) => raised (exn_text e) s
            | (s, inr args) =>
                match run t ("psql" :: args
                             ++ ["-c"; "REINDEX DATABASE " +:+ quoted_db_name +:+ ";"])
                          7200 env with
                | Completed returncode _ stderr =>
                    if negb (returncode =? 0) then
                      let error_msg := with_stderr ("REINDEX failed for " +:+ db_name) stderr in
                      let s := logger WARNING error_msg s in
                      warnings_append error_msg s
                    else logger INFO ("REINDEX completed for " +:+ db_name) s
                | TimeoutExpired text => raised text s
                | Raised e => raised (exn_text e) s
                end
            end in
          (s, true)
      end
    else (s, true).

(** From [s] to [s'] only log records were written. *)
Definition only_logs (s s' : state) : Prop := ∃ l, s' = set_log (log s ++ l) s.

(** A listing as [psql -l -t] prints it, and tools that answer every
    command with it. *)
Definition sample_listing : string :=
  " sales     | postgres | UTF8     | C.UTF-8 | C.UTF-8 | " +:+ String "010"
  " template0 | postgres | UTF8     | C.UTF-8 | C.UTF-8 | =c/postgres          +" +:+ String "010"
  "           |          |          |         |         | postgres=CTc/postgres" +:+ String "010"
  " my-app    | postgres | UTF8     | C.UTF-8 | C.UTF-8 | " +:+ String "010"
  " hr_2024   | postgres | UTF8     | C.UTF-8 | C.UTF-8 | " +:+ String "010"
  EmptyString.

Definition listing_tools : tools :=
  mk_tools ∅ (λ _ _ _, Completed 0 sample_listing EmptyString).

(** Tools whose every command fails with a complaint about the password. *)
Definition refused_tools : tools :=
  mk_tools ∅ (λ _ _ _, Completed 2 EmptyString
    "psql: error: FATAL:  Password authentication failed for user backup").

Definition default_options : pg_options := mk_pg_options None false None.

(** The answer of [_validate_identifier]: it depends neither on the state
    nor on the kind of identifier named in the log. *)
Definition accepted (identifier : string) : bool :=
  negb (String.eqb identifier EmptyString) && match_identifier identifier
  && negb (63 <? String.length identifier)%nat.

(** The arguments that select the connection: none for the Unix socket,
    the host for everything else. *)
Definition connection_flags (s : state) : list string :=
  if String.eqb (pg_connection_method (cfg s)) "unix_socket" then [] else ["-h"; "localhost"].

(** Tools that refuse the commands run with the one-hour timeout as
    [refused_tools] does and complete every other command. *)
Definition vacuum_refused_tools : tools :=
  mk_tools ∅ (λ cmd timeout env,
    if timeout =? 3600 then run refused_tools cmd timeout env
    else Completed 0 EmptyString EmptyString).

(** * Properties *)

(** ** Text *)

Lemma take_length n s : String.length (Text.take n s) = Nat.min n (String.length s).
Proof.
  unfold Text.take. revert s. induction n as [|n IH]; intros [|c s]; simpl; auto.
Qed.

Lemma take_get n s i :
  String.get i (Text.take n s) = if (i <? n)%nat then String.get i s else None.
Proof.
  unfold Text.take. revert s i. induction n as [|n IH]; intros [|c s] i; simpl.
  - reflexivity.
  - reflexivity.
  - by destruct (i <? S n)%nat.
  - destruct i as [|i]; [reflexivity|]. rewrite IH. reflexivity.
Qed.

Lemma has_char_get c s : Text.has_char c s = true → ∃ i, String.get i s = Some c.
Proof.
  induction s as [|d s IH]; simpl; [discriminate|].
  destruct (Ascii.eqb_spec c d) as [->|_].
  - intros _. by exists 0%nat.
  - intros H. destruct (IH H) as [i Hi]. by exists (S i).
Qed.

(** ** The sanitizer *)

Lemma replace_disallowed_allowed c : allowed_char (replace_disallowed c) = true.
Proof. unfold replace_disallowed. destruct (allowed_char c) eqn:E; [exact E | reflexivity]. Qed.

Lemma re_sub_disallowed_get name i :
  String.get i (re_sub_disallowed name) = replace_disallowed <$> String.get i name.
Proof.
  revert i. induction name as [|c t IH]; intros [|i]; simpl; try reflexivity. apply IH.
Qed.

Lemma sanitize_get name i :
  String.get i (_sanitize_filename name)
  = if (i <? 50)%nat then replace_disallowed <$> String.get i name else None.
Proof. unfold _sanitize_filename. rewrite take_get, re_sub_disallowed_get. reflexivity. Qed.

Lemma sanitize_allowed name i c :
  String.get i (_sanitize_filename name) = Some c → allowed_char c = true.
Proof.
  rewrite sanitize_get. destruct (i <? 50)%nat; [|discriminate].
  destruct (String.get i name); simpl; [|discriminate].
  intros [= <-]. apply replace_disallowed_allowed.
Qed.

Lemma sanitize_has_char c name :
  allowed_char c = false → Text.has_char c (_sanitize_filename name) = false.
Proof.
  intros Hc. destruct (Text.has_char c _) eqn:E; [|reflexivity].
  apply has_char_get in E as [i Hi]. apply sanitize_allowed in Hi. congruence.
Qed.

(** C10. For every input string the sanitizer returns at most 50
    characters, each of them an ASCII letter, a digit, an underscore or a
    hyphen: position by position it is the input character when that one is
    allowed and an underscore otherwise, cut after the 50th. So no slash and
    no dot can occur in the result. *)
Theorem sanitize_filename_safe (name : string) :
  (String.length (_sanitize_filename name) ≤ 50)%nat
  ∧ String.length (_sanitize_filename name) = Nat.min 50 (String.length name)
  ∧ (∀ i c, String.get i (_sanitize_filename name) = Some c → allowed_char c = true)
  ∧ (∀ i, (i < 50)%nat →
       String.get i (_sanitize_filename name)
       = (λ c, if allowed_char c then c else "_"%char) <$> String.get i name)
  ∧ Text.has_char "/" (_sanitize_filename name) = false
  ∧ Text.has_char "." (_sanitize_filename name) = false.
Proof.
  assert (Hlen : String.length (_sanitize_filename name) = Nat.min 50 (String.length name)).
  { unfold _sanitize_filename. rewrite take_length. f_equal.
    induction name as [|c t IH]; simpl; congruence. }
  split; [lia|]. split; [exact Hlen|]. split; [apply sanitize_allowed|].
  split.
  - intros i Hi. rewrite sanitize_get.
    apply Nat.ltb_lt in Hi. rewrite Hi. reflexivity.
  - split; by apply sanitize_has_char.
Qed.

(** ** Fixed-width decimal fields *)

Lemma digit_char_is_digit n : Text.is_digit (Text.digit_char (n mod 10)) = true.
Proof.
  pose proof (Z.mod_pos_bound n 10 eq_refl) as H.
  generalize dependent (n mod 10). intros k H.
  assert (E : k ∈ [0; 1; 2; 3; 4; 5; 6; 7; 8; 9]).
  { rewrite !elem_of_cons, elem_of_nil. lia. }
  repeat (apply elem_of_cons in E as [-> | E]; [reflexivity|]).
  by apply elem_of_nil in E.
Qed.

Lemma digit_char_val n : Text.digit_val (Text.digit_char (n mod 10)) = n mod 10.
Proof.
  pose proof (Z.mod_pos_bound n 10 eq_refl) as H.
  generalize dependent (n mod 10). intros k H.
  assert (E : k ∈ [0; 1; 2; 3; 4; 5; 6; 7; 8; 9]).
  { rewrite !elem_of_cons, elem_of_nil. lia. }
  repeat (apply elem_of_cons in E as [-> | E]; [reflexivity|]).
  by apply elem_of_nil in E.
Qed.

Lemma digits_fixed_length w n : List.length (Text.digits_fixed w n) = w.
Proof.
  revert n. induction w as [|w IH]; intros n; simpl; [reflexivity|].
  rewrite length_app, IH. simpl. lia.
Qed.

Lemma digits_fixed_digits w n : Forall (λ c, Text.is_digit c = true) (Text.digits_fixed w n).
Proof.
  revert n. induction w as [|w IH]; intros n; simpl; [constructor|].
  apply Forall_app. split; [apply IH|].
  constructor; [apply digit_char_is_digit | constructor].
Qed.

Lemma int_of_digits_snoc l c :
  Text.int_of_digits (l ++ [c]) = Text.int_of_digits l * 10 + Text.digit_val c.
Proof. unfold Text.int_of_digits. rewrite fold_left_app. reflexivity. Qed.

Lemma int_of_digits_fixed w n :
  Text.int_of_digits (Text.digits_fixed w n) = n mod 10 ^ Z.of_nat w.
Proof.
  revert n. induction w as [|w IH]; intros n.
  - simpl. rewrite Z.mod_1_r. reflexivity.
  - cbn [Text.digits_fixed]. rewrite int_of_digits_snoc, IH, digit_char_val.
    rewrite Nat2Z.inj_succ, Z.pow_succ_r by lia.
    rewrite Z.rem_mul_r; [lia | lia | apply Z.pow_pos_nonneg; lia].
Qed.

Lemma int_of_digits_fixed_small w n :
  0 ≤ n < 10 ^ Z.of_nat w → Text.int_of_digits (Text.digits_fixed w n) = n.
Proof. intros H. rewrite int_of_digits_fixed. apply Z.mod_small. exact H. Qed.

(** ** The date pattern *)

Module PatternFacts.
Import DatePattern PatternShape.

Lemma expect_Some c l r : expect c l = Some r ↔ l = c :: r.
Proof.
  destruct l as [|d t]; simpl; [split; discriminate|].
  destruct (Ascii.eqb_spec c d) as [-> | Hne]; split; intros H; congruence.
Qed.

Lemma expect_cons c r : expect c (c :: r) = Some r.
Proof. by apply expect_Some. Qed.

Lemma expect_all_Some lit l r : expect_all lit l = Some r ↔ l = lit ++ r.
Proof.
  revert l. induction lit as [|c lit IH]; intros l; simpl.
  - split; congruence.
  - destruct (expect c l) as [l'|] eqn:E; simpl.
    + apply expect_Some in E as ->. rewrite IH. split; congruence.
    + split; [discriminate|]. intros ->. simpl in E.
      rewrite Ascii.eqb_refl in E. discriminate.
Qed.

Lemma take_digits_Some n l ds r :
  take_digits n l = Some (ds, r) ↔ l = ds ++ r ∧ List.length ds = n ∧ digits ds.
Proof.
  revert l ds r. induction n as [|n IH]; intros l ds r; simpl.
  - split.
    + intros [= <- <-]. repeat split. constructor.
    + intros (-> & Hlen & _). destruct ds; [reflexivity | discriminate].
  - destruct l as [|c t].
    + split; [discriminate|]. intros (H & Hlen & _).
      destruct ds; [discriminate | discriminate].
    + destruct (Text.is_digit c) eqn:Hc.
      * destruct (take_digits n t) as [[ds' r']|] eqn:E; simpl.
        -- apply IH in E as (-> & Hlen & Hd). split.
           ++ intros [= <- <-]. repeat split; simpl; [congruence|]. by constructor.
           ++ intros (H & Hlen' & Hd'). destruct ds as [|c' ds]; [discriminate|].
              simpl in H. injection H as <- H. injection Hlen' as Hlen'.
              inversion Hd'; subst.
              assert (ds' = ds ∧ r' = r) as [-> ->]; [|reflexivity].
              apply app_inj_1; [congruence | exact H].
        -- split; [discriminate|]. intros (H & Hlen' & Hd').
           destruct ds as [|c' ds]; [discriminate|].
           simpl in H. injection H as <- H. injection Hlen' as Hlen'.
           inversion Hd'; subst.
           assert (take_digits (List.length ds) (ds ++ r) = Some (ds, r)) as E'
             by (apply IH; auto).
           congruence.
      * split; [discriminate|]. intros (H & Hlen & Hd).
        destruct ds as [|c' ds]; [discriminate|].
        simpl in H. injection H as <- H. inversion Hd; subst. congruence.
Qed.

Lemma span_digits_spec l ds r :
  span_digits l = (ds, r) ↔ l = ds ++ r ∧ digits ds ∧ no_digit_ahead r.
Proof.
  revert ds r. induction l as [|c t IH]; intros ds r; simpl.
  - split.
    + intros [= <- <-]. repeat split. constructor.
    + intros (H & _ & _). symmetry in H. apply app_eq_nil in H as [-> ->]. reflexivity.
  - destruct (Text.is_digit c) eqn:Hc.
    + destruct (span_digits t) as [ds' r'] eqn:E.
      destruct (proj1 (IH ds' r') eq_refl) as (-> & Hd & Hr). split.
      * intros [= <- <-]. repeat split; auto.
      * intros (H & Hd' & Hr'). destruct ds as [|c' ds].
        -- simpl in H. subst r. simpl in Hr'. congruence.
        -- simpl in H. injection H as <- H. inversion Hd'; subst.
           assert ((ds', r') = (ds, r)) as E' by (apply IH; auto).
           congruence.
    + split.
      * intros [= <- <-]. repeat split; [constructor | exact Hc].
      * intros (H & Hd & Hr). destruct ds as [|c' ds].
        -- simpl in H. congruence.
        -- simpl in H. injection H as <- H. inversion Hd; subst. congruence.
Qed.

Lemma at_end_spec l : at_end l = true ↔ l = [] ∨ l = ["010"%char].
Proof.
  destruct l as [|c [|d t]]; simpl.
  - split; auto.
  - destruct (Ascii.eqb_spec c "010"%char) as [-> | Hne]; split; auto.
    + discriminate.
    + intros [H|H]; congruence.
  - split; [discriminate|]. intros [H|H]; discriminate.
Qed.

#[local] Arguments take_digits : simpl never.
#[local] Arguments span_digits : simpl never.
#[local] Arguments expect : simpl never.
#[local] Arguments expect_all : simpl never.
#[local] Arguments at_end : simpl never.

Lemma match_here_shaped l g : match_here l = Some g ↔ shaped l g.
Proof.
  unfold match_here, shaped. split.
  - intros H.
    destruct (expect "_" l) as [l1|] eqn:E1; simpl in H; [|discriminate].
    apply expect_Some in E1 as ->.
    destruct (take_digits 8 l1) as [[g' l2]|] eqn:E2; simpl in H; [|discriminate].
    apply take_digits_Some in E2 as (-> & Hg & Hgd).
    destruct (expect "_" l2) as [l3|] eqn:E3; simpl in H; [|discriminate].
    apply expect_Some in E3 as ->.
    destruct (take_digits 6 l3) as [[a l4]|] eqn:E4; simpl in H; [|discriminate].
    apply take_digits_Some in E4 as (-> & Ha & Had).
    destruct (expect "_" l4) as [l5|] eqn:E5; simpl in H; [|discriminate].
    apply expect_Some in E5 as ->.
    destruct (span_digits l5) as [ds l6] eqn:E6.
    apply span_digits_spec in E6 as (-> & Hn & _).
    destruct ds as [|c ds]; [discriminate|].
    destruct (expect_all _ l6) as [l7|] eqn:E7; simpl in H; [|discriminate].
    apply expect_all_Some in E7 as ->.
    destruct (at_end l7) eqn:E8; [|discriminate].
    apply at_end_spec in E8. injection H as ->.
    exists a, (c :: ds), l7. repeat split; auto.
  - intros (a & n & tl & -> & Hg & Hgd & Ha & Had & Hn & Hnd & Htl).
    rewrite expect_cons. cbn [mbind option_bind].
    assert (E2 : take_digits 8 (g ++ "_"%char :: a ++ "_"%char :: n ++ suffix_lit ++ tl)
                 = Some (g, "_"%char :: a ++ "_"%char :: n ++ suffix_lit ++ tl))
      by (apply take_digits_Some; auto).
    rewrite E2. cbn [mbind option_bind]. rewrite expect_cons. cbn [mbind option_bind].
    assert (E4 : take_digits 6 (a ++ "_"%char :: n ++ suffix_lit ++ tl)
                 = Some (a, "_"%char :: n ++ suffix_lit ++ tl))
      by (apply take_digits_Some; auto).
    rewrite E4. cbn [mbind option_bind]. rewrite expect_cons. cbn [mbind option_bind].
    assert (E6 : span_digits (n ++ suffix_lit ++ tl) = (n, suffix_lit ++ tl))
      by (apply span_digits_spec; repeat split; auto).
    rewrite E6. destruct n as [|c n]; [congruence|].
    assert (E7 : expect_all (list_ascii_of_string ".sql.gz") (suffix_lit ++ tl) = Some tl)
      by (apply expect_all_Some; reflexivity).
    rewrite E7. cbn [mbind option_bind].
    apply at_end_spec in Htl. rewrite Htl. reflexivity.
Qed.

Lemma match_here_nil : match_here [] = None.
Proof. reflexivity. Qed.

Lemma search_Some l g :
  search l = Some g → ∃ pre t, l = pre ++ t ∧ match_here t = Some g.
Proof.
  induction l as [|c t IH]; cbn [search].
  - rewrite match_here_nil. discriminate.
  - destruct (match_here (c :: t)) as [g'|] eqn:E.
    + intros [= ->]. by exists [], (c :: t).
    + intros H. destruct (IH H) as (pre & t' & -> & Hm). by exists (c :: pre), t'.
Qed.

Lemma search_None l :
  search l = None ↔ ∀ pre t, l = pre ++ t → match_here t = None.
Proof.
  induction l as [|c t IH]; cbn [search].
  - rewrite match_here_nil. split; [|reflexivity].
    intros _ pre t Ht. symmetry in Ht. apply app_eq_nil in Ht as [-> ->].
    apply match_here_nil.
  - destruct (match_here (c :: t)) as [g'|] eqn:E.
    + split; [discriminate|]. intros H. rewrite (H [] (c :: t) eq_refl) in E. discriminate.
    + rewrite IH. split.
      * intros H [|c' pre] t' Ht; simpl in Ht.
        -- subst t'. exact E.
        -- injection Ht as -> ->. by apply (H pre).
      * intros H pre t' ->. by apply (H (c :: pre)).
Qed.

(** A digit run closed by a separator is found again from the right. *)
Lemma last_separator c (x1 x2 n1 n2 : list ascii) :
  Text.is_digit c = false → digits n1 → digits n2 →
  x1 ++ c :: n1 = x2 ++ c :: n2 → x1 = x2 ∧ n1 = n2.
Proof.
  intros Hc H1 H2. revert x2. induction x1 as [|a x1 IH]; intros [|b x2] H; simpl in H.
  - injection H as ->. auto.
  - injection H as <- ->. apply Forall_app in H1 as [_ H1]. inversion H1; congruence.
  - injection H as -> <-. apply Forall_app in H2 as [_ H2]. inversion H2; congruence.
  - injection H as -> H. destruct (IH _ H) as [-> ->]. auto.
Qed.

Lemma suffix_tail_inj (x1 x2 tl1 tl2 : list ascii) :
  (tl1 = [] ∨ tl1 = ["010"%char]) → (tl2 = [] ∨ tl2 = ["010"%char]) →
  x1 ++ suffix_lit ++ tl1 = x2 ++ suffix_lit ++ tl2 → x1 = x2 ∧ tl1 = tl2.
Proof.
  intros [-> | ->] [-> | ->] H.
  - rewrite !app_nil_r in H. apply app_inj_2 in H as [-> _]; auto.
  - exfalso. apply (f_equal (@rev ascii)) in H.
    rewrite !rev_app_distr in H. simpl in H. discriminate.
  - exfalso. apply (f_equal (@rev ascii)) in H.
    rewrite !rev_app_distr in H. simpl in H. discriminate.
  - apply app_inj_2 in H as [-> _]; auto.
Qed.

(** However a text is cut, the pattern can match only one tail of it,
    with only one group. *)
Lemma shaped_unique pre1 pre2 t1 t2 g1 g2 :
  pre1 ++ t1 = pre2 ++ t2 → shaped t1 g1 → shaped t2 g2 → g1 = g2.
Proof.
  intros H (a1 & n1 & tl1 & -> & Hg1 & Hgd1 & Ha1 & Had1 & _ & Hnd1 & Htl1)
           (a2 & n2 & tl2 & -> & Hg2 & Hgd2 & Ha2 & Had2 & _ & Hnd2 & Htl2).
  assert (H' : (pre1 ++ "_"%char :: g1 ++ "_"%char :: a1 ++ "_"%char :: n1) ++ suffix_lit ++ tl1
             = (pre2 ++ "_"%char :: g2 ++ "_"%char :: a2 ++ "_"%char :: n2) ++ suffix_lit ++ tl2).
  { repeat (rewrite <- ?app_assoc; simpl). exact H. }
  apply suffix_tail_inj in H' as [H' _]; auto.
  assert (H2 : (pre1 ++ "_"%char :: g1 ++ "_"%char :: a1) ++ "_"%char :: n1
             = (pre2 ++ "_"%char :: g2 ++ "_"%char :: a2) ++ "_"%char :: n2).
  { repeat (rewrite <- ?app_assoc; simpl). exact H'. }
  apply last_separator in H2 as [H2 _]; auto.
  assert (H3 : (pre1 ++ "_"%char :: g1) ++ "_"%char :: a1
             = (pre2 ++ "_"%char :: g2) ++ "_"%char :: a2).
  { repeat (rewrite <- ?app_assoc; simpl). exact H2. }
  apply app_inj_2 in H3 as [H3 _]; [|simpl; congruence].
  apply app_inj_2 in H3 as [_ H3]; [|simpl; congruence].
  congruence.
Qed.

(** [re.search] finds the group of the one tail that has the shape. *)
Lemma search_shaped pre t g : shaped t g → search (pre ++ t) = Some g.
Proof.
  intros Hs. destruct (search (pre ++ t)) as [g'|] eqn:E.
  - apply search_Some in E as (pre' & t' & Heq & Hm).
    apply match_here_shaped in Hm. f_equal.
    exact (shaped_unique _ _ _ _ _ _ (eq_sym Heq) Hm Hs).
  - exfalso. rewrite search_None in E. specialize (E pre t eq_refl).
    apply match_here_shaped in Hs. congruence.
Qed.

End PatternFacts.

(** ** Artifact names *)

Lemma list_ascii_app (a b : string) :
  list_ascii_of_string (a +:+ b) = list_ascii_of_string a ++ list_ascii_of_string b.
Proof. induction a as [|c a IH]; simpl; [reflexivity|]. by rewrite IH. Qed.

Lemma has_char_elem c s : Text.has_char c s = true ↔ c ∈ list_ascii_of_string s.
Proof.
  induction s as [|d s IH]; simpl.
  - split; [discriminate|]. intros H. by apply elem_of_nil in H.
  - rewrite elem_of_cons. destruct (Ascii.eqb_spec c d) as [-> | Hne].
    + split; auto.
    + rewrite IH. split; [auto|]. intros [H|H]; [congruence | exact H].
Qed.

Lemma days_in_month_le y m : Calendar.days_in_month y m ≤ 31.
Proof.
  unfold Calendar.days_in_month.
  destruct ((m =? 2) && Calendar.is_leap y); [lia|].
  generalize (Z.to_nat m). intros k.
  do 13 (destruct k as [|k]; [simpl; lia|]).
  destruct k; simpl; lia.
Qed.

Lemma strftime_Ymd_shape now :
  List.length (Calendar.strftime_Ymd now) = 8%nat
  ∧ Forall (λ c, Text.is_digit c = true) (Calendar.strftime_Ymd now).
Proof.
  unfold Calendar.strftime_Ymd. split.
  - rewrite !length_app, !digits_fixed_length. reflexivity.
  - rewrite !Forall_app. repeat split; apply digits_fixed_digits.
Qed.

(** The artifact name, as a list of characters, is the sanitized name
    followed by a text of the shape the sweep looks for. *)
Lemma backup_file_name_shaped db_name now :
  ∃ t, list_ascii_of_string (backup_file_name db_name now)
       = list_ascii_of_string (_sanitize_filename db_name) ++ t
     ∧ PatternShape.shaped t (Calendar.strftime_Ymd now).
Proof.
  destruct (strftime_Ymd_shape now) as [Hlen Hdig].
  exists ("_"%char :: Calendar.strftime_Ymd now ++ "_"%char ::
          (Text.digits_fixed 2 (hour now) ++ Text.digits_fixed 2 (minute now)
           ++ Text.digits_fixed 2 (second now)) ++ "_"%char ::
          Text.digits_fixed 6 (microsecond now) ++ PatternShape.suffix_lit ++ []).
  split.
  - unfold backup_file_name. rewrite !list_ascii_app, list_ascii_of_string_of_list_ascii.
    unfold Calendar.strftime_stamp. simpl.
    repeat (rewrite <- ?app_assoc; simpl). reflexivity.
  - eexists _, _, []. split; [reflexivity|].
    split; [exact Hlen|]. split; [exact Hdig|].
    split; [rewrite !length_app, !digits_fixed_length; reflexivity|].
    split; [rewrite !Forall_app; repeat split; apply digits_fixed_digits|].
    split.
    + intros H. apply (f_equal (@List.length ascii)) in H.
      rewrite digits_fixed_length in H. discriminate.
    + split; [apply digits_fixed_digits | by left].
Qed.

Lemma strptime_strftime now :
  Calendar.valid_datetime now = true →
  Calendar.strptime_Ymd (Calendar.strftime_Ymd now)
  = Some (mk_datetime (year now) (month now) (day now) 0 0 0 0).
Proof.
  intros Hv. unfold Calendar.valid_datetime in Hv.
  do 9 (apply andb_prop in Hv as [Hv ?]).
  assert (Hd : Calendar.valid_date (year now) (month now) (day now) = true) by exact Hv.
  unfold Calendar.valid_date in Hv. do 5 (apply andb_prop in Hv as [Hv ?]).
  pose proof (days_in_month_le (year now) (month now)).
  destruct (strftime_Ymd_shape now) as [Hlen Hdig].
  unfold Calendar.strptime_Ymd.
  rewrite Hlen. simpl (8 =? 8)%nat.
  assert (Hall : forallb Text.is_digit (Calendar.strftime_Ymd now) = true).
  { apply forallb_forall. intros c Hc. rewrite Forall_forall in Hdig.
    apply Hdig. by apply list_elem_of_In. }
  rewrite Hall. simpl negb. cbv iota.
  unfold Calendar.strftime_Ymd.
  assert (E1 : firstn 4 (Text.digits_fixed 4 (year now) ++ Text.digits_fixed 2 (month now)
                          ++ Text.digits_fixed 2 (day now)) = Text.digits_fixed 4 (year now)).
  { apply take_app_length'. by rewrite digits_fixed_length. }
  assert (E2 : skipn 4 (Text.digits_fixed 4 (year now) ++ Text.digits_fixed 2 (month now)
                         ++ Text.digits_fixed 2 (day now))
               = Text.digits_fixed 2 (month now) ++ Text.digits_fixed 2 (day now)).
  { apply drop_app_length'. by rewrite digits_fixed_length. }
  assert (E3 : skipn 6 (Text.digits_fixed 4 (year now) ++ Text.digits_fixed 2 (month now)
                         ++ Text.digits_fixed 2 (day now)) = Text.digits_fixed 2 (day now)).
  { rewrite app_assoc. apply drop_app_length'.
    by rewrite length_app, !digits_fixed_length. }
  rewrite E1, E2, E3.
  assert (E4 : firstn 2 (Text.digits_fixed 2 (month now) ++ Text.digits_fixed 2 (day now))
               = Text.digits_fixed 2 (month now)).
  { apply take_app_length'. by rewrite digits_fixed_length. }
  rewrite E4.
  rewrite !int_of_digits_fixed_small by (simpl; lia).
  rewrite Hd. reflexivity.
Qed.

(** [Path.name] of a file placed in a directory is the file's own name
    when that name has no slash in it. *)
Lemma append_cons c (x y : string) : String c x +:+ y = String c (x +:+ y).
Proof. reflexivity. Qed.

Lemma append_empty_r (x : string) : x +:+ EmptyString = x.
Proof. induction x as [|c x IH]; [reflexivity|]. by rewrite append_cons, IH. Qed.

Lemma append_snoc (x : string) c (y : string) :
  (x +:+ String c EmptyString) +:+ y = x +:+ String c y.
Proof. induction x as [|a x IH]; [reflexivity|]. by rewrite !append_cons, IH. Qed.

Lemma path_name_go_no_slash acc name :
  Text.has_char "/" name = false → path_name_go acc name = acc +:+ name.
Proof.
  revert acc. induction name as [|c t IH]; intros acc; cbn [Text.has_char path_name_go].
  - intros _. by rewrite append_empty_r.
  - destruct (Ascii.eqb_spec "/" c) as [<- | Hne]; [discriminate|].
    destruct (Ascii.eqb_spec c "/") as [-> | _]; [congruence|].
    intros H. rewrite IH by exact H. apply append_snoc.
Qed.

Lemma path_name_go_join acc dir name :
  Text.has_char "/" name = false →
  path_name_go acc (dir +:+ String "/" name) = name.
Proof.
  intros H. revert acc. induction dir as [|c d IH]; intros acc.
  - change (path_name_go acc (String "/" name)) with (path_name_go EmptyString name).
    apply (path_name_go_no_slash EmptyString name H).
  - rewrite append_cons. cbn [path_name_go]. destruct (Ascii.eqb c "/"); apply IH.
Qed.

Lemma path_name_join dir name :
  Text.has_char "/" name = false → path_name (path_join dir name) = name.
Proof. intros H. apply (path_name_go_join EmptyString dir name H). Qed.

Lemma backup_file_name_no_slash db_name now :
  Text.has_char "/" (backup_file_name db_name now) = false.
Proof.
  destruct (Text.has_char "/" _) eqn:E; [exfalso | reflexivity].
  apply has_char_elem in E.
  destruct (backup_file_name_shaped db_name now) as (t & Heq & a & n & tl & -> & _ & Hg & _ & Ha & _ & Hn & Htl).
  rewrite Heq in E. clear Heq.
  assert (Hdig : ∀ l, Forall (λ c, Text.is_digit c = true) l → "/"%char ∉ l).
  { intros l Hl Hin. rewrite Forall_forall in Hl. apply Hl in Hin. discriminate. }
  pose proof (sanitize_has_char "/" db_name eq_refl) as Hs.
  destruct Htl as [-> | ->];
    repeat (rewrite elem_of_app in E || rewrite elem_of_cons in E);
    destruct_or!;
    first [ discriminate
          | by apply (Hdig _ Hg)
          | by apply (Hdig _ Ha)
          | by apply (Hdig _ Hn)
          | apply has_char_elem in E; congruence
          | unfold PatternShape.suffix_lit in E; simpl in E;
            rewrite ?elem_of_cons, ?elem_of_nil in E; intuition discriminate ].
Qed.

(** C7. Whatever the database identifier, and for every creation time the
    clock can give, the sweep's pattern matches the artifact name the
    pipeline builds, the eight digits it extracts are the creation date as
    printed, and parsing them gives that date back; the blob name used for
    the upload, the last component of the artifact path, is that same
    name. *)
Theorem artifact_name_roundtrip (db_name : string) (now : datetime) :
  Calendar.valid_datetime now = true →
  DatePattern.date_match (backup_file_name db_name now) = Some (Calendar.strftime_Ymd now)
  ∧ Calendar.strptime_Ymd (Calendar.strftime_Ymd now)
    = Some (mk_datetime (year now) (month now) (day now) 0 0 0 0)
  ∧ path_name (backup_file_path db_name now) = backup_file_name db_name now.
Proof.
  intros Hv. split; [|split].
  - unfold DatePattern.date_match.
    destruct (backup_file_name_shaped db_name now) as (t & -> & Hs).
    by apply PatternFacts.search_shaped.
  - by apply strptime_strftime.
  - apply path_name_join, backup_file_name_no_slash.
Qed.

Lemma artifact_name_roundtrip_witness :
  DatePattern.date_match
    (backup_file_name "my_db_20200101_000000_1" (mk_datetime 2024 2 29 23 59 58 7))
  = Some (list_ascii_of_string "20240229")
  ∧ Calendar.strptime_Ymd (list_ascii_of_string "20240229")
    = Some (mk_datetime 2024 2 29 0 0 0 0)
  ∧ path_name (backup_file_path "my_db_20200101_000000_1" (mk_datetime 2024 2 29 23 59 58 7))
    = "my_db_20200101_000000_1_20240229_235958_000007.sql.gz".
Proof.
  exact (artifact_name_roundtrip "my_db_20200101_000000_1"
           (mk_datetime 2024 2 29 23 59 58 7) eq_refl).
Defined.

(** ** The capacity check *)

(** The comparison of the script, [free / (1024 * 1024) < required_mb], is a
    comparison of byte counts. *)
Lemma round53_small (free : Z) : 0 ≤ free < 2 ^ 53 → round53 free = free.
Proof.
  intros [H0 H53]. unfold round53.
  assert (Z.log2 (Z.abs free) - 52 ≤ 0) as ->%Z.leb_le; [|reflexivity].
  rewrite Z.abs_eq by exact H0.
  destruct (Z.eq_dec free 0) as [->|Hne]; [done|].
  assert (Z.log2 free < 53) by (apply Z.log2_lt_pow2; lia). lia.
Qed.

Lemma true_divide_mb_small (free : Z) :
  0 ≤ free < 2 ^ 53 →
  true_divide_mb free = inr (Qdiv (inject_Z free) (inject_Z (1024 * 1024))).
Proof.
  intros H. unfold true_divide_mb. rewrite (round53_small _ H).
  assert ((2 ^ 1044 <=? Z.abs free) = false) as ->; [|reflexivity].
  apply Z.leb_gt. rewrite Z.abs_eq by lia.
  assert (2 ^ 53 < 2 ^ 1044) by (apply Z.pow_lt_mono_r; lia). lia.
Qed.

Lemma below_threshold free required_mb :
  Qlt_bool (Qdiv (inject_Z free) (inject_Z (1024 * 1024))) (inject_Z required_mb) = true
  ↔ free < required_mb * BYTES_PER_MB.
Proof.
  unfold Qlt_bool. rewrite negb_true_iff, <- not_true_iff_false, Qle_bool_iff.
  unfold Qle, Qdiv, Qmult, Qinv, inject_Z, BYTES_PER_MB. simpl. lia.
Qed.

Lemma not_below_threshold free required_mb :
  Qlt_bool (Qdiv (inject_Z free) (inject_Z (1024 * 1024))) (inject_Z required_mb) = false
  ↔ required_mb * BYTES_PER_MB ≤ free.
Proof.
  rewrite <- not_true_iff_false, below_threshold. lia.
Qed.

(** C8. For every threshold and every volume of free space below 2^53
    bytes, where the float of the script holds the number of bytes exactly:
    with less free space than the threshold, the warn-only check appends
    one warning and returns true, the hard check appends one error and
    returns false; with at least the threshold free it returns true in both
    modes and records nothing. *)
Theorem check_disk_space_modes (free required_mb : Z) (warn_only : bool) (s : state) :
  0 ≤ free < 2 ^ 53 →
  let r := _check_disk_space (inr free) required_mb warn_only s in
  (free < required_mb * BYTES_PER_MB → warn_only = true →
     r.2 = true
     ∧ warnings r.1 = warnings s ++ [insufficient_msg free required_mb]
     ∧ errors r.1 = errors s)
  ∧ (free < required_mb * BYTES_PER_MB → warn_only = false →
     r.2 = false
     ∧ errors r.1 = errors s ++ [insufficient_msg free required_mb]
     ∧ warnings r.1 = warnings s)
  ∧ (required_mb * BYTES_PER_MB ≤ free →
     r.2 = true ∧ errors r.1 = errors s ∧ warnings r.1 = warnings s).
Proof.
  intros Hfree. cbv zeta. unfold _check_disk_space. cbv zeta.
  rewrite (true_divide_mb_small _ Hfree).
  split; [|split].
  - intros H ->. apply below_threshold in H. rewrite H. auto.
  - intros H ->. apply below_threshold in H. rewrite H. auto.
  - intros H. apply not_below_threshold in H. rewrite H. auto.
Qed.

(** Scenario C of the specification: 500 MB free, hard threshold 1024 MB. *)
Lemma check_disk_space_modes_witness :
  let free := 500 * BYTES_PER_MB in
  ((_check_disk_space (inr free) 1024 true empty_state).2 = true
   ∧ warnings (_check_disk_space (inr free) 1024 true empty_state).1
     = ["Insufficient disk space: 500.00 MB free, need at least 1024 MB"]
   ∧ errors (_check_disk_space (inr free) 1024 true empty_state).1 = [])
  ∧ ((_check_disk_space (inr free) 1024 false empty_state).2 = false
     ∧ errors (_check_disk_space (inr free) 1024 false empty_state).1
       = ["Insufficient disk space: 500.00 MB free, need at least 1024 MB"]
     ∧ warnings (_check_disk_space (inr free) 1024 false empty_state).1 = [])
  ∧ ((_check_disk_space (inr free) 500 false empty_state).2 = true
     ∧ errors (_check_disk_space (inr free) 500 false empty_state).1 = []
     ∧ warnings (_check_disk_space (inr free) 500 false empty_state).1 = []).
Proof.
  cbv zeta.
  assert (Hfree : 0 ≤ 500 * BYTES_PER_MB < 2 ^ 53) by (unfold BYTES_PER_MB; lia).
  split; [|split].
  - exact (proj1 (check_disk_space_modes (500 * BYTES_PER_MB) 1024 true empty_state Hfree)
             eq_refl eq_refl).
  - exact (proj1 (proj2 (check_disk_space_modes (500 * BYTES_PER_MB) 1024 false empty_state
                           Hfree))
             eq_refl eq_refl).
  - refine (proj2 (proj2 (check_disk_space_modes (500 * BYTES_PER_MB) 500 false empty_state
                            Hfree)) _).
    vm_compute. discriminate.
Defined.

(** Above 2^53 bytes the float is not the number of bytes: one byte short
    of a threshold of 2^33 + 1 MB passes the hard check. *)
Example check_disk_space_rounds :
  let free := 9007199255789567 in
  let r := _check_disk_space (inr free) 8589934593 false empty_state in
  free < 8589934593 * BYTES_PER_MB ∧ r.2 = true ∧ errors r.1 = [].
Proof. vm_compute. by repeat split. Qed.

(** C9. When reading the free space raises, the check returns true in
    both modes and appends nothing to the errors or to the warnings; the
    procedure then goes on past its hard gate into the health checks. *)
Theorem check_disk_space_probe_failure (e : exn) (required_mb : Z) (warn_only : bool)
    (s : state) (w : world) :
  let r := _check_disk_space (inl e) required_mb warn_only s in
  r.2 = true ∧ errors r.1 = errors s ∧ warnings r.1 = warnings s
  ∧ (disk_usage w = inl e →
     procedure_body w s
     = after_preflight w
         (_check_disk_space (inl e) MIN_DISK_SPACE_MB false (log_configuration s)).1).
Proof.
  cbv zeta. repeat split.
  intros Hw. unfold procedure_body. rewrite Hw. reflexivity.
Qed.

Lemma check_disk_space_probe_failure_witness :
  procedure_body (sample_world Locked (inl probe_error) ["app_db"] azure_up 1) empty_state
  = after_preflight (sample_world Locked (inl probe_error) ["app_db"] azure_up 1)
      (_check_disk_space (inl probe_error) MIN_DISK_SPACE_MB false
         (log_configuration empty_state)).1.
Proof.
  exact (proj2 (proj2 (proj2
    (check_disk_space_probe_failure probe_error 1024 false empty_state
       (sample_world Locked (inl probe_error) ["app_db"] azure_up 1)))) eq_refl).
Defined.

(** ** The execution guard *)

(** C4. When the attempt on the primary path ends with an exception that
    is not a permission condition (the lock is held: [flock] raises
    [BlockingIOError]), [_acquire_lock] returns false after having opened
    the primary path only and records the contention error. When it ends
    with a permission condition, the fallback path is opened next; if the
    lock is obtained there the result is true and [actual_lock_file] names
    the fallback path, otherwise the result is false. When the primary
    attempt succeeds, [actual_lock_file] names the primary path. *)
Theorem acquire_lock_fallback (primary fallback : lock_attempt) (s : state) :
  let r := _acquire_lock primary fallback s in
  (∀ e, raised primary = Some e → permission_condition e = false →
     r.2 = false
     ∧ events r.1 = events s ++ [EvOpenLock LOCK_FILE]
     ∧ errors r.1 = errors s ++ ["Backup already in progress - another instance is running"])
  ∧ (∀ e, raised primary = Some e → permission_condition e = true →
     events r.1 = events s ++ [EvOpenLock LOCK_FILE; EvOpenLock FALLBACK_LOCK]
     ∧ (fallback = Locked →
        r.2 = true
        ∧ actual_lock_file r.1 = Some FALLBACK_LOCK
        ∧ lock_file r.1 = Some (mk_handle FALLBACK_LOCK true))
     ∧ (∀ e2, raised fallback = Some e2 →
        r.2 = false
        ∧ errors r.1 = errors s ++ ["Cannot acquire lock - check permissions"]))
  ∧ (primary = Locked →
     r.2 = true
     ∧ events r.1 = events s ++ [EvOpenLock LOCK_FILE]
     ∧ actual_lock_file r.1 = Some LOCK_FILE
     ∧ lock_file r.1 = Some (mk_handle LOCK_FILE true)).
Proof.
  cbv zeta. unfold _acquire_lock. split; [|split].
  - intros e He Hp. destruct primary; simplify_eq/=; rewrite Hp; simpl; auto.
  - intros e He Hp. destruct primary; simplify_eq/=; rewrite Hp.
    all: split; [destruct fallback; simpl; by rewrite <- app_assoc|]; split.
    all: try (intros ->; simpl; auto).
    all: intros e2 He2; destruct fallback; simplify_eq/=; auto.
  - intros ->. simpl. auto.
Qed.

Lemma permission_error_is_permission_condition e :
  exn_cls e = PermissionError → permission_condition e = true.
Proof. intros H. unfold permission_condition. rewrite H. apply orb_true_r. Qed.

Lemma acquire_lock_fallback_witness :
  ((_acquire_lock (FlockRaises contention) Locked empty_state).2 = false
   ∧ events (_acquire_lock (FlockRaises contention) Locked empty_state).1
     = [EvOpenLock LOCK_FILE]
   ∧ errors (_acquire_lock (FlockRaises contention) Locked empty_state).1
     = ["Backup already in progress - another instance is running"])
  ∧ (events (_acquire_lock (OpenRaises denied) Locked empty_state).1
     = [EvOpenLock LOCK_FILE; EvOpenLock FALLBACK_LOCK]
     ∧ (_acquire_lock (OpenRaises denied) Locked empty_state).2 = true
     ∧ actual_lock_file (_acquire_lock (OpenRaises denied) Locked empty_state).1
       = Some FALLBACK_LOCK)
  ∧ ((_acquire_lock (OpenRaises denied) (FlockRaises contention) empty_state).2 = false
     ∧ errors (_acquire_lock (OpenRaises denied) (FlockRaises contention) empty_state).1
       = ["Cannot acquire lock - check permissions"])
  ∧ ((_acquire_lock Locked Locked empty_state).2 = true
     ∧ actual_lock_file (_acquire_lock Locked Locked empty_state).1 = Some LOCK_FILE).
Proof.
  split; [|split; [|split]].
  - exact (proj1 (acquire_lock_fallback (FlockRaises contention) Locked empty_state)
             contention eq_refl eq_refl).
  - destruct (proj1 (proj2 (acquire_lock_fallback (OpenRaises denied) Locked empty_state))
                denied eq_refl eq_refl) as (Hev & Hok & _).
    destruct (Hok eq_refl) as (Hr & Ha & _). exact (conj Hev (conj Hr Ha)).
  - destruct (proj1 (proj2 (acquire_lock_fallback (OpenRaises denied) (FlockRaises contention)
                              empty_state)) denied eq_refl eq_refl) as (_ & _ & Hfail).
    exact (Hfail contention eq_refl).
  - destruct (proj2 (proj2 (acquire_lock_fallback Locked Locked empty_state)) eq_refl)
      as (Hr & _ & Ha & _).
    exact (conj Hr Ha).
Defined.

(** ** The ledger and the upload *)

Lemma same_surroundings_refl s : same_surroundings s s.
Proof. by repeat split. Qed.

Lemma same_surroundings_trans s1 s2 s3 :
  same_surroundings s1 s2 → same_surroundings s2 s3 → same_surroundings s1 s3.
Proof. unfold same_surroundings. intuition congruence. Qed.

Lemma adds_events_refl P s : adds_events P s s.
Proof. exists []. by rewrite app_nil_r. Qed.

Lemma adds_events_trans P s1 s2 s3 :
  adds_events P s1 s2 → adds_events P s2 s3 → adds_events P s1 s3.
Proof.
  intros (e1 & H1 & F1) (e2 & H2 & F2). exists (e1 ++ e2). split.
  - by rewrite H2, H1, app_assoc.
  - by apply Forall_app.
Qed.

Lemma adds_events_one (P : event → Prop) e s s' :
  P e → events s' = events s ++ [e] → adds_events P s s'.
Proof. intros HP H. exists [e]. split; [exact H | by constructor]. Qed.

Lemma adds_events_weaken (P Q : event → Prop) s s' :
  (∀ e, P e → Q e) → adds_events P s s' → adds_events Q s s'.
Proof. intros H (evs & He & F). exists evs. split; [exact He|]. by eapply Forall_impl. Qed.

Lemma adds_events_same (P : event → Prop) s s' :
  events s' = events s → adds_events P s s'.
Proof. intros H. exists []. by rewrite app_nil_r. Qed.

(** Reading a field through the setters. *)
Ltac fields :=
  cbn [cfg errors warnings failed_uploads lock_file actual_lock_file saved_uploads
       files container log events
       set_errors set_warnings set_failed_uploads set_lock_file set_actual_lock_file
       set_saved_uploads set_files set_container set_log set_events
       errors_append warnings_append warnings_extend logger emit _save_failed_uploads
       fst snd negb] in *.

Lemma mark_upload_failed_ledger now f s :
  failed_uploads (_mark_upload_failed now f s)
  = <[f := failure_entry now f (failed_uploads s !! f)]> (failed_uploads s).
Proof. unfold _mark_upload_failed. by destruct (failed_uploads s !! f). Qed.

Lemma mark_upload_success_ledger f s :
  failed_uploads (_mark_upload_success f s) = delete f (failed_uploads s).
Proof.
  unfold _mark_upload_success. destruct (failed_uploads s !! f) eqn:E; [reflexivity|].
  by rewrite delete_id.
Qed.

Lemma mark_upload_failed_rest now f s :
  same_surroundings s (_mark_upload_failed now f s)
  ∧ events (_mark_upload_failed now f s) = events s
  ∧ errors (_mark_upload_failed now f s) = errors s
  ∧ saved_uploads (_mark_upload_failed now f s) = failed_uploads (_mark_upload_failed now f s).
Proof. unfold _mark_upload_failed. by destruct (failed_uploads s !! f). Qed.

Lemma mark_upload_success_rest f s :
  same_surroundings s (_mark_upload_success f s)
  ∧ events (_mark_upload_success f s) = events s
  ∧ errors (_mark_upload_success f s) = errors s.
Proof. unfold _mark_upload_success. by destruct (failed_uploads s !! f). Qed.

Lemma send_blob_frame az f s :
  failed_uploads (send_blob az f s).1 = failed_uploads s
  ∧ saved_uploads (send_blob az f s).1 = saved_uploads s
  ∧ errors (send_blob az f s).1 = errors s
  ∧ same_surroundings s (send_blob az f s).1
  ∧ adds_events (upload_event f true) s (send_blob az f s).1
  ∧ adds_events (upload_event f false) s (send_blob az f s).1.
Proof.
  unfold send_blob.
  repeat (case_match; simplify_eq/=);
    repeat split;
    first [ reflexivity | by apply adds_events_same
          | eapply adds_events_one; [|reflexivity]; by right ].
Qed.

(** What an upload attempt does to the ledger, by its outcome. *)
Lemma upload_ledger az now f is_retry s :
  failed_uploads (upload_to_azure az now f is_retry s).1
  = if (upload_to_azure az now f is_retry s).2 then delete f (failed_uploads s)
    else if is_retry then failed_uploads s
    else <[f := failure_entry now f (failed_uploads s !! f)]> (failed_uploads s).
Proof.
  unfold upload_to_azure. cbv zeta. destruct is_retry.
  all: destruct (falsy _ || falsy _);
    [fields; rewrite ?mark_upload_failed_ledger; reflexivity|].
  all: destruct (b64decode az);
    [fields; rewrite ?mark_upload_failed_ledger; reflexivity|].
  all: destruct (from_connection_string az);
    [fields; rewrite ?mark_upload_failed_ledger; reflexivity|].
  all: match goal with |- context [send_blob ?a ?g ?s0] =>
         pose proof (send_blob_frame a g s0) as (Hl & _);
         destruct (send_blob a g s0) as [s1 [e|]]
       end; fields.
  all: rewrite ?mark_upload_failed_ledger, ?mark_upload_success_ledger; fields.
  all: by rewrite Hl.
Qed.

Lemma upload_ledger_other az now f is_retry s g :
  g ≠ f →
  failed_uploads (upload_to_azure az now f is_retry s).1 !! g = failed_uploads s !! g.
Proof.
  intros Hg. rewrite upload_ledger.
  destruct (upload_to_azure az now f is_retry s).2; [|destruct is_retry].
  - by rewrite lookup_delete_ne.
  - reflexivity.
  - by rewrite lookup_insert_ne.
Qed.

Lemma upload_frame az now f is_retry s :
  same_surroundings s (upload_to_azure az now f is_retry s).1
  ∧ adds_events (upload_event f is_retry) s (upload_to_azure az now f is_retry s).1.
Proof.
  assert (Hstart : ∀ s0, events s0 = events s ++ [EvUpload f is_retry] →
                         adds_events (upload_event f is_retry) s s0).
  { intros s0 H. eapply adds_events_one; [|exact H]. by left. }
  assert (Hfail : ∀ s0, same_surroundings s s0 → adds_events (upload_event f is_retry) s s0 →
            same_surroundings s (_mark_upload_failed now f s0)
            ∧ adds_events (upload_event f is_retry) s (_mark_upload_failed now f s0)).
  { intros s0 Hs He. destruct (mark_upload_failed_rest now f s0) as (Hm & Hme & _). split.
    - by eapply same_surroundings_trans.
    - eapply adds_events_trans; [exact He|]. by apply adds_events_same. }
  assert (Hok : ∀ s0, same_surroundings s s0 → adds_events (upload_event f is_retry) s s0 →
            same_surroundings s (_mark_upload_success f s0)
            ∧ adds_events (upload_event f is_retry) s (_mark_upload_success f s0)).
  { intros s0 Hs He. destruct (mark_upload_success_rest f s0) as (Hm & Hme & _). split.
    - by eapply same_surroundings_trans.
    - eapply adds_events_trans; [exact He|]. by apply adds_events_same. }
  unfold upload_to_azure. cbv zeta. destruct is_retry.
  all: destruct (falsy _ || falsy _);
    [fields; try apply Hfail; try split; first [done | by apply Hstart]|].
  all: destruct (b64decode az);
    [fields; try apply Hfail; try split; first [done | by apply Hstart]|].
  all: destruct (from_connection_string az);
    [fields; try apply Hfail; try split; first [done | by apply Hstart]|].
  all: match goal with |- context [send_blob ?a ?g ?s0] =>
         pose proof (send_blob_frame a g s0) as (_ & _ & _ & Hs & Het & Hef);
         assert (Hs0 : same_surroundings s s0) by done;
         pose proof (Hstart s0 eq_refl) as He0;
         destruct (send_blob a g s0) as [s1 [e|]]
       end; fields.
  all: assert (Hs1 : same_surroundings s s1) by (by eapply same_surroundings_trans).
  all: first [ pose proof (adds_events_trans _ _ _ _ He0 Het) as He1
             | pose proof (adds_events_trans _ _ _ _ He0 Hef) as He1 ].
  all: first [ apply Hfail | apply Hok | split ]; first [ exact Hs1 | exact He1 ].
Qed.

(** C2, as stated, fails: an artifact already in the ledger with count 0
    has count 1 after one more failed first-attempt upload. *)
Lemma keeps_prior_count_counterexample :
  ¬ keeps_prior_count azure_down (night 2) sample_artifact (tracked_state 0).
Proof.
  unfold keeps_prior_count. cbv zeta. intros H.
  destruct (H eq_refl) as (e' & Hl & Hc).
  vm_compute in Hl. injection Hl as <-. vm_compute in Hc. discriminate.
Qed.

(** C2, amended. Right after an upload attempt: if it succeeded there is
    no entry for the path, whatever was there before; if it failed and was
    not a retry there is one, with count 0 when the path was not in the
    ledger and the prior count plus one when it was; if it failed, in
    either mode, a path that had an entry still has one. The entries of
    other paths are as before. *)
Theorem upload_ledger_entry (az : azure) (now : datetime) (f : string) (is_retry : bool)
    (s : state) :
  let r := upload_to_azure az now f is_retry s in
  (r.2 = true → failed_uploads r.1 !! f = None)
  ∧ (r.2 = false → is_retry = false →
     ∃ e', failed_uploads r.1 !! f = Some e'
           ∧ retry_count e' = match failed_uploads s !! f with
                              | Some e => retry_count e + 1
                              | None => 0
                              end)
  ∧ (∀ g, g ≠ f → failed_uploads r.1 !! g = failed_uploads s !! g)
  ∧ (r.2 = false → is_Some (failed_uploads s !! f) → is_Some (failed_uploads r.1 !! f)).
Proof.
  cbv zeta. pose proof (upload_ledger az now f is_retry s) as H.
  split; [|split; [|split]].
  - intros Hr. rewrite Hr in H. rewrite H. apply lookup_delete_eq.
  - intros Hr ->. rewrite Hr in H. rewrite H.
    exists (failure_entry now f (failed_uploads s !! f)). split.
    + apply lookup_insert_eq.
    + by destruct (failed_uploads s !! f).
  - intros g Hg. by apply upload_ledger_other.
  - intros Hr Hs. rewrite Hr in H. rewrite H. destruct is_retry; [exact Hs|].
    rewrite lookup_insert_eq. by eexists.
Qed.

Lemma upload_ledger_entry_witness :
  (failed_uploads (upload_to_azure azure_up (night 2) sample_artifact true (tracked_state 1)).1
     !! sample_artifact = None)
  ∧ (∃ e', failed_uploads
             (upload_to_azure azure_down (night 2) sample_artifact false (tracked_state 1)).1
             !! sample_artifact = Some e'
           ∧ retry_count e' = 2)
  ∧ (∃ e', failed_uploads
             (upload_to_azure azure_down (night 2) sample_artifact false empty_state).1
             !! sample_artifact = Some e'
           ∧ retry_count e' = 0).
Proof.
  split; [|split].
  - exact (proj1 (upload_ledger_entry azure_up (night 2) sample_artifact true (tracked_state 1))
             eq_refl).
  - exact (proj1 (proj2 (upload_ledger_entry azure_down (night 2) sample_artifact false
                           (tracked_state 1))) eq_refl eq_refl).
  - exact (proj1 (proj2 (upload_ledger_entry azure_down (night 2) sample_artifact false
                           empty_state)) eq_refl eq_refl).
Defined.

(** ** The retry pass *)

Lemma foldl_preserves {A B} (Inv : A → Prop) (R : A → A → Prop) (f : A → B → A) :
  (∀ a, R a a) → (∀ a b c, R a b → R b c → R a c) →
  (∀ a b, Inv a → Inv (f a b) ∧ R a (f a b)) →
  ∀ l a, Inv a → Inv (foldl f a l) ∧ R a (foldl f a l).
Proof.
  intros Hrefl Htrans Hstep l. induction l as [|b l IH]; intros a Ha; simpl.
  - auto.
  - destruct (Hstep a b Ha) as [Ha' HR]. destruct (IH _ Ha') as [Hl HR'].
    split; [exact Hl | by eapply Htrans].
Qed.

Lemma should_retry_upload_cases f s :
  let r := _should_retry_upload f s in
  same_surroundings s r.1 ∧ events r.1 = events s
  ∧ (∀ g, g ≠ f → failed_uploads r.1 !! g = failed_uploads s !! g)
  ∧ (r.2 = true → r.1 = s ∧ ∃ e, failed_uploads s !! f = Some e
                               ∧ retry_count e < MAX_UPLOAD_RETRIES)
  ∧ (∀ e, failed_uploads s !! f = Some e → MAX_UPLOAD_RETRIES ≤ retry_count e →
          r = (s, false)).
Proof.
  cbv zeta. unfold _should_retry_upload.
  destruct (failed_uploads s !! f) as [e|] eqn:E.
  - destruct (MAX_UPLOAD_RETRIES <=? retry_count e) eqn:Hc.
    + repeat split; try done.
    + apply Z.leb_gt in Hc. destruct (negb (exists_ f s)); fields.
      * repeat split; try done.
        -- intros g Hg. by rewrite lookup_delete_ne.
        -- intros e' [= <-] ?. lia.
      * repeat split; try done.
        -- by exists e.
        -- intros e' [= <-] ?. lia.
  - repeat split; done.
Qed.

(** One turn of the retry loop leaves the entries of the other paths, the
    lock, the configuration and the local files alone, and the events it
    adds are those of a retry upload of its own path. *)
Lemma retry_one_frame az now k acc :
  same_surroundings acc.1 (retry_one az now k acc).1
  ∧ adds_events (upload_event k true) acc.1 (retry_one az now k acc).1
  ∧ (∀ g, g ≠ k →
       failed_uploads (retry_one az now k acc).1 !! g = failed_uploads acc.1 !! g).
Proof.
  destruct acc as [s [ok ko]]. unfold retry_one.
  pose proof (should_retry_upload_cases k s) as (Hs & He & Hl & Ht & _).
  destruct (_should_retry_upload k s) as [s1 [|]]; fields.
  - destruct (Ht eq_refl) as [-> _].
    destruct (negb (exists_ k s)).
    + destruct (failed_uploads s !! k); fields; repeat split; try done.
      all: try (by apply adds_events_same).
      intros g Hg. by rewrite lookup_delete_ne.
    + match goal with |- context [upload_to_azure az now k true ?s0] =>
        pose proof (upload_frame az now k true s0) as (Hu & Hue);
        pose proof (upload_ledger_other az now k true s0) as Hul;
        destruct (upload_to_azure az now k true s0) as [s2 [|]]
      end; fields; repeat split; try apply Hu; try exact Hue; exact Hul.
  - repeat split; try apply Hs; try exact Hl. by apply adds_events_same.
Qed.

(** An entry that has reached the maximum is passed over. *)
Lemma retry_one_exhausted az now k acc e :
  failed_uploads acc.1 !! k = Some e → MAX_UPLOAD_RETRIES ≤ retry_count e →
  retry_one az now k acc = acc.
Proof.
  destruct acc as [s [ok ko]]. intros He Hc. unfold retry_one.
  pose proof (should_retry_upload_cases k s) as (_ & _ & _ & _ & Hx).
  by rewrite (Hx e He Hc).
Qed.

Lemma upload_event_retry_pass k e : upload_event k true e → retry_pass_event e.
Proof. by intros [-> | ->]. Qed.

Lemma retry_loop_frame az now ks acc :
  let acc' := foldl (λ acc file_str, retry_one az now file_str acc) acc ks in
  same_surroundings acc.1 acc'.1 ∧ adds_events retry_pass_event acc.1 acc'.1.
Proof.
  cbv zeta.
  refine (proj2 (foldl_preserves (λ _, True)
    (λ a a' : state * (Z * Z),
       same_surroundings a.1 a'.1 ∧ adds_events retry_pass_event a.1 a'.1)
    _ _ _ _ ks acc I)).
  - intros a. split; [apply same_surroundings_refl | apply adds_events_refl].
  - intros a b c [? ?] [? ?].
    split; [by eapply same_surroundings_trans | by eapply adds_events_trans].
  - intros a k _. destruct (retry_one_frame az now k a) as (Hs & He & _).
    repeat split; try apply Hs.
    eapply adds_events_weaken; [apply upload_event_retry_pass | exact He].
Qed.

Lemma retry_loop_exhausted az now f e ks acc :
  failed_uploads acc.1 !! f = Some e → MAX_UPLOAD_RETRIES ≤ retry_count e →
  let acc' := foldl (λ acc file_str, retry_one az now file_str acc) acc ks in
  failed_uploads acc'.1 !! f = Some e ∧ adds_events (not_upload_of f) acc.1 acc'.1.
Proof.
  intros He Hc. cbv zeta.
  refine (foldl_preserves (λ a : state * (Z * Z), failed_uploads a.1 !! f = Some e)
    (λ a a' : state * (Z * Z), adds_events (not_upload_of f) a.1 a'.1)
    _ _ _ _ ks acc He).
  - intros a. apply adds_events_refl.
  - intros a b c ? ?. by eapply adds_events_trans.
  - intros a k Ha. destruct (decide (k = f)) as [-> | Hne].
    + rewrite (retry_one_exhausted az now f a e Ha Hc). split; [exact Ha|].
      apply adds_events_refl.
    + destruct (retry_one_frame az now k a) as (_ & Hev & Hl). split.
      * rewrite Hl; [exact Ha | congruence].
      * eapply adds_events_weaken; [|exact Hev].
        intros ev [-> | ->] r; congruence.
Qed.

Lemma retry_pass_frame az now s :
  same_surroundings s (retry_failed_uploads az now s).1
  ∧ adds_events retry_pass_event s (retry_failed_uploads az now s).1.
Proof.
  unfold retry_failed_uploads. cbv zeta.
  assert (H0 : ∀ s0, events s0 = events s ++ [EvRetryPass] → adds_events retry_pass_event s s0).
  { intros s0 H. eapply adds_events_one; [|exact H]. exact I. }
  case_bool_decide; fields.
  - split; [done | by apply H0].
  - match goal with |- context [foldl ?f ?a ?l] =>
      pose proof (retry_loop_frame az now l a) as (Hs & He);
      cbv zeta in Hs, He; destruct (foldl f a l) as [s1 [ok ko]]
    end; fields.
    assert (He1 : adds_events retry_pass_event s s1).
    { eapply adds_events_trans; [|exact He]. by apply H0. }
    destruct (0 <? ok), (0 <? ko); fields; split; first [exact Hs | exact He1].
Qed.

(** An artifact whose count has reached the maximum is not uploaded by the
    retry pass, and its entry and the local files stay as they are. *)
Lemma retry_pass_exhausted az now s f e :
  failed_uploads s !! f = Some e → MAX_UPLOAD_RETRIES ≤ retry_count e →
  failed_uploads (retry_failed_uploads az now s).1 !! f = Some e
  ∧ files (retry_failed_uploads az now s).1 = files s
  ∧ adds_events (not_upload_of f) s (retry_failed_uploads az now s).1.
Proof.
  intros He Hc.
  destruct (retry_pass_frame az now s) as ((_ & _ & _ & Hf) & _).
  split; [|split; [exact Hf|]]; clear Hf.
  all: unfold retry_failed_uploads; cbv zeta.
  all: assert (H0 : ∀ s0, events s0 = events s ++ [EvRetryPass] →
                          adds_events (not_upload_of f) s s0)
         by (intros s0 H; eapply adds_events_one; [|exact H]; by intros r).
  all: case_bool_decide; fields; first [ done | by apply H0 | idtac ].
  all: match goal with |- context [foldl ?g ?a ?l] =>
         pose proof (retry_loop_exhausted az now f e l a He Hc) as (Hl & Hev);
         cbv zeta in Hl, Hev; destruct (foldl g a l) as [s1 [ok ko]]
       end; fields.
  all: destruct (0 <? ok), (0 <? ko); fields; try exact Hl.
  all: eapply adds_events_trans; [|exact Hev]; by apply H0.
Qed.

(** ** The local sweep *)

Lemma elem_of_glob dir suffix s p :
  p ∈ glob dir suffix s ↔ in_glob dir suffix p = true ∧ is_Some (files s !! p).
Proof.
  unfold glob. rewrite list_elem_of_filter, list_elem_of_fmap.
  split.
  - intros (Hg & [q x] & -> & Hx). apply elem_of_map_to_list in Hx. simpl. eauto.
  - intros (Hg & x & Hx). split; [exact Hg|]. exists (p, x). split; [reflexivity|].
    by apply elem_of_map_to_list.
Qed.

Lemma NoDup_glob dir suffix s : NoDup (glob dir suffix s).
Proof. unfold glob. apply NoDup_filter, NoDup_fst_map_to_list. Qed.

Lemma artifact_not_ledger_file p :
  is_artifact p = true → String.eqb (path_name p) ".failed_uploads.json" = false.
Proof.
  unfold is_artifact, in_glob. intros H. apply andb_prop in H as [_ H].
  destruct (String.eqb_spec (path_name p) ".failed_uploads.json") as [E|]; [|reflexivity].
  rewrite E in H. vm_compute in H. discriminate.
Qed.

Lemma artifact_not_temp p :
  is_artifact p = true → in_glob TEMP_DIR ".sql" p = false.
Proof.
  unfold is_artifact, in_glob. intros H. apply andb_prop in H as [H _].
  apply String.eqb_eq in H. rewrite H. reflexivity.
Qed.

Lemma sweep_temp_file_view unlink_raises q s p :
  p ≠ q → view (sweep_temp_file unlink_raises q s) p = view s p.
Proof.
  intros Hne. unfold sweep_temp_file, view.
  destruct (unlink_raises q); fields; [reflexivity|]. by rewrite lookup_delete_ne.
Qed.

Lemma sweep_temp_view unlink_raises qs s p :
  p ∉ qs →
  view (foldl (λ s tmp_file, sweep_temp_file unlink_raises tmp_file s) s qs) p = view s p.
Proof.
  revert s. induction qs as [|q qs IH]; intros s Hp; simpl; [reflexivity|].
  apply not_elem_of_cons in Hp as [Hne Hp]. rewrite IH by exact Hp.
  by apply sweep_temp_file_view.
Qed.

Lemma sweep_local_file_other unlink_raises cutoff q acc p :
  p ≠ q → view (sweep_local_file unlink_raises cutoff q acc).1 p = view acc.1 p.
Proof.
  intros Hne. destruct acc as [s n]. unfold sweep_local_file, view.
  repeat (case_match; simplify_eq/=); fields; rewrite ?lookup_delete_ne by done; reflexivity.
Qed.

Lemma sweep_local_file_self unlink_raises cutoff p acc :
  is_artifact p = true →
  view (sweep_local_file unlink_raises cutoff p acc).1 p
  = local_verdict unlink_raises cutoff p (view acc.1 p).
Proof.
  intros Ha. destruct acc as [s n]. unfold sweep_local_file, view, local_verdict.
  rewrite (artifact_not_ledger_file p Ha). fields.
  destruct (files s !! p) as [t|] eqn:Ef; [|fields; by rewrite Ef].
  destruct (failed_uploads s !! p) as [e|] eqn:El.
  - rewrite bool_decide_true by eauto. rewrite andb_false_r.
    destruct (MAX_UPLOAD_RETRIES <=? retry_count e); fields; [|by rewrite Ef, El].
    destruct (unlink_raises p); fields.
    + rewrite bool_decide_false by done. by rewrite Ef, El.
    + rewrite bool_decide_true by done. by rewrite !lookup_delete_eq.
  - rewrite bool_decide_false by (intros [? ?]; done). rewrite andb_true_r.
    destruct (t <? cutoff); fields; [|by rewrite Ef, El].
    destruct (unlink_raises p); fields.
    + rewrite bool_decide_false by done. by rewrite Ef, El.
    + rewrite bool_decide_true by done. by rewrite lookup_delete_eq, El.
Qed.

Lemma sweep_local_view unlink_raises cutoff ps acc p :
  NoDup ps → is_artifact p = true →
  view (foldl (λ acc backup_file, sweep_local_file unlink_raises cutoff backup_file acc)
              acc ps).1 p
  = if bool_decide (p ∈ ps) then local_verdict unlink_raises cutoff p (view acc.1 p)
    else view acc.1 p.
Proof.
  intros Hnd Ha. revert acc. induction Hnd as [|q ps Hq Hnd IH]; intros acc; simpl.
  - reflexivity.
  - rewrite IH. destruct (decide (p = q)) as [-> | Hne].
    + rewrite (bool_decide_false (q ∈ ps)) by exact Hq.
      rewrite bool_decide_true by (by left).
      by apply sweep_local_file_self.
    + rewrite sweep_local_file_other by exact Hne.
      destruct (decide (p ∈ ps)) as [Hin | Hnin].
      * rewrite (bool_decide_true (p ∈ q :: ps)) by (by right).
        by rewrite (bool_decide_true (p ∈ ps)) by exact Hin.
      * rewrite (bool_decide_false (p ∈ q :: ps))
          by (intros [? | ?]%elem_of_cons; done).
        by rewrite (bool_decide_false (p ∈ ps)) by exact Hnin.
Qed.

(** The whole sweep, seen from one artifact on disk. *)
Lemma cleanup_local_view unlink_raises now s p :
  is_artifact p = true → is_Some (files s !! p) →
  view (cleanup_local_backups unlink_raises now s).1 p
  = local_verdict unlink_raises (cutoff_date now LOCAL_RETENTION_DAYS) p (view s p).
Proof.
  intros Ha Hp. unfold cleanup_local_backups. cbv zeta.
  match goal with |- context [foldl ?f ?s0 (glob TEMP_DIR ".sql" ?s0)] =>
    assert (Hv : view (foldl f s0 (glob TEMP_DIR ".sql" s0)) p = view s p);
    [ rewrite sweep_temp_view; [reflexivity|];
      rewrite elem_of_glob, (artifact_not_temp p Ha); intros [? _]; done
    | generalize dependent (foldl f s0 (glob TEMP_DIR ".sql" s0)); intros s1 Hv ]
  end.
  pose proof (sweep_local_view unlink_raises (cutoff_date now LOCAL_RETENTION_DAYS)
                (glob BACKUP_DIR ".sql.gz" s1) (s1, 0) p
                (NoDup_glob _ _ _) Ha) as H.
  rewrite bool_decide_true in H.
  - destruct (foldl _ (s1, 0) (glob BACKUP_DIR ".sql.gz" s1)) as [s2 n]. fields.
    unfold view in *. fields. by rewrite <- Hv.
  - apply elem_of_glob. split; [exact Ha|].
    unfold view in Hv. injection Hv as -> _. exact Hp.
Qed.

(** C5. For an artifact on local disk, the local sweep removes it only
    if it is older than the local window and not in the ledger, or if its
    ledger count has reached the maximum; in the second case the entry is
    removed with it, whatever the age, and in both cases the file does go
    unless [unlink] itself fails. Every other artifact keeps its file, its
    time and its entry; in particular one younger than the window whose
    count is below the maximum stays. An entry is never removed while its
    file stays. *)
Theorem local_sweep_deletes_only (unlink_raises : string → option exn) (now : datetime)
    (s : state) (p : string) (t : Z) :
  let s' := (cleanup_local_backups unlink_raises now s).1 in
  let cutoff := cutoff_date now LOCAL_RETENTION_DAYS in
  is_artifact p = true → files s !! p = Some t →
  (files s' !! p = None →
     (t < cutoff ∧ failed_uploads s !! p = None)
     ∨ (∃ e, failed_uploads s !! p = Some e ∧ MAX_UPLOAD_RETRIES ≤ retry_count e
             ∧ failed_uploads s' !! p = None))
  ∧ (∀ e, failed_uploads s !! p = Some e → MAX_UPLOAD_RETRIES ≤ retry_count e →
          unlink_raises p = None →
          files s' !! p = None ∧ failed_uploads s' !! p = None)
  ∧ (t < cutoff → failed_uploads s !! p = None → unlink_raises p = None →
     files s' !! p = None)
  ∧ (is_Some (files s' !! p) →
     files s' !! p = Some t ∧ failed_uploads s' !! p = failed_uploads s !! p)
  ∧ (¬ (t < cutoff ∧ failed_uploads s !! p = None) →
     (∀ e, failed_uploads s !! p = Some e → retry_count e < MAX_UPLOAD_RETRIES) →
     files s' !! p = Some t ∧ failed_uploads s' !! p = failed_uploads s !! p)
  ∧ (cutoff ≤ t →
     (∀ e, failed_uploads s !! p = Some e → retry_count e < MAX_UPLOAD_RETRIES) →
     files s' !! p = Some t).
Proof.
  cbv zeta. intros Ha Hf.
  pose proof (cleanup_local_view unlink_raises now s p Ha (mk_is_Some _ _ Hf)) as Hv.
  unfold view, local_verdict in Hv. rewrite Hf in Hv.
  set (s' := (cleanup_local_backups unlink_raises now s).1) in *.
  set (cutoff := cutoff_date now LOCAL_RETENTION_DAYS) in *.
  destruct (failed_uploads s !! p) as [e|] eqn:El.
  - destruct (Z.leb_spec MAX_UPLOAD_RETRIES (retry_count e)) as [Hc | Hc];
      [destruct (unlink_raises p) eqn:Hu|].
    all: simpl in Hv; try rewrite bool_decide_false in Hv by done;
         try rewrite bool_decide_true in Hv by done;
         injection Hv as Hf' Hl'; rewrite Hf', Hl'.
    all: repeat split; try done.
    all: try (intros e' [= <-]; try done; intros; try lia; done).
    all: try (intros [[] ?]; done).
    all: try (intros [? ?]; done).
    all: try (intros _; right; by exists e).
    all: try (intros _ H; specialize (H e eq_refl); lia).
    all: try (intros ? H; specialize (H e eq_refl); lia).
    all: try (exfalso; match goal with
              | H : ∀ e0, Some _ = Some e0 → _ |- _ => specialize (H _ eq_refl); lia
              end).
    all: try congruence.
    all: try (exfalso; match goal with
              | H : Some _ = Some _ |- _ => injection H as <-; lia
              end).
  - destruct (Z.ltb_spec t cutoff) as [Hc | Hc];
      [destruct (unlink_raises p) eqn:Hu|].
    all: simpl in Hv; try rewrite bool_decide_false in Hv by done;
         try rewrite bool_decide_true in Hv by done;
         injection Hv as Hf' Hl'; rewrite Hf', Hl'.
    all: repeat split; try done.
    all: try (intros; lia).
    all: try (intros _; by left).
    all: try (intros [? ?]; done).
    all: try (intros H; exfalso; apply H; by split).
    all: try (exfalso; match goal with
              | H : ¬ (_ ∧ _) |- _ => apply H; by split
              end).
    all: try congruence.
    all: try lia.
Qed.

Lemma local_sweep_deletes_only_witness :
  let s' := (cleanup_local_backups (λ _, None) (night 2) (tracked_state 3)).1 in
  files s' !! sample_artifact = None ∧ failed_uploads s' !! sample_artifact = None.
Proof.
  cbv zeta.
  destruct (local_sweep_deletes_only (λ _, None) (night 2) (tracked_state 3) sample_artifact
              (Calendar.micros (night 1)) eq_refl eq_refl) as (_ & H & _).
  refine (H (mk_entry sample_artifact (night 1) 3 (night 1)) eq_refl _ eq_refl).
  vm_compute. discriminate.
Defined.

(** ** Retry accounting across runs *)

(** C1, as stated, fails: after the upload has failed in the first run and
    its retries in the next two, the count is 0, not 3; the fourth run
    uploads the artifact again, and leaves its entry and its file. *)
Lemma retry_accounting_counterexample :
  backup_file_path "analytics" (night 1) = sample_artifact
  ∧ retry_count <$> failed_uploads (after_runs 3) !! sample_artifact = Some 0
  ∧ retry_count <$> failed_uploads (after_runs 3) !! sample_artifact ≠ Some 3
  ∧ EvUpload sample_artifact true ∈ events (after_runs 4)
  ∧ is_Some (failed_uploads (after_runs 4) !! sample_artifact)
  ∧ is_Some (files (after_runs 4) !! sample_artifact).
Proof.
  split; [reflexivity|].
  split; [vm_compute; reflexivity|].
  split; [vm_compute; discriminate|].
  split; [apply (bool_decide_unpack _); vm_compute; exact I|].
  split; apply (bool_decide_unpack _); vm_compute; exact I.
Qed.

(** C1, amended. A failed upload that is not a retry raises the count of
    an artifact already in the ledger by one (and enters a new artifact
    with count 0). Once the count of an entry has reached the maximum, the
    retry pass makes no upload attempt for that artifact and leaves its
    entry and the local files in place; the local sweep is what then
    deletes the artifact and removes the entry. *)
Theorem retry_accounting (az : azure) (now : datetime)
    (unlink_raises : string → option exn) (f : string) (s : state) :
  ((upload_to_azure az now f false s).2 = false →
     ∃ e', failed_uploads (upload_to_azure az now f false s).1 !! f = Some e'
           ∧ retry_count e' = match failed_uploads s !! f with
                              | Some e => retry_count e + 1
                              | None => 0
                              end)
  ∧ (∀ e, failed_uploads s !! f = Some e → MAX_UPLOAD_RETRIES ≤ retry_count e →
     failed_uploads (retry_failed_uploads az now s).1 !! f = Some e
     ∧ files (retry_failed_uploads az now s).1 = files s
     ∧ ∃ evs, events (retry_failed_uploads az now s).1 = events s ++ evs
              ∧ ∀ r, EvUpload f r ∉ evs)
  ∧ (∀ e, failed_uploads s !! f = Some e → MAX_UPLOAD_RETRIES ≤ retry_count e →
     is_artifact f = true → is_Some (files s !! f) → unlink_raises f = None →
     files (cleanup_local_backups unlink_raises now s).1 !! f = None
     ∧ failed_uploads (cleanup_local_backups unlink_raises now s).1 !! f = None).
Proof.
  split; [|split].
  - intros Hr. pose proof (upload_ledger az now f false s) as H. rewrite Hr in H.
    rewrite H. exists (failure_entry now f (failed_uploads s !! f)).
    split; [apply lookup_insert_eq | by destruct (failed_uploads s !! f)].
  - intros e He Hc.
    destruct (retry_pass_exhausted az now s f e He Hc) as (Hl & Hf & evs & Hev & Hall).
    repeat split; try done. exists evs. split; [exact Hev|].
    intros r Hin. rewrite Forall_forall in Hall. by apply (Hall _ Hin r).
  - intros e He Hc Ha [t Hf] Hu.
    pose proof (cleanup_local_view unlink_raises now s f Ha (mk_is_Some _ _ Hf)) as Hv.
    unfold view, local_verdict in Hv. rewrite Hf, He in Hv.
    apply Z.leb_le in Hc. rewrite Hc in Hv. rewrite bool_decide_true in Hv by exact Hu.
    simpl in Hv. by injection Hv as -> ->.
Qed.

Lemma retry_accounting_witness :
  (∃ e', failed_uploads (upload_to_azure azure_down (night 2) sample_artifact false
                           (tracked_state 1)).1 !! sample_artifact = Some e'
         ∧ retry_count e' = 2)
  ∧ (failed_uploads (retry_failed_uploads azure_up (night 2) (tracked_state 3)).1
       !! sample_artifact = Some (mk_entry sample_artifact (night 1) 3 (night 1))
     ∧ ∃ evs, events (retry_failed_uploads azure_up (night 2) (tracked_state 3)).1
              = events (tracked_state 3) ++ evs
              ∧ ∀ r, EvUpload sample_artifact r ∉ evs)
  ∧ (files (cleanup_local_backups (λ _, None) (night 2) (tracked_state 3)).1
       !! sample_artifact = None
     ∧ failed_uploads (cleanup_local_backups (λ _, None) (night 2) (tracked_state 3)).1
       !! sample_artifact = None).
Proof.
  assert (Hmax : MAX_UPLOAD_RETRIES ≤ 3) by (vm_compute; discriminate).
  split; [|split].
  - exact (proj1 (retry_accounting azure_down (night 2) (λ _, None) sample_artifact
                    (tracked_state 1)) eq_refl).
  - destruct (proj1 (proj2 (retry_accounting azure_up (night 2) (λ _, None)
                sample_artifact (tracked_state 3)))
                (mk_entry sample_artifact (night 1) 3 (night 1)) eq_refl Hmax)
      as (Hl & _ & Hev).
    exact (conj Hl Hev).
  - exact (proj2 (proj2 (retry_accounting azure_up (night 2) (λ _, None)
             sample_artifact (tracked_state 3)))
             (mk_entry sample_artifact (night 1) 3 (night 1)) eq_refl Hmax eq_refl
             (mk_is_Some _ _ eq_refl) eq_refl).
Defined.

(** ** The remote sweep *)

Lemma blob_expiredb_spec cutoff name :
  blob_expiredb cutoff name = true ↔ blob_expired cutoff name.
Proof.
  unfold blob_expiredb, blob_expired. split.
  - destruct (DatePattern.date_match name) as [d|]; [|discriminate].
    destruct (Calendar.strptime_Ymd d) as [t|] eqn:Et; [|discriminate].
    intros H%Z.ltb_lt. by exists d, t.
  - intros (d & t & -> & -> & H). by apply Z.ltb_lt.
Qed.

Lemma sweep_blob_spec az cutoff b acc :
  let r := sweep_blob az cutoff b acc in
  container r.1.1
  = (if blob_expiredb cutoff b && bool_decide (delete_blob az b = None)
     then filter (λ x, x ≠ b) (container acc.1) else container acc.1)
  ∧ r.2 = (if blob_expiredb cutoff b then leaves_loop az b else None)
  ∧ ∃ l, log r.1.1 = log acc.1 ++ l
         ∧ (DatePattern.date_match b = None → unparsable_warning b ∈ l)
         ∧ (¬ parses b → ∃ reason, skip_warning b reason ∈ l).
Proof.
  cbv zeta. destruct acc as [s n]. unfold sweep_blob, blob_expiredb, parses, leaves_loop.
  destruct (DatePattern.date_match b) as [d|]; fields.
  - destruct (Calendar.strptime_Ymd d) as [t|] eqn:Et; fields.
    + assert (Hp : ¬ ¬ ∃ d' t', Some d = Some d' ∧ Calendar.strptime_Ymd d' = Some t')
        by (intros Hn; apply Hn; by exists d, t).
      destruct (Calendar.micros t <? cutoff); fields.
      * destruct (delete_blob az b) as [e|]; fields.
        -- destruct (caught_in_loop e); fields.
           ++ repeat split. eexists. split; [reflexivity | done].
           ++ repeat split. exists []. by rewrite app_nil_r.
        -- repeat split. eexists. split; [reflexivity | done].
      * repeat split. exists []. by rewrite app_nil_r.
    + repeat split. eexists. split; [reflexivity|]. split; [done|].
      intros _. eexists. by apply list_elem_of_singleton.
  - repeat split. eexists. split; [reflexivity|].
    split; intros _; [|eexists]; by apply list_elem_of_singleton.
Qed.

Lemma sweep_blobs_spec az cutoff bs acc :
  let r := sweep_blobs az cutoff bs acc in
  (∀ x, x ∈ container r.1.1 → x ∈ container acc.1)
  ∧ (∀ x, x ∈ container acc.1 → x ∉ container r.1.1 →
          x ∈ bs ∧ blob_expired cutoff x)
  ∧ ((∀ b, b ∈ bs → delete_blob az b = None) →
     r.2 = None
     ∧ (∀ x, x ∈ bs → blob_expired cutoff x → x ∉ container r.1.1)
     ∧ (∀ x, x ∈ bs → DatePattern.date_match x = None → unparsable_warning x ∈ log r.1.1)
     ∧ (∀ x, x ∈ bs → ¬ parses x → ∃ reason, skip_warning x reason ∈ log r.1.1))
  ∧ ∃ l, log r.1.1 = log acc.1 ++ l.
Proof.
  cbv zeta. revert acc. induction bs as [|b bs IH]; intros acc; simpl.
  - repeat split; try done.
    + intros x Hx. by apply elem_of_nil in Hx.
    + intros x Hx. by apply elem_of_nil in Hx.
    + intros x Hx. by apply elem_of_nil in Hx.
    + exists []. by rewrite app_nil_r.
  - pose proof (sweep_blob_spec az cutoff b acc) as (Hc & Hr & l & Hl & Hw & Hw').
    cbv zeta in *.
    assert (Hsub : ∀ x, x ∈ container (sweep_blob az cutoff b acc).1.1 → x ∈ container acc.1).
    { intros x. rewrite Hc. destruct (blob_expiredb cutoff b && _); [|done].
      by intros [_ ?]%list_elem_of_filter. }
    assert (Hgone : ∀ x, x ∈ container acc.1 → x ∉ container (sweep_blob az cutoff b acc).1.1 →
                         x = b ∧ blob_expired cutoff x).
    { intros x Hx. rewrite Hc. destruct (blob_expiredb cutoff b && _) eqn:E; [|done].
      apply andb_prop in E as [E _]. apply blob_expiredb_spec in E.
      rewrite list_elem_of_filter. intros Hn.
      destruct (decide (x = b)) as [-> | Hne]; [done|]. exfalso. by apply Hn. }
    destruct (sweep_blob az cutoff b acc) as [acc1 [e|]] eqn:Es; simpl in *.
    + split; [exact Hsub|]. split.
      { intros x Hx Hn. destruct (Hgone x Hx Hn) as [-> He]. split; [by left | exact He]. }
      split; [|by exists l].
      intros Hd. exfalso. destruct (blob_expiredb cutoff b); [|done].
      unfold leaves_loop in Hr. rewrite (Hd b) in Hr by (by left). done.
    + specialize (IH acc1) as (IH1 & IH2 & IH3 & l' & IH4).
      split; [by auto|]. split.
      { intros x Hx Hn. destruct (decide (x ∈ container acc1.1)) as [Hin | Hnin].
        - destruct (IH2 x Hin Hn) as [? ?]. split; [by right | done].
        - destruct (Hgone x Hx Hnin) as [-> He]. split; [by left | exact He]. }
      split; [|exists (l ++ l'); by rewrite IH4, Hl, app_assoc].
      intros Hd.
      destruct IH3 as (I1 & I2 & I3 & I4); [intros b' Hb'; apply Hd; by right|].
      split; [exact I1|]. split; [|split].
      * intros x [-> | Hx]%elem_of_cons He; [|by apply I2].
        intros Hin. apply IH1 in Hin. rewrite Hc in Hin.
        apply blob_expiredb_spec in He. rewrite He, (Hd b) in Hin by (by left).
        rewrite bool_decide_true in Hin by done. simpl in Hin.
        apply list_elem_of_filter in Hin as [? _]. done.
      * intros x [-> | Hx]%elem_of_cons Hm; [|by apply I3].
        rewrite IH4, Hl. apply elem_of_app. left. apply elem_of_app. right. by apply Hw.
      * intros x [-> | Hx]%elem_of_cons Hm; [|by apply I4].
        destruct (Hw' Hm) as [reason Hin]. exists reason.
        rewrite IH4, Hl. apply elem_of_app. left. apply elem_of_app. by right.
Qed.

(** C6. The remote sweep removes a blob only if its name matches the
    pattern and the date in it is strictly before now minus the remote
    window, and it adds none; a blob whose name does not parse is never
    removed. When the storage answers every call of the sweep, it removes
    exactly the blobs of that kind, and logs a warning for each name that
    does not parse (the one about the expected format when the pattern
    does not match). *)
Theorem remote_sweep_deletes_iff (az : azure) (now : datetime) (s : state) (b : string) :
  let s' := (cleanup_old_backups_azure az now s).1 in
  let cutoff := cutoff_date now RETENTION_DAYS in
  (b ∈ container s' → b ∈ container s)
  ∧ (b ∈ container s → b ∉ container s' → blob_expired cutoff b)
  ∧ (b ∈ container s → ¬ parses b → b ∈ container s')
  ∧ (storage_answers az s → b ∈ container s →
     (b ∉ container s' ↔ blob_expired cutoff b)
     ∧ (¬ parses b → ∃ reason, skip_warning b reason ∈ log s')
     ∧ (DatePattern.date_match b = None → unparsable_warning b ∈ log s')).
Proof.
  cbv zeta.
  set (cutoff := cutoff_date now RETENTION_DAYS).
  assert (Hmain :
    (b ∈ container (cleanup_old_backups_azure az now s).1 → b ∈ container s)
    ∧ (b ∈ container s → b ∉ container (cleanup_old_backups_azure az now s).1 →
       blob_expired cutoff b)
    ∧ (storage_answers az s → b ∈ container s →
       (blob_expired cutoff b → b ∉ container (cleanup_old_backups_azure az now s).1)
       ∧ (¬ parses b →
          ∃ reason, skip_warning b reason ∈ log (cleanup_old_backups_azure az now s).1)
       ∧ (DatePattern.date_match b = None →
          unparsable_warning b ∈ log (cleanup_old_backups_azure az now s).1))).
  { unfold cleanup_old_backups_azure, storage_answers. cbv zeta. fold cutoff.
    assert (Hgate : ∀ s0, container s0 = container s →
               ¬ (falsy (azure_account_name (cfg s)) = false
                  ∧ falsy (azure_account_key (cfg s)) = false
                  ∧ b64decode az = None ∧ from_connection_string az = None
                  ∧ list_blobs az = None ∧ (∀ b, b ∈ container s → delete_blob az b = None)) →
               (b ∈ container s0 → b ∈ container s)
               ∧ (b ∈ container s → b ∉ container s0 → blob_expired cutoff b)
               ∧ (falsy (azure_account_name (cfg s)) = false
                  ∧ falsy (azure_account_key (cfg s)) = false
                  ∧ b64decode az = None ∧ from_connection_string az = None
                  ∧ list_blobs az = None ∧ (∀ b, b ∈ container s → delete_blob az b = None) →
                  b ∈ container s →
                  (blob_expired cutoff b → b ∉ container s0)
                  ∧ (¬ parses b → ∃ reason, skip_warning b reason ∈ log s0)
                  ∧ (DatePattern.date_match b = None → unparsable_warning b ∈ log s0))).
    { intros s0 -> Hno. split; [done|]. split; [done|]. intros Ha. by destruct Hno. }
    destruct (falsy (azure_account_name _)) eqn:E1;
      [apply Hgate; [reflexivity | intros (? & _); done]|].
    destruct (falsy (azure_account_key _)) eqn:E2;
      [apply Hgate; [reflexivity | intros (_ & ? & _); done]|].
    cbn [orb].
    destruct (b64decode az) eqn:E3;
      [apply Hgate; [reflexivity | intros (_ & _ & ? & _); done]|].
    destruct (from_connection_string az) eqn:E4;
      [apply Hgate; [by case_match | intros (_ & _ & _ & ? & _); done]|].
    destruct (list_blobs az) eqn:E5;
      [apply Hgate; [reflexivity | intros (_ & _ & _ & _ & ? & _); done]|].
    clear Hgate.
    match goal with |- context [sweep_blobs az cutoff ?bs ?acc] =>
      pose proof (sweep_blobs_spec az cutoff bs acc) as (H1 & H2 & H3 & l & H4);
      cbv zeta in *; destruct (sweep_blobs az cutoff bs acc) as [[s1 n] [e|]]
    end; fields.
    - split; [apply H1|]. split; [intros Hb Hn; by apply (H2 b Hb Hn)|].
      intros (_ & _ & _ & _ & _ & Hd) Hb. destruct (H3 Hd) as [? _]. done.
    - split; [apply H1|]. split; [intros Hb Hn; by apply (H2 b Hb Hn)|].
      intros (_ & _ & _ & _ & _ & Hd) Hb. destruct (H3 Hd) as (_ & I2 & I3 & I4).
      split; [by apply I2|]. split.
      + intros Hm. destruct (I4 b Hb Hm) as [reason Hin]. exists reason.
        apply elem_of_app. by left.
      + intros Hm. apply elem_of_app. left. by apply I3. }
  destruct Hmain as (M1 & M2 & M3).
  split; [exact M1|]. split; [exact M2|]. split.
  - intros Hb Hm.
    destruct (decide (b ∈ container (cleanup_old_backups_azure az now s).1)) as [|Hn];
      [done|].
    destruct (M2 Hb Hn) as (d & t & Hd & Ht & _). exfalso. apply Hm. by exists d, t.
  - intros Ha Hb. destruct (M3 Ha Hb) as (M4 & M5 & M6). split; [|by split].
    split; [by apply M2 | exact M4].
Qed.

Lemma remote_sweep_deletes_iff_witness :
  let s' := (cleanup_old_backups_azure azure_up (mk_datetime 2024 6 1 0 0 0 0)
               scenario_D_state).1 in
  ("sales_20230101_120000_000001.sql.gz" ∉ container s')
  ∧ ("malformed_backup.sql.gz" ∈ container s')
  ∧ (unparsable_warning "malformed_backup.sql.gz" ∈ log s').
Proof.
  cbv zeta.
  assert (Ha : storage_answers azure_up scenario_D_state) by (by repeat split).
  destruct (remote_sweep_deletes_iff azure_up (mk_datetime 2024 6 1 0 0 0 0) scenario_D_state
              "sales_20230101_120000_000001.sql.gz") as (_ & _ & _ & H1).
  destruct (remote_sweep_deletes_iff azure_up (mk_datetime 2024 6 1 0 0 0 0) scenario_D_state
              "malformed_backup.sql.gz") as (_ & _ & H2 & H3).
  split; [|split].
  - apply (H1 Ha); [by left|].
    exists (list_ascii_of_string "20230101"), (mk_datetime 2023 1 1 0 0 0 0).
    by repeat split.
  - apply H2; [by right; left|]. intros (d & t & Hd & _). discriminate Hd.
  - apply (H3 Ha); [by right; left | reflexivity].
Defined.

(** ** The procedure *)

Lemma acquire_lock_held primary fallback s :
  (_acquire_lock primary fallback s).2 = true →
  ∃ p, lock_file (_acquire_lock primary fallback s).1 = Some (mk_handle p true)
       ∧ actual_lock_file (_acquire_lock primary fallback s).1 = Some p.
Proof.
  unfold _acquire_lock.
  destruct primary as [|e|e]; simpl.
  - intros _. by exists LOCK_FILE.
  - destruct (permission_condition e); [|discriminate].
    destruct fallback; simpl; [|discriminate..]. intros _. by exists FALLBACK_LOCK.
  - destruct (permission_condition e); [|discriminate].
    destruct fallback; simpl; [|discriminate..]. intros _. by exists FALLBACK_LOCK.
Qed.

Lemma acquire_lock_events primary fallback s :
  ∃ evs, events (_acquire_lock primary fallback s).1 = events s ++ evs
         ∧ Forall (λ e, ¬ beyond_lock e) evs.
Proof.
  unfold _acquire_lock.
  destruct primary as [|e|e]; simpl.
  - exists [EvOpenLock LOCK_FILE]. split; [reflexivity|]. repeat constructor; auto.
  - destruct (permission_condition e); [destruct fallback|]; simpl;
      rewrite <- ?app_assoc; eexists; (split; [reflexivity|]); repeat constructor; auto.
  - destruct (permission_condition e); [destruct fallback|]; simpl;
      rewrite <- ?app_assoc; eexists; (split; [reflexivity|]); repeat constructor; auto.
Qed.

Lemma send_final_notification_failed s :
  errors s ≠ [] →
  _send_final_notification s = emit (EvNotify "PostgreSQL Backup FAILED") s.
Proof. unfold _send_final_notification. by destruct (errors s). Qed.

Lemma release_lock_held s p :
  lock_file s = Some (mk_handle p true) →
  events (_release_lock s) = events s ++ [EvReleaseLock (held_path s)].
Proof. intros H. unfold _release_lock. by rewrite H. Qed.

Lemma check_disk_space_frame usage required_mb warn_only s :
  same_surroundings s (_check_disk_space usage required_mb warn_only s).1
  ∧ events (_check_disk_space usage required_mb warn_only s).1 = events s ++ [EvDiskUsage].
Proof.
  unfold _check_disk_space. cbv zeta.
  destruct (match usage with inr free => true_divide_mb free | inl e => inl e end)
    as [e|free_mb]; [done|].
  destruct (Qlt_bool _ _); [destruct warn_only|]; done.
Qed.

Lemma log_configuration_frame s :
  same_surroundings s (log_configuration s) ∧ events (log_configuration s) = events s
  ∧ errors (log_configuration s) = errors s.
Proof.
  unfold log_configuration, same_surroundings. cbv zeta. fields.
  destruct (run_maintenance (cfg s)); by repeat split.
Qed.

(** The run when the capacity check stops it. *)
Lemma procedure_body_preflight_fails w s :
  (_check_disk_space (disk_usage w) MIN_DISK_SPACE_MB false (log_configuration s)).2 = false →
  same_surroundings s (procedure_body w s)
  ∧ events (procedure_body w s)
    = events s ++ [EvDiskUsage; EvNotify "PostgreSQL Backup FAILED"].
Proof.
  intros Hc. unfold procedure_body. cbv zeta.
  destruct (log_configuration_frame s) as (Hs0 & He0 & _).
  destruct (check_disk_space_frame (disk_usage w) MIN_DISK_SPACE_MB false
              (log_configuration s)) as (Hs1 & He1).
  destruct (_check_disk_space _ _ _ _) as [s1 [|]]; [discriminate|]. fields.
  rewrite send_final_notification_failed
    by (fields; intros H; by apply app_eq_nil in H as [_ ?]).
  fields. split.
  - eapply same_surroundings_trans; [exact Hs0 | exact Hs1].
  - by rewrite He1, He0, <- app_assoc.
Qed.

(** The run when the capacity check lets it through and no database is
    listed. *)
Lemma after_preflight_no_databases w s :
  databases w = [] →
  same_surroundings s (after_preflight w s)
  ∧ ∃ evs, events (after_preflight w s)
           = events s ++ [EvHealthCheck] ++ evs
             ++ [EvGetDatabases; EvNotify "PostgreSQL Backup FAILED"]
           ∧ Forall retry_pass_event evs.
Proof.
  intros Hd. unfold after_preflight. cbv zeta. rewrite Hd.
  match goal with |- context [retry_failed_uploads ?az ?now ?s0] =>
    assert (Hs0 : same_surroundings s s0) by (by destruct (health_issues w));
    assert (He0 : events s0 = events s ++ [EvHealthCheck]) by (by destruct (health_issues w));
    pose proof (retry_pass_frame az now s0) as (Hs1 & evs & He1 & Hall);
    destruct (retry_failed_uploads az now s0) as [s1 [ok ko]]
  end. fields.
  rewrite send_final_notification_failed
    by (fields; intros H; by apply app_eq_nil in H as [_ ?]).
  split.
  - destruct (0 <? ok); fields; by eapply same_surroundings_trans.
  - exists evs. split; [|exact Hall].
    destruct (0 <? ok); fields; rewrite He1, He0, <- !app_assoc; reflexivity.
Qed.

(** C3, as stated, fails on the path on which the lock is not obtained:
    the run ends with an error recorded, no notification step and no
    release. *)
Lemma notifies_and_releases_counterexample :
  (_acquire_lock (FlockRaises contention) Locked empty_state).2 = false
  ∧ errors (run_backup_procedure
              (sample_world (FlockRaises contention) plenty ["app_db"] azure_up 1)
              empty_state) ≠ []
  ∧ ¬ notifies_and_releases
        (sample_world (FlockRaises contention) plenty ["app_db"] azure_up 1) empty_state.
Proof.
  split; [reflexivity|]. split; [vm_compute; discriminate|].
  intros [[subject H] _]. vm_compute in H.
  apply list_elem_of_singleton in H. discriminate.
Qed.

(** C3, amended. When the capacity check fails, or when no database is
    listed, the run goes straight to the notification and then releases the
    lock: after the check (and, in the second case, the health checks, the
    retry pass and the enumeration) the only events are the notification
    and the release of the path that was locked. When the lock is not
    obtained the run ends at once: none of the later stages is entered and
    nothing is released. *)
Theorem early_exit_paths (w : world) (s : state) :
  let a := _acquire_lock (lock_primary w) (lock_fallback w) s in
  let check := _check_disk_space (disk_usage w) MIN_DISK_SPACE_MB false
                                 (log_configuration a.1) in
  let s' := run_backup_procedure w s in
  (a.2 = false →
     ∃ evs, events s' = events s ++ evs ∧ Forall (λ e, ¬ beyond_lock e) evs)
  ∧ (a.2 = true → check.2 = false →
     events s' = events a.1 ++ [EvDiskUsage; EvNotify "PostgreSQL Backup FAILED";
                                EvReleaseLock (held_path a.1)])
  ∧ (a.2 = true → check.2 = true → databases w = [] →
     ∃ evs, events s' = events a.1 ++ [EvDiskUsage; EvHealthCheck] ++ evs
                        ++ [EvGetDatabases; EvNotify "PostgreSQL Backup FAILED";
                            EvReleaseLock (held_path a.1)]
            ∧ Forall retry_pass_event evs).
Proof.
  cbv zeta. unfold run_backup_procedure.
  pose proof (acquire_lock_held (lock_primary w) (lock_fallback w) s) as Hheld.
  pose proof (acquire_lock_events (lock_primary w) (lock_fallback w) s) as Hevs.
  destruct (_acquire_lock (lock_primary w) (lock_fallback w) s) as [s1 [|]]; fields.
  - split; [discriminate|]. destruct (Hheld eq_refl) as (p & Hl & Ha). split.
    + intros _ Hc.
      destruct (procedure_body_preflight_fails w s1 Hc) as ((Hl' & Ha' & _) & He).
      rewrite (release_lock_held _ p) by (by rewrite Hl').
      unfold held_path. rewrite Ha', He, <- app_assoc. reflexivity.
    + intros _ Hc Hd. unfold procedure_body. cbv zeta.
      destruct (log_configuration_frame s1) as (Hs0 & He0 & _).
      destruct (check_disk_space_frame (disk_usage w) MIN_DISK_SPACE_MB false
                  (log_configuration s1)) as (Hs1 & He1).
      destruct (_check_disk_space _ _ _ _) as [s2 [|]]; [|discriminate]. fields.
      destruct (after_preflight_no_databases w s2 Hd) as (Hs2 & evs & He2 & Hall).
      assert (Hs : same_surroundings s1 (after_preflight w s2)).
      { eapply same_surroundings_trans; [exact Hs0|].
        eapply same_surroundings_trans; [exact Hs1 | exact Hs2]. }
      destruct Hs as (Hl' & Ha' & _).
      exists evs. split; [|exact Hall].
      rewrite (release_lock_held _ p) by (by rewrite Hl').
      unfold held_path. rewrite Ha', He2, He1, He0.
      repeat (rewrite <- ?app_assoc; simpl). reflexivity.
  - split; [|split; discriminate]. intros _. exact Hevs.
Qed.

Lemma early_exit_paths_witness :
  (∃ evs, events (run_backup_procedure
                    (sample_world (FlockRaises contention) plenty ["app_db"] azure_up 1)
                    empty_state) = [] ++ evs
          ∧ Forall (λ e, ¬ beyond_lock e) evs)
  ∧ events (run_backup_procedure
              (sample_world Locked (inr (500 * BYTES_PER_MB)) ["app_db"] azure_up 1)
              empty_state)
    = [EvOpenLock LOCK_FILE; EvDiskUsage; EvNotify "PostgreSQL Backup FAILED";
       EvReleaseLock LOCK_FILE]
  ∧ (∃ evs, events (run_backup_procedure (sample_world Locked plenty [] azure_up 1)
                      empty_state)
            = [EvOpenLock LOCK_FILE] ++ [EvDiskUsage; EvHealthCheck] ++ evs
              ++ [EvGetDatabases; EvNotify "PostgreSQL Backup FAILED";
                  EvReleaseLock LOCK_FILE]
            ∧ Forall retry_pass_event evs).
Proof.
  split; [|split].
  - exact (proj1 (early_exit_paths
             (sample_world (FlockRaises contention) plenty ["app_db"] azure_up 1) empty_state)
             eq_refl).
  - exact (proj1 (proj2 (early_exit_paths
             (sample_world Locked (inr (500 * BYTES_PER_MB)) ["app_db"] azure_up 1)
             empty_state)) eq_refl eq_refl).
  - exact (proj2 (proj2 (early_exit_paths (sample_world Locked plenty [] azure_up 1)
             empty_state)) eq_refl eq_refl eq_refl).
Defined.

(** ** The model at work *)

(** Scenario A of the specification: two databases, nothing in the ledger,
    every dump and upload succeeds. Both blobs are in the container, the
    ledger is empty, no error is recorded and the exit status is 0. *)
Example scenario_A :
  let r := main (sample_world Locked plenty ["app_db"; "analytics"] azure_up 1) empty_state in
  failed_uploads r.1 = ∅
  ∧ container r.1 = ["app_db_20240601_020000_000017.sql.gz";
                     "analytics_20240601_020000_000017.sql.gz"]
  ∧ errors r.1 = [] ∧ r.2 = 0
  ∧ events r.1
    = [EvOpenLock LOCK_FILE; EvDiskUsage; EvHealthCheck; EvRetryPass; EvGetDatabases;
       EvPreMaintenance "app_db"; EvBackup "app_db"; EvDiskUsage;
       EvUpload (backup_file_path "app_db" (night 1)) false;
       EvUploadBlob "app_db_20240601_020000_000017.sql.gz"; EvPostMaintenance "app_db";
       EvPreMaintenance "analytics"; EvBackup "analytics"; EvDiskUsage;
       EvUpload (backup_file_path "analytics" (night 1)) false;
       EvUploadBlob "analytics_20240601_020000_000017.sql.gz";
       EvPostMaintenance "analytics";
       EvCleanupAzure; EvCleanupLocal; EvReleaseLock LOCK_FILE].
Proof. vm_compute. by repeat split. Qed.

(** The pattern looks at the end of the name only; a name with a
    well-shaped stamp but no such day is matched and then rejected by
    [strptime]. *)
Example date_match_examples :
  DatePattern.date_match "my_db_2_20240229_235958_000007.sql.gz"
  = Some (list_ascii_of_string "20240229")
  ∧ DatePattern.date_match "sales_20230101_120000.sql.gz" = None
  ∧ DatePattern.date_match "sales_20230230_120000_1.sql.gz"
    = Some (list_ascii_of_string "20230230")
  ∧ Calendar.strptime_Ymd (list_ascii_of_string "20230230") = None.
Proof. by repeat split. Qed.

(** The retry log line of the fourth night of scenario B still announces
    the first attempt of three. *)
Example scenario_B_log :
  (WARNING, "Retry failed for analytics_20240601_020000_000017.sql.gz (attempt 1/3)")
  ∈ log (after_runs 4).
Proof. apply (bool_decide_unpack _). vm_compute. exact I. Qed.

(** * Further properties of the engine *)

(** ** Stages only add *)

Lemma advances_refl P s : advances P s s.
Proof.
  repeat split; try done; try apply adds_events_refl; exists []; by rewrite app_nil_r.
Qed.

Lemma advances_trans P s1 s2 s3 : advances P s1 s2 → advances P s2 s3 → advances P s1 s3.
Proof.
  intros (L1 & A1 & C1 & E1 & (es1 & R1) & (ws1 & W1) & (l1 & G1))
         (L2 & A2 & C2 & E2 & (es2 & R2) & (ws2 & W2) & (l2 & G2)).
  repeat split; try congruence.
  - by eapply adds_events_trans.
  - exists (es1 ++ es2). by rewrite R2, R1, app_assoc.
  - exists (ws1 ++ ws2). by rewrite W2, W1, app_assoc.
  - exists (l1 ++ l2). by rewrite G2, G1, app_assoc.
Qed.

Lemma advances_weaken (P Q : event → Prop) s s' :
  (∀ e, P e → Q e) → advances P s s' → advances Q s s'.
Proof.
  intros H (L & A & C & E & R). repeat split; try done; try apply R.
  by eapply adds_events_weaken.
Qed.

Lemma advances_logger P s x l m : advances P s x → advances P s (logger l m x).
Proof.
  intros H. eapply advances_trans; [exact H|].
  repeat split; try done; try apply adds_events_refl;
    first [ by exists []; rewrite app_nil_r | by eexists ].
Qed.

Lemma advances_emit (P : event → Prop) s x e :
  P e → advances P s x → advances P s (emit e x).
Proof.
  intros HP H. eapply advances_trans; [exact H|].
  repeat split; try done; try (by exists []; rewrite app_nil_r).
  by eapply adds_events_one.
Qed.

Lemma advances_errors_append P s x m : advances P s x → advances P s (errors_append m x).
Proof.
  intros H. eapply advances_trans; [exact H|].
  repeat split; try done; try apply adds_events_refl;
    first [ by exists []; rewrite app_nil_r | by eexists ].
Qed.

Lemma advances_set_errors P s x l :
  advances P s x → advances P s (set_errors (errors x ++ l) x).
Proof.
  intros H. eapply advances_trans; [exact H|].
  repeat split; try done; try apply adds_events_refl;
    first [ by exists []; rewrite app_nil_r | by eexists ].
Qed.

Lemma advances_warnings_append P s x m : advances P s x → advances P s (warnings_append m x).
Proof.
  intros H. eapply advances_trans; [exact H|].
  repeat split; try done; try apply adds_events_refl;
    first [ by exists []; rewrite app_nil_r | by eexists ].
Qed.

Lemma advances_warnings_extend P s x ms :
  advances P s x → advances P s (warnings_extend ms x).
Proof.
  intros H. eapply advances_trans; [exact H|].
  repeat split; try done; try apply adds_events_refl;
    first [ by exists []; rewrite app_nil_r | by eexists ].
Qed.

Lemma advances_set_files P s x m : advances P s x → advances P s (set_files m x).
Proof.
  intros H. eapply advances_trans; [exact H|].
  repeat split; try done; try apply adds_events_refl; by exists []; rewrite app_nil_r.
Qed.

Lemma advances_set_container P s x c : advances P s x → advances P s (set_container c x).
Proof.
  intros H. eapply advances_trans; [exact H|].
  repeat split; try done; try apply adds_events_refl; by exists []; rewrite app_nil_r.
Qed.

(** A change of the ledger that is saved at once. *)
Lemma advances_saved P s x m :
  advances P s x → advances P s (_save_failed_uploads (set_failed_uploads m x)).
Proof.
  intros H. eapply advances_trans; [exact H|].
  repeat split; try done; try apply adds_events_refl; by exists []; rewrite app_nil_r.
Qed.

Lemma advances_mark_failed P s x now f :
  advances P s x → advances P s (_mark_upload_failed now f x).
Proof.
  intros H. unfold _mark_upload_failed. cbv zeta.
  destruct (failed_uploads x !! f); by apply advances_saved.
Qed.

Lemma advances_mark_success P s x f :
  advances P s x → advances P s (_mark_upload_success f x).
Proof.
  intros H. unfold _mark_upload_success. cbv zeta.
  destruct (failed_uploads x !! f); [by apply advances_saved | exact H].
Qed.

(** Chains the lemmas above along a term built from setters. *)
Ltac advance :=
  repeat lazymatch goal with
    | |- advances _ ?s ?t =>
        first
          [ constr_eq s t; apply advances_refl
          | match goal with
            | H : advances _ ?a ?b |- _ => constr_eq a s; constr_eq b t; exact H
            end
          | lazymatch t with
            | logger _ _ _ => apply advances_logger
            | emit _ _ => apply advances_emit; [exact I|]
            | errors_append _ _ => apply advances_errors_append
            | set_errors _ _ => apply advances_set_errors
            | warnings_append _ _ => apply advances_warnings_append
            | warnings_extend _ _ => apply advances_warnings_extend
            | set_files _ _ => apply advances_set_files
            | set_container _ _ => apply advances_set_container
            | _mark_upload_failed _ _ _ => apply advances_mark_failed
            | _mark_upload_success _ _ => apply advances_mark_success
            | _save_failed_uploads (set_failed_uploads _ _) => apply advances_saved
            end ]
    end.

Lemma check_disk_space_advances usage required_mb warn_only s x :
  advances stage_event s x →
  advances stage_event s (_check_disk_space usage required_mb warn_only x).1.
Proof.
  intros H. unfold _check_disk_space. cbv zeta.
  destruct (match usage with inr free => true_divide_mb free | inl e => inl e end)
    as [e | free_mb]; [cbn [fst snd negb]; advance|].
  destruct (Qlt_bool _ _); [destruct warn_only|]; cbn [fst snd negb]; advance.
Qed.

Lemma log_configuration_advances s x :
  advances stage_event s x → advances stage_event s (log_configuration x).
Proof.
  intros H. unfold log_configuration. cbv zeta.
  assert (Hc : ∀ l m y, cfg (logger l m y) = cfg y) by done.
  rewrite !Hc. destruct (run_maintenance (cfg x)); advance.
Qed.

Lemma send_blob_advances az f s x :
  advances stage_event s x → advances stage_event s (send_blob az f x).1.
Proof.
  intros H. unfold send_blob.
  repeat (case_match; simplify_eq; cbn [fst snd negb] in *); advance.
Qed.

Lemma upload_advances az now f is_retry s x :
  advances stage_event s x → advances stage_event s (upload_to_azure az now f is_retry x).1.
Proof.
  intros H. unfold upload_to_azure. cbv zeta.
  assert (H0 : ∀ m, advances stage_event s
                 (logger INFO m (emit (EvUpload f is_retry) x))) by (intros m; advance).
  destruct is_retry.
  all: destruct (falsy _ || falsy _); [cbn [fst snd negb]; advance|].
  all: destruct (b64decode az); [cbn [fst snd negb]; advance|].
  all: destruct (from_connection_string az); [cbn [fst snd negb]; advance|].
  all: match goal with |- context [send_blob ?a ?g ?s0] =>
         pose proof (send_blob_advances a g s s0 (H0 _)) as Hs;
         destruct (send_blob a g s0) as [s1 [e|]]
       end; cbn [fst snd negb] in *; advance.
Qed.

Lemma should_retry_advances f s x :
  advances stage_event s x → advances stage_event s (_should_retry_upload f x).1.
Proof.
  intros H. unfold _should_retry_upload. cbv zeta.
  destruct (failed_uploads x !! f) as [e|]; [|exact H].
  destruct (MAX_UPLOAD_RETRIES <=? retry_count e); [exact H|].
  destruct (negb (exists_ f x)); cbn [fst snd negb]; advance.
Qed.

Lemma retry_one_advances az now k s acc :
  advances stage_event s acc.1 → advances stage_event s (retry_one az now k acc).1.
Proof.
  destruct acc as [x [ok ko]]. intros H. cbn [fst snd] in H. unfold retry_one.
  pose proof (should_retry_advances k s x H) as H1.
  destruct (_should_retry_upload k x) as [x1 [|]]; cbn [fst snd negb] in H1; [|exact H1].
  destruct (negb (exists_ k x1)).
  - destruct (failed_uploads _ !! k); cbn [fst snd negb]; advance.
  - match goal with |- context [upload_to_azure az now k true ?s0] =>
      assert (H2 : advances stage_event s s0) by advance;
      pose proof (upload_advances az now k true s s0 H2) as H3;
      destruct (upload_to_azure az now k true s0) as [x2 [|]]
    end; cbn [fst snd negb] in *; advance.
Qed.

Lemma foldl_advances {A B} (f : state * A → B → state * A) l s acc :
  (∀ a b, advances stage_event s a.1 → advances stage_event s (f a b).1) →
  advances stage_event s acc.1 → advances stage_event s (foldl f acc l).1.
Proof.
  intros Hf. revert acc. induction l as [|b l IH]; intros acc H; cbn [foldl sweep_blobs]; [exact H|].
  apply IH, Hf, H.
Qed.

Lemma retry_pass_advances az now s x :
  advances stage_event s x → advances stage_event s (retry_failed_uploads az now x).1.
Proof.
  intros H. unfold retry_failed_uploads. cbv zeta.
  case_bool_decide; [cbn [fst snd negb]; advance|].
  match goal with |- context [foldl ?f ?a ?l] =>
    assert (H1 : advances stage_event s (foldl f a l).1);
    [ apply foldl_advances; [intros; by apply retry_one_advances | cbn [fst snd negb]; advance]
    | destruct (foldl f a l) as [x1 [ok ko]] ]
  end.
  cbn [fst snd negb] in H1. destruct (0 <? ok), (0 <? ko); cbn [fst snd negb]; advance.
Qed.

Lemma backup_database_advances w db s x :
  advances stage_event s x → advances stage_event s (backup_database w db x).1.
Proof.
  intros H. unfold backup_database. cbv zeta.
  match goal with |- context [_check_disk_space ?u ?r ?b ?s0] =>
    assert (H0 : advances stage_event s s0) by advance;
    pose proof (check_disk_space_advances u r b s s0 H0) as H1;
    destruct (_check_disk_space u r b s0) as [x1 ok]
  end.
  cbn [fst snd negb] in H1. destruct (dump w db); cbn [fst snd negb]; advance.
Qed.

Lemma process_database_advances w db s acc :
  advances stage_event s acc.1 → advances stage_event s (process_database w db acc).1.
Proof.
  destruct acc as [x [ok ko]]. intros H. cbn [fst snd] in H. unfold process_database. cbv zeta.
  match goal with |- context [backup_database w db ?s0] =>
    assert (H0 : advances stage_event s s0) by advance;
    pose proof (backup_database_advances w db s s0 H0) as H1;
    destruct (backup_database w db s0) as [x1 [f|]]
  end; cbn [fst snd negb] in H1; [|exact H1].
  pose proof (upload_advances (cloud w) (backup_time w db) f false s x1 H1) as H2.
  destruct (upload_to_azure _ _ f false x1) as [x2 [|]]; cbn [fst snd negb] in *; advance.
Qed.

Lemma sweep_blob_advances az cutoff b s acc :
  advances stage_event s acc.1 → advances stage_event s (sweep_blob az cutoff b acc).1.1.
Proof.
  destruct acc as [x n]. intros H. cbn [fst snd] in H. unfold sweep_blob.
  repeat (case_match; simplify_eq; cbn [fst snd negb] in *); advance.
Qed.

Lemma sweep_blobs_advances az cutoff bs s acc :
  advances stage_event s acc.1 → advances stage_event s (sweep_blobs az cutoff bs acc).1.1.
Proof.
  revert acc. induction bs as [|b bs IH]; intros acc H; cbn [foldl sweep_blobs]; [exact H|].
  pose proof (sweep_blob_advances az cutoff b s acc H) as H1.
  destruct (sweep_blob az cutoff b acc) as [acc1 [e|]]; cbn [fst snd negb] in *; [exact H1|].
  by apply IH.
Qed.

Lemma cleanup_azure_advances az now s x :
  advances stage_event s x → advances stage_event s (cleanup_old_backups_azure az now x).1.
Proof.
  intros H. unfold cleanup_old_backups_azure. cbv zeta.
  destruct (falsy _ || falsy _); [cbn [fst snd negb]; advance|].
  destruct (b64decode az); [cbn [fst snd negb]; advance|].
  destruct (from_connection_string az); [cbn [fst snd negb]; case_match; advance|].
  destruct (list_blobs az); [cbn [fst snd negb]; advance|].
  match goal with |- context [sweep_blobs az ?c ?bs ?acc] =>
    assert (H1 : advances stage_event s (sweep_blobs az c bs acc).1.1)
      by (apply sweep_blobs_advances; cbn [fst snd negb]; advance);
    destruct (sweep_blobs az c bs acc) as [[x1 n] [e|]]
  end; cbn [fst snd negb] in *; advance.
Qed.

Lemma sweep_temp_file_advances u q s x :
  advances stage_event s x → advances stage_event s (sweep_temp_file u q x).
Proof. intros H. unfold sweep_temp_file. cbv zeta. destruct (u q); advance. Qed.

Lemma sweep_local_file_advances u cutoff q s acc :
  advances stage_event s acc.1 → advances stage_event s (sweep_local_file u cutoff q acc).1.
Proof.
  destruct acc as [x n]. intros H. cbn [fst snd] in H. unfold sweep_local_file. cbv zeta.
  repeat (case_match; simplify_eq; cbn [fst snd negb] in *); advance.
Qed.

Lemma cleanup_local_advances u now s x :
  advances stage_event s x → advances stage_event s (cleanup_local_backups u now x).1.
Proof.
  intros H. unfold cleanup_local_backups. cbv zeta.
  match goal with |- context [foldl ?f ?s0 (glob TEMP_DIR ".sql" ?s0)] =>
    assert (H1 : advances stage_event s (foldl f s0 (glob TEMP_DIR ".sql" s0)));
    [ assert (H0 : advances stage_event s s0) by advance;
      generalize (glob TEMP_DIR ".sql" s0); intros l;
      revert H0; generalize s0; induction l as [|q l IH]; intros y Hy; cbn [foldl];
      [exact Hy | by apply IH, sweep_temp_file_advances]
    | generalize dependent (foldl f s0 (glob TEMP_DIR ".sql" s0)); intros x1 H1 ]
  end.
  match goal with |- context [foldl ?f ?a ?l] =>
    assert (H2 : advances stage_event s (foldl f a l).1)
      by (apply foldl_advances; [intros; by apply sweep_local_file_advances | exact H1]);
    destruct (foldl f a l) as [x2 n]
  end.
  cbn [fst snd negb] in *. advance.
Qed.

(** The [try] block, whichever way it goes, is a sequence of stages
    followed by the closing notification. *)
Lemma backup_and_sweep_closing w dbs s x :
  advances stage_event s x →
  ∃ sF, advances stage_event s sF ∧ backup_and_sweep w dbs x = closing sF.
Proof.
  intros H. unfold backup_and_sweep. cbv zeta.
  match goal with |- context [foldl ?f ?a ?l] =>
    assert (H1 : advances stage_event s (foldl f a l).1)
      by (apply foldl_advances; [intros; by apply process_database_advances | cbn [fst snd negb]; advance]);
    destruct (foldl f a l) as [x1 [ok ko]]
  end. cbn [fst snd negb] in H1.
  pose proof (cleanup_azure_advances (cloud w) (end_time w) s x1 H1) as H2.
  destruct (cleanup_old_backups_azure _ _ x1) as [x2 n2]. cbn [fst snd negb] in H2.
  pose proof (cleanup_local_advances (unlink_raises w) (end_time w) s x2 H2) as H3.
  destruct (cleanup_local_backups _ _ x2) as [x3 n3]. cbn [fst snd negb] in H3.
  eexists. split; [|unfold closing; reflexivity]. advance.
Qed.

Lemma closing_failed s : errors s ≠ [] → closing s = _send_final_notification s.
Proof. unfold closing. by destruct (errors s). Qed.

Lemma errors_append_nonempty m s : errors (errors_append m s) ≠ [].
Proof. simpl. intros H. by apply app_eq_nil in H as [_ ?]. Qed.

Lemma after_preflight_closing w s x :
  advances stage_event s x →
  ∃ sF, advances stage_event s sF ∧ after_preflight w x = closing sF.
Proof.
  intros H. unfold after_preflight. cbv zeta.
  match goal with |- context [retry_failed_uploads ?az ?now ?s0] =>
    assert (H0 : advances stage_event s s0) by (destruct (health_issues w); advance);
    pose proof (retry_pass_advances az now s s0 H0) as H1;
    destruct (retry_failed_uploads az now s0) as [x1 [ok ko]]
  end. cbn [fst snd negb] in H1.
  match goal with |- context [set_errors ?l ?s0] =>
    assert (H2 : advances stage_event s (set_errors l s0))
      by (destruct (0 <? ok); advance);
    generalize dependent (set_errors l s0); intros x2 H2
  end.
  destruct (databases w) as [|db dbs].
  - eexists. split; [|symmetry; apply closing_failed, errors_append_nonempty]. advance.
  - by apply backup_and_sweep_closing.
Qed.

Lemma procedure_body_closing w s x :
  advances stage_event s x →
  ∃ sF, advances stage_event s sF ∧ procedure_body w x = closing sF.
Proof.
  intros H. unfold procedure_body. cbv zeta.
  pose proof (check_disk_space_advances (disk_usage w) MIN_DISK_SPACE_MB false s
                (log_configuration x) (log_configuration_advances s x H)) as H1.
  destruct (_check_disk_space _ _ _ _) as [x1 [|]]; cbn [fst snd negb] in H1.
  - by apply after_preflight_closing.
  - eexists. split; [|symmetry; apply closing_failed, errors_append_nonempty]. advance.
Qed.

(** The closing step adds the notification and nothing else. *)
Lemma closing_effect s :
  events (closing s) = events s ++ final_notification s
  ∧ errors (closing s) = errors s ∧ warnings (closing s) = warnings s
  ∧ cfg (closing s) = cfg s ∧ lock_file (closing s) = lock_file s
  ∧ actual_lock_file (closing s) = actual_lock_file s
  ∧ failed_uploads (closing s) = failed_uploads s
  ∧ saved_uploads (closing s) = saved_uploads s
  ∧ files (closing s) = files s ∧ container (closing s) = container s.
Proof.
  unfold closing, final_notification, _send_final_notification.
  destruct (errors s) as [|e es] eqn:Ee, (warnings s) as [|v vs] eqn:Ew; simpl;
    rewrite ?Ee, ?Ew, ?app_nil_r; try done.
  destruct (notify_on_warnings (cfg s)); simpl; rewrite ?Ee, ?Ew, ?app_nil_r; done.
Qed.

(** A run that holds the lock: stages, the closing notification, the
    release. *)
Lemma run_shape w s :
  let a := _acquire_lock (lock_primary w) (lock_fallback w) s in
  let s' := run_backup_procedure w s in
  a.2 = true →
  ∃ sF, advances stage_event a.1 sF
        ∧ s' = _release_lock (closing sF)
        ∧ events s' = events sF ++ final_notification sF ++ [EvReleaseLock (held_path a.1)]
        ∧ errors s' = errors sF ∧ warnings s' = warnings sF ∧ cfg s' = cfg sF
        ∧ failed_uploads s' = failed_uploads sF ∧ saved_uploads s' = saved_uploads sF
        ∧ files s' = files sF ∧ container s' = container sF
        ∧ lock_file s' = Some (mk_handle (held_path a.1) false).
Proof.
  cbv zeta. unfold run_backup_procedure.
  pose proof (acquire_lock_held (lock_primary w) (lock_fallback w) s) as Hheld.
  destruct (_acquire_lock (lock_primary w) (lock_fallback w) s) as [s1 [|]]; [|discriminate].
  intros _. simpl in *. destruct (Hheld eq_refl) as (p & Hl & Ha).
  destruct (procedure_body_closing w s1 s1 (advances_refl _ _)) as (sF & Hadv & ->).
  exists sF. split; [exact Hadv|]. split; [reflexivity|].
  destruct Hadv as (L & A & C & _).
  destruct (closing_effect sF) as (E1 & E2 & E3 & E4 & E5 & E6 & E7 & E8 & E9 & E10).
  unfold _release_lock, held_path. rewrite E5, L, Hl, E6, A, Ha. simpl.
  rewrite E1, <- app_assoc. by repeat split.
Qed.

(** ** The run as a whole *)

Lemma acquire_lock_rest primary fallback s :
  let a := _acquire_lock primary fallback s in
  failed_uploads a.1 = failed_uploads s ∧ saved_uploads a.1 = saved_uploads s
  ∧ files a.1 = files s ∧ container a.1 = container s ∧ cfg a.1 = cfg s
  ∧ warnings a.1 = warnings s
  ∧ (if a.2 then errors a.1 = errors s else ∃ m, errors a.1 = errors s ++ [m])
  ∧ ∃ opens, events a.1 = events s ++ opens ∧ Forall (λ e, ∃ p, e = EvOpenLock p) opens.
Proof.
  cbv zeta. unfold _acquire_lock.
  destruct primary as [|e|e]; simpl.
  1: by repeat split; eexists; split; [reflexivity | repeat constructor; eexists].
  all: destruct (permission_condition e); [destruct fallback|]; simpl;
    rewrite <- ?app_assoc; repeat split; eauto;
    eexists; (split; [reflexivity|]); repeat constructor; by eexists.
Qed.

(** X1. A run that has taken the lock gives it back exactly once, as the
    last thing it does, on every path through the procedure: its events are
    those of the taking of the lock, then events among which no lock is
    opened or released, then the release of the path that is held. The
    handle is open after [_acquire_lock] and closed, on the same path, at
    the end; releasing once more leaves no event. *)
Theorem guard_released_once (w : world) (s : state) :
  let a := _acquire_lock (lock_primary w) (lock_fallback w) s in
  let s' := run_backup_procedure w s in
  a.2 = true →
  (∃ mid, events s' = events a.1 ++ mid ++ [EvReleaseLock (held_path a.1)]
          ∧ Forall (λ e, ∀ p, e ≠ EvOpenLock p ∧ e ≠ EvReleaseLock p) mid)
  ∧ lock_file a.1 = Some (mk_handle (held_path a.1) true)
  ∧ lock_file s' = Some (mk_handle (held_path a.1) false)
  ∧ events (_release_lock s') = events s'.
Proof.
  cbv zeta. intros Ha.
  destruct (run_shape w s Ha) as (sF & Hadv & _ & Hev & _ & _ & _ & _ & _ & _ & _ & Hl).
  destruct (acquire_lock_held _ _ s Ha) as (p & Hp & Hq).
  destruct Hadv as (_ & _ & _ & (stages & Hst & Hall) & _).
  split; [|split; [|split]].
  - exists (stages ++ final_notification sF). split.
    + rewrite Hev, Hst, <- !app_assoc. reflexivity.
    + apply Forall_app. split.
      * eapply Forall_impl; [exact Hall|]. intros [] He q; done.
      * unfold final_notification.
        destruct (errors sF), (warnings sF); try destruct (notify_on_warnings _);
          repeat constructor; done.
  - unfold held_path. by rewrite Hq, Hp.
  - exact Hl.
  - unfold _release_lock. by rewrite Hl.
Qed.

Lemma guard_released_once_witness :
  let w := sample_world (OpenRaises denied) plenty ["app_db"] azure_up 1 in
  let s' := run_backup_procedure w empty_state in
  (∃ mid, events s' = [EvOpenLock LOCK_FILE; EvOpenLock FALLBACK_LOCK] ++ mid
                      ++ [EvReleaseLock FALLBACK_LOCK]
          ∧ Forall (λ e, ∀ p, e ≠ EvOpenLock p ∧ e ≠ EvReleaseLock p) mid)
  ∧ lock_file s' = Some (mk_handle FALLBACK_LOCK false).
Proof.
  cbv zeta.
  destruct (guard_released_once (sample_world (OpenRaises denied) plenty ["app_db"] azure_up 1)
              empty_state eq_refl) as (H1 & _ & H3 & _).
  exact (conj H1 H3).
Defined.

Lemma final_notification_same s s' :
  errors s' = errors s → warnings s' = warnings s → cfg s' = cfg s →
  final_notification s' = final_notification s.
Proof. unfold final_notification. by intros -> -> ->. Qed.

Lemma notify_in_shape opens stages fin rel subj :
  Forall (λ e, ∃ p, e = EvOpenLock p) opens → Forall stage_event stages →
  EvNotify subj ∈ opens ++ stages ++ fin ++ [EvReleaseLock rel] ↔ EvNotify subj ∈ fin.
Proof.
  intros Ho Hs. rewrite !elem_of_app. split; [|tauto].
  intros [H | [H | [H | H]]].
  - rewrite Forall_forall in Ho. destruct (Ho _ H) as [p Hp]. discriminate.
  - rewrite Forall_forall in Hs. destruct (Hs _ H).
  - exact H.
  - apply list_elem_of_singleton in H. discriminate.
Qed.

Lemma final_notification_failed s subj :
  EvNotify subj ∈ final_notification s →
  (subj = "PostgreSQL Backup FAILED" ∧ errors s ≠ [])
  ∨ (subj = "PostgreSQL Backup COMPLETED WITH WARNINGS" ∧ errors s = [] ∧ warnings s ≠ []
     ∧ notify_on_warnings (cfg s) = true).
Proof.
  unfold final_notification.
  destruct (errors s), (warnings s); try destruct (notify_on_warnings _) eqn:E;
    intros H; repeat (apply elem_of_cons in H as [H | H]; [injection H as ->|]);
    try (by apply elem_of_nil in H); auto.
Qed.

(** X2. What a run that holds the lock sends. Between the taking of the
    lock and its release come the stages, none of which notifies, and then
    at most one notification, chosen from the lists the run ends with:
    FAILED when there are errors, COMPLETED WITH WARNINGS when there are
    only warnings and [notify_on_warnings] is set, nothing otherwise. So a
    run that ends with errors has sent the FAILED notification, and no run
    sends the SUCCESS notification. *)
Theorem notification_decision (w : world) (s : state) :
  let a := _acquire_lock (lock_primary w) (lock_fallback w) s in
  let s' := run_backup_procedure w s in
  a.2 = true →
  (∃ stages, events s' = events a.1 ++ stages ++ final_notification s'
                         ++ [EvReleaseLock (held_path a.1)]
             ∧ Forall stage_event stages)
  ∧ (errors s' ≠ [] → EvNotify "PostgreSQL Backup FAILED" ∈ events s')
  ∧ (EvNotify "PostgreSQL Backup SUCCESS" ∈ events s' →
     EvNotify "PostgreSQL Backup SUCCESS" ∈ events s).
Proof.
  cbv zeta. intros Ha.
  destruct (run_shape w s Ha) as (sF & Hadv & _ & Hev & He & Hw & Hc & _).
  destruct Hadv as (_ & _ & _ & (stages & Hst & Hall) & _).
  rewrite (final_notification_same sF _ He Hw Hc).
  destruct (acquire_lock_rest (lock_primary w) (lock_fallback w) s)
    as (_ & _ & _ & _ & _ & _ & _ & opens & Hopens & Hall').
  assert (Hshape : events (run_backup_procedure w s)
                   = events s ++ opens ++ stages ++ final_notification sF
                     ++ [EvReleaseLock (held_path (_acquire_lock (lock_primary w)
                                                     (lock_fallback w) s).1)])
    by (rewrite Hev, Hst, Hopens, <- !app_assoc; reflexivity).
  split; [|split].
  - exists stages. split; [|exact Hall]. by rewrite Hev, Hst, <- !app_assoc.
  - intros Hne. rewrite Hshape. apply elem_of_app. right.
    apply notify_in_shape; [done..|].
    unfold final_notification. rewrite <- He. destruct (errors _); [done|]. by left.
  - rewrite Hshape. intros [H | H]%elem_of_app; [exact H|].
    apply notify_in_shape in H; [|done..].
    apply final_notification_failed in H as [[? _] | [? _]]; discriminate.
Qed.

Lemma notification_decision_witness :
  let w := mk_world Locked Locked plenty (λ _, plenty) ["PostgreSQL is not accepting connections: "]
             ["app_db"] [] (λ _, []) (λ _, []) (λ _, None) (λ _, night 1) azure_up (λ _, None)
             (night 1) (night 1) in
  let a := _acquire_lock (lock_primary w) (lock_fallback w) empty_state in
  let s' := run_backup_procedure w empty_state in
  final_notification s' = []
  ∧ (∃ stages, events s' = events a.1 ++ stages ++ final_notification s'
                           ++ [EvReleaseLock (held_path a.1)]
               ∧ Forall stage_event stages).
Proof.
  cbv zeta. split; [vm_compute; reflexivity|].
  exact (proj1 (notification_decision
    (mk_world Locked Locked plenty (λ _, plenty) ["PostgreSQL is not accepting connections: "]
       ["app_db"] [] (λ _, []) (λ _, []) (λ _, None) (λ _, night 1) azure_up (λ _, None)
       (night 1) (night 1)) empty_state eq_refl)).
Defined.

(** X3. The errors of a run and the notification agree. A run that starts
    with no FAILED notification behind it ends with an error recorded
    exactly when the lock was not obtained or the FAILED notification was
    sent. *)
Theorem errors_reported (w : world) (s : state) :
  EvNotify "PostgreSQL Backup FAILED" ∉ events s →
  let a := _acquire_lock (lock_primary w) (lock_fallback w) s in
  let s' := run_backup_procedure w s in
  errors s' ≠ [] ↔ a.2 = false ∨ EvNotify "PostgreSQL Backup FAILED" ∈ events s'.
Proof.
  intros Hnot. cbv zeta.
  destruct (acquire_lock_rest (lock_primary w) (lock_fallback w) s)
    as (_ & _ & _ & _ & _ & _ & Herr & opens & Hopens & Hall).
  destruct (_acquire_lock (lock_primary w) (lock_fallback w) s).2 eqn:Ha.
  - destruct (run_shape w s Ha) as (sF & Hadv & _ & Hev & He & _).
    destruct Hadv as (_ & _ & _ & (stages & Hst & Hstages) & _).
    assert (Hshape : events (run_backup_procedure w s)
                     = events s ++ opens ++ stages ++ final_notification sF
                       ++ [EvReleaseLock (held_path (_acquire_lock (lock_primary w)
                                                       (lock_fallback w) s).1)])
      by (rewrite Hev, Hst, Hopens, <- !app_assoc; reflexivity).
    rewrite Hshape, He. split.
    + intros Hne. right. apply elem_of_app. right. apply notify_in_shape; [done..|].
      unfold final_notification. destruct (errors sF); [done|]. by left.
    + intros [? | [H | H]%elem_of_app]; [done | done |].
      apply notify_in_shape in H; [|done..].
      apply final_notification_failed in H as [[_ ?] | [? _]]; [done | discriminate].
  - split; [by left|]. intros _. unfold run_backup_procedure.
    destruct (_acquire_lock (lock_primary w) (lock_fallback w) s) as [s1 b].
    cbn [fst snd] in *. subst b. cbn [errors logger set_log].
    destruct Herr as [m ->]. by destruct (errors s).
Qed.

Lemma errors_reported_witness :
  let w := sample_world Locked (inr (500 * BYTES_PER_MB)) ["app_db"] azure_up 1 in
  EvNotify "PostgreSQL Backup FAILED" ∈ events (run_backup_procedure w empty_state).
Proof.
  cbv zeta.
  destruct (proj1 (errors_reported
                     (sample_world Locked (inr (500 * BYTES_PER_MB)) ["app_db"] azure_up 1)
                     empty_state (not_elem_of_nil _))) as [H | H].
  - vm_compute. discriminate.
  - vm_compute in H. discriminate.
  - exact H.
Defined.

(** ** One upload attempt *)

Lemma events_kept P s s' e : advances P s s' → e ∈ events s → e ∈ events s'.
Proof.
  intros (_ & _ & _ & (evs & -> & _) & _) H. apply elem_of_app. by left.
Qed.

Lemma send_blob_container az f s :
  let r := send_blob az f s in
  files r.1 = files s
  ∧ (r.2 = None → is_Some (files s !! f) ∧ path_name f ∈ container r.1)
  ∧ (∀ b, b ∈ container r.1 ↔ b ∈ container s ∨ (r.2 = None ∧ b = path_name f))
  ∧ (NoDup (container s) → NoDup (container r.1)).
Proof.
  cbv zeta. unfold send_blob.
  assert (Hno : ∀ (e : exn) b, b ∈ container s ↔ b ∈ container s ∨ (Some e = None ∧ b = path_name f)).
  { intros e b. split; [by left|]. by intros [? | [? _]]. }
  assert (Hmain : ∀ s0 : state, files s0 = files s → container s0 = container s →
    let r := (if negb (exists_ f s0)
              then (s0, Some (mk_exn OSError ("[Errno 2] No such file or directory: '"
                                              +:+ f +:+ "'") None))
              else match upload_blob az f with
                   | Some e => (emit (EvUploadBlob (path_name f)) s0, Some e)
                   | None =>
                       (if bool_decide (path_name f ∈ container (emit (EvUploadBlob (path_name f)) s0))
                        then emit (EvUploadBlob (path_name f)) s0
                        else set_container (container (emit (EvUploadBlob (path_name f)) s0)
                                            ++ [path_name f])
                                           (emit (EvUploadBlob (path_name f)) s0), None)
                   end) in
    files r.1 = files s
    ∧ (r.2 = None → is_Some (files s !! f) ∧ path_name f ∈ container r.1)
    ∧ (∀ b, b ∈ container r.1 ↔ b ∈ container s ∨ (r.2 = None ∧ b = path_name f))
    ∧ (NoDup (container s) → NoDup (container r.1))).
  { intros s0 Hf Hc. cbv zeta. unfold exists_. rewrite Hf.
    case_bool_decide as Hex; simpl.
    - destruct (upload_blob az f); simpl.
      + rewrite Hc. repeat split; try done; apply Hno.
      + case_bool_decide as Hin; simpl in *; rewrite Hc in *.
        * repeat split; try done. { by left. } intros [? | [_ ->]]; done.
        * repeat split; try done.
          -- apply elem_of_app. right. by left.
          -- rewrite elem_of_app, list_elem_of_singleton. intros [? | ?]; auto.
          -- rewrite elem_of_app, list_elem_of_singleton. intros [? | [_ ?]]; auto.
          -- intros Hnd. apply NoDup_app. split; [done|]. split; [|apply NoDup_singleton].
             intros x Hx ->%list_elem_of_singleton. done.
    - rewrite Hc. repeat split; try done; apply Hno. }
  destruct (create_container az) as [e|]; [|by apply Hmain].
  destruct (is_azure_error e);
    [destruct (exn_cls e); try (by apply Hmain); case_bool_decide; try (by apply Hmain)|];
    simpl; repeat split; try done; apply Hno.
Qed.

Lemma mark_upload_failed_world now f s :
  container (_mark_upload_failed now f s) = container s
  ∧ files (_mark_upload_failed now f s) = files s
  ∧ events (_mark_upload_failed now f s) = events s
  ∧ errors (_mark_upload_failed now f s) = errors s.
Proof. unfold _mark_upload_failed. by destruct (failed_uploads s !! f). Qed.

Lemma mark_upload_success_world f s :
  container (_mark_upload_success f s) = container s
  ∧ files (_mark_upload_success f s) = files s
  ∧ events (_mark_upload_success f s) = events s
  ∧ errors (_mark_upload_success f s) = errors s.
Proof. unfold _mark_upload_success. by destruct (failed_uploads s !! f). Qed.

(** X5. What one upload attempt adds to [self.errors]. When the client
    cannot be set up (credentials missing, key not base64, client creation
    failing) the attempt fails, records exactly that message, touches no
    blob and leaves no event besides its own entry. A successful attempt
    adds no error. An attempt that fails later adds exactly one error when
    it is a first attempt and none when it is a retry. *)
Theorem upload_errors_recorded (az : azure) (now : datetime) (f : string) (is_retry : bool)
    (s : state) :
  let r := upload_to_azure az now f is_retry s in
  (∀ m, setup_failure az s = Some m →
     r.2 = false ∧ errors r.1 = errors s ++ [m]
     ∧ events r.1 = events s ++ [EvUpload f is_retry]
     ∧ container r.1 = container s)
  ∧ (r.2 = true → errors r.1 = errors s ∧ setup_failure az s = None)
  ∧ (setup_failure az s = None → r.2 = false →
     if is_retry then errors r.1 = errors s else ∃ m, errors r.1 = errors s ++ [m]).
Proof.
  cbv zeta. unfold upload_to_azure, setup_failure. cbv zeta.
  destruct is_retry.
  all: destruct (falsy _ || falsy _);
    [fields; rewrite ?(proj1 (mark_upload_failed_world _ _ _)),
       ?(proj1 (proj2 (proj2 (mark_upload_failed_world _ _ _)))),
       ?(proj2 (proj2 (proj2 (mark_upload_failed_world _ _ _)))); fields;
     split; [by intros m [= <-]|]; split; done|].
  all: destruct (b64decode az);
    [fields; rewrite ?(proj1 (mark_upload_failed_world _ _ _)),
       ?(proj1 (proj2 (proj2 (mark_upload_failed_world _ _ _)))),
       ?(proj2 (proj2 (proj2 (mark_upload_failed_world _ _ _)))); fields;
     split; [by intros m [= <-]|]; split; done|].
  all: destruct (from_connection_string az);
    [fields; rewrite ?(proj1 (mark_upload_failed_world _ _ _)),
       ?(proj1 (proj2 (proj2 (mark_upload_failed_world _ _ _)))),
       ?(proj2 (proj2 (proj2 (mark_upload_failed_world _ _ _)))); fields;
     split; [by intros m [= <-]|]; split; done|].
  all: match goal with |- context [send_blob ?a ?g ?s0] =>
         pose proof (send_blob_frame a g s0) as (_ & _ & He & _);
         destruct (send_blob a g s0) as [s1 [e|]]
       end; fields.
  all: rewrite ?(proj2 (proj2 (proj2 (mark_upload_failed_world _ _ _)))),
         ?(proj2 (proj2 (proj2 (mark_upload_success_world _ _)))); fields.
  all: rewrite He.
  all: split; [intros m; discriminate|]; split; try done.
  all: intros _ _; by eexists.
Qed.

Lemma upload_errors_recorded_witness :
  let s := mk_state (mk_config None (Some "a2V5") None false "postgres" "tcp" true None false
                       false) [] [] ∅ None None ∅
             {[ sample_artifact := Calendar.micros (night 1) ]} [] [] [] in
  let r := upload_to_azure azure_up (night 2) sample_artifact true s in
  r.2 = false ∧ errors r.1 = errors s ++ ["Azure credentials not configured"]
  ∧ events r.1 = events s ++ [EvUpload sample_artifact true]
  ∧ container r.1 = container s.
Proof.
  cbv zeta.
  exact (proj1 (upload_errors_recorded azure_up (night 2) sample_artifact true
    (mk_state (mk_config None (Some "a2V5") None false "postgres" "tcp" true None false false)
       [] [] ∅ None None ∅ {[ sample_artifact := Calendar.micros (night 1) ]} [] [] []))
    "Azure credentials not configured" eq_refl).
Defined.

(** The files of the state, from which the ledger file is left out, and
    the blobs across one upload attempt. *)
Lemma upload_files_blobs (az : azure) (now : datetime) (f : string) (is_retry : bool)
    (s : state) :
  let r := upload_to_azure az now f is_retry s in
  files r.1 = files s
  ∧ (r.2 = true → is_Some (files s !! f) ∧ path_name f ∈ container r.1)
  ∧ (∀ b, b ∈ container s → b ∈ container r.1)
  ∧ (∀ b, b ∈ container r.1 → b ∈ container s ∨ (r.2 = true ∧ b = path_name f))
  ∧ (NoDup (container s) → NoDup (container r.1)).
Proof.
  cbv zeta. unfold upload_to_azure. cbv zeta.
  destruct is_retry.
  all: destruct (falsy _ || falsy _);
    [fields; rewrite ?(proj1 (mark_upload_failed_world _ _ _)),
       ?(proj1 (proj2 (mark_upload_failed_world _ _ _))); fields; repeat split; auto; done|].
  all: destruct (b64decode az);
    [fields; rewrite ?(proj1 (mark_upload_failed_world _ _ _)),
       ?(proj1 (proj2 (mark_upload_failed_world _ _ _))); fields; repeat split; auto; done|].
  all: destruct (from_connection_string az);
    [fields; rewrite ?(proj1 (mark_upload_failed_world _ _ _)),
       ?(proj1 (proj2 (mark_upload_failed_world _ _ _))); fields; repeat split; auto; done|].
  all: match goal with |- context [send_blob ?a ?g ?s0] =>
         pose proof (send_blob_container a g s0) as (Hf & Hok & Hc & Hnd);
         cbv zeta in *;
         destruct (send_blob a g s0) as [s1 [e|]]
       end; fields.
  all: rewrite ?(proj1 (mark_upload_failed_world _ _ _)),
         ?(proj1 (proj2 (mark_upload_failed_world _ _ _))),
         ?(proj1 (mark_upload_success_world _ _)),
         ?(proj1 (proj2 (mark_upload_success_world _ _))); fields.
  all: split; [exact Hf|]; split; [first [discriminate | intros _; by apply Hok]|].
  all: split; [intros b Hb; apply Hc; by left|]; split; [|exact Hnd].
  all: intros b [? | [? ->]]%Hc; auto; discriminate.
Qed.

(** X6. What one upload attempt does to files and blobs: no local file
    other than the ledger file is touched; a successful attempt had its
    file on disk and leaves a blob with the name of the file in the
    container; no blob is removed; the only blob that can appear is the one
    named after the file, and only on success; a container without
    duplicate names stays so. *)
Theorem upload_container_effect (az : azure) (now : datetime) (f : string) (is_retry : bool)
    (s : state) :
  let r := upload_to_azure az now f is_retry s in
  (∀ p, p ≠ FAILED_UPLOADS_FILE → files r.1 !! p = files s !! p)
  ∧ (r.2 = true → is_Some (files s !! f) ∧ path_name f ∈ container r.1)
  ∧ (∀ b, b ∈ container s → b ∈ container r.1)
  ∧ (∀ b, b ∈ container r.1 → b ∈ container s ∨ (r.2 = true ∧ b = path_name f))
  ∧ (NoDup (container s) → NoDup (container r.1)).
Proof.
  cbv zeta. destruct (upload_files_blobs az now f is_retry s) as (Hf & H).
  cbv zeta in Hf, H. split; [|exact H].
  intros p _. by rewrite Hf.
Qed.

Lemma upload_container_effect_witness :
  let r := upload_to_azure azure_up (night 2) sample_artifact false (tracked_state 0) in
  is_Some (files (tracked_state 0) !! sample_artifact)
  ∧ path_name sample_artifact ∈ container r.1.
Proof.
  cbv zeta.
  exact (proj1 (proj2 (upload_container_effect azure_up (night 2) sample_artifact false
                         (tracked_state 0))) eq_refl).
Defined.

(** ** The loop over the databases *)

Lemma upload_first_failure az now f s :
  (upload_to_azure az now f false s).2 = false →
  ∃ m, errors (upload_to_azure az now f false s).1 = errors s ++ [m].
Proof.
  unfold upload_to_azure. cbv zeta. cbn [negb].
  destruct (falsy _ || falsy _);
    [fields; rewrite (proj2 (proj2 (proj2 (mark_upload_failed_world _ _ _)))); by eexists|].
  destruct (b64decode az);
    [fields; rewrite (proj2 (proj2 (proj2 (mark_upload_failed_world _ _ _)))); by eexists|].
  destruct (from_connection_string az);
    [fields; rewrite (proj2 (proj2 (proj2 (mark_upload_failed_world _ _ _)))); by eexists|].
  match goal with |- context [send_blob ?a ?g ?s0] =>
    pose proof (send_blob_frame a g s0) as (_ & _ & He & _);
    destruct (send_blob a g s0) as [s1 [e|]]
  end; fields; [|discriminate].
  intros _. rewrite (proj2 (proj2 (proj2 (mark_upload_failed_world _ _ _)))). fields.
  rewrite He. by eexists.
Qed.

Lemma upload_event_first az now f is_retry s :
  EvUpload f is_retry ∈ events (upload_to_azure az now f is_retry s).1.
Proof.
  assert (H : ∃ evs', events (upload_to_azure az now f is_retry s).1
                      = (events s ++ [EvUpload f is_retry]) ++ evs').
  { unfold upload_to_azure. cbv zeta.
    destruct is_retry.
    all: destruct (falsy _ || falsy _);
      [fields; rewrite ?(proj1 (proj2 (proj2 (mark_upload_failed_world _ _ _)))); fields;
       exists []; by rewrite app_nil_r|].
    all: destruct (b64decode az);
      [fields; rewrite ?(proj1 (proj2 (proj2 (mark_upload_failed_world _ _ _)))); fields;
       exists []; by rewrite app_nil_r|].
    all: destruct (from_connection_string az);
      [fields; rewrite ?(proj1 (proj2 (proj2 (mark_upload_failed_world _ _ _)))); fields;
       exists []; by rewrite app_nil_r|].
    all: match goal with |- context [send_blob ?a ?g ?s0] =>
           pose proof (send_blob_frame a g s0) as (_ & _ & _ & _ & (l & Hl & _) & _);
           destruct (send_blob a g s0) as [s1 [e|]]
         end; fields.
    all: rewrite ?(proj1 (proj2 (proj2 (mark_upload_failed_world _ _ _)))),
           ?(proj1 (proj2 (proj2 (mark_upload_success_world _ _)))); fields.
    all: by exists l. }
  destruct H as [l ->]. rewrite <- app_assoc. apply elem_of_app. right. by left.
Qed.

Lemma upload_container_keeps az now f is_retry s :
  (upload_to_azure az now f is_retry s).2 = true →
  path_name f ∈ container (upload_to_azure az now f is_retry s).1.
Proof.
  unfold upload_to_azure. cbv zeta.
  destruct is_retry.
  all: destruct (falsy _ || falsy _); [discriminate|].
  all: destruct (b64decode az); [discriminate|].
  all: destruct (from_connection_string az); [discriminate|].
  all: match goal with |- context [send_blob ?a ?g ?s0] =>
         pose proof (send_blob_container a g s0) as (_ & Hok & _);
         cbv zeta in *;
         destruct (send_blob a g s0) as [s1 [e|]]
       end; fields; [discriminate|].
  all: intros _; rewrite (proj1 (mark_upload_success_world _ _)); fields; by apply Hok.
Qed.

(** One turn of the loop: one database counted, once; a failure leaves
    an error; the stages of the database are entered in order. *)
Lemma process_database_step w db acc :
  let r := process_database w db acc in
  advances stage_event acc.1 r.1
  ∧ ((r.2.1 = acc.2.1 + 1 ∧ r.2.2 = acc.2.2
      ∧ dump w db = None
      ∧ EvPostMaintenance db ∈ events r.1
      ∧ path_name (backup_file_path db (backup_time w db)) ∈ container r.1)
     ∨ (r.2.1 = acc.2.1 ∧ r.2.2 = acc.2.2 + 1
        ∧ ∃ es m, errors r.1 = errors acc.1 ++ es ++ [m]))
  ∧ EvPreMaintenance db ∈ events r.1
  ∧ EvBackup db ∈ events r.1
  ∧ (dump w db = None →
     EvUpload (backup_file_path db (backup_time w db)) false ∈ events r.1).
Proof.
  cbv zeta. split; [apply process_database_advances, advances_refl|].
  destruct acc as [s [ok ko]]. unfold process_database. cbv zeta.
  set (s0 := warnings_extend _ _).
  assert (Hpre : EvPreMaintenance db ∈ events s0).
  { subst s0. fields. apply elem_of_app. right. by left. }
  assert (Herr0 : errors s0 = errors s) by done.
  clearbody s0.
  unfold backup_database. cbv zeta.
  pose proof (check_disk_space_advances (disk_usage_before w db) (MIN_DISK_SPACE_MB * 2) true
                (emit (EvBackup db) s0) (emit (EvBackup db) s0) (advances_refl _ _)) as Hck.
  assert (Hck_err : errors (_check_disk_space (disk_usage_before w db) (MIN_DISK_SPACE_MB * 2)
                              true (emit (EvBackup db) s0)).1 = errors s0).
  { unfold _check_disk_space. cbv zeta.
    destruct (match disk_usage_before w db with
              | inr free => true_divide_mb free
              | inl e => inl e
              end) as [e | free_mb]; [done|].
    by destruct (Qlt_bool _ _). }
  destruct (_check_disk_space _ _ true (emit (EvBackup db) s0)) as [s1 b]. cbn [fst] in *.
  assert (Hpre1 : EvPreMaintenance db ∈ events s1).
  { eapply events_kept; [exact Hck|]. fields. apply elem_of_app. by left. }
  assert (Hbk1 : EvBackup db ∈ events s1).
  { eapply events_kept; [exact Hck|]. fields. apply elem_of_app. right. by left. }
  destruct (dump w db) as [m|] eqn:Hd; fields.
  - split; [right; repeat split; exists [], m; by rewrite Hck_err, Herr0|].
    repeat split; try done.
  - set (f := backup_file_path db (backup_time w db)).
    set (s2 := set_files _ _).
    assert (Hs2 : events s2 = events s1 ∧ errors s2 = errors s) by (by rewrite <- Herr0, <- Hck_err).
    destruct Hs2 as [Hev2 Her2]. clearbody s2.
    pose proof (upload_advances (cloud w) (backup_time w db) f false s2 s2 (advances_refl _ _))
      as Hup.
    pose proof (upload_event_first (cloud w) (backup_time w db) f false s2) as Hfirst.
    pose proof (upload_first_failure (cloud w) (backup_time w db) f s2) as Hfail.
    pose proof (upload_container_keeps (cloud w) (backup_time w db) f false s2) as Hcont.
    destruct (upload_to_azure (cloud w) (backup_time w db) f false s2) as [s3 [|]];
      cbn [fst snd] in *; fields.
    + split; [left; repeat split; try done|].
      * apply elem_of_app. right. by left.
      * by apply Hcont.
      * repeat split.
        -- apply elem_of_app. left. eapply events_kept; [exact Hup|]. by rewrite Hev2.
        -- apply elem_of_app. left. eapply events_kept; [exact Hup|]. by rewrite Hev2.
        -- intros _. apply elem_of_app. by left.
    + split; [right; repeat split|].
      * destruct (Hfail eq_refl) as [m ->]. exists [], m. by rewrite Her2.
      * repeat split; try done.
        -- eapply events_kept; [exact Hup|]. by rewrite Hev2.
        -- eapply events_kept; [exact Hup|]. by rewrite Hev2.
Qed.

Lemma process_loop_facts w dbs acc :
  let r := foldl (λ acc db_name, process_database w db_name acc) acc dbs in
  advances stage_event acc.1 r.1
  ∧ r.2.1 + r.2.2 = acc.2.1 + acc.2.2 + Z.of_nat (List.length dbs)
  ∧ acc.2.1 ≤ r.2.1 ∧ acc.2.2 ≤ r.2.2
  ∧ Z.of_nat (List.length (errors acc.1)) + (r.2.2 - acc.2.2)
    ≤ Z.of_nat (List.length (errors r.1))
  ∧ ∀ db, db ∈ dbs →
      EvPreMaintenance db ∈ events r.1 ∧ EvBackup db ∈ events r.1
      ∧ (dump w db = None →
         EvUpload (backup_file_path db (backup_time w db)) false ∈ events r.1).
Proof.
  cbv zeta. revert acc. induction dbs as [|d dbs IH]; intros acc.
  - simpl. split; [apply advances_refl|]. do 4 (split; [lia|]).
    intros db Hdb. by apply elem_of_nil in Hdb.
  - cbn [foldl]. destruct (IH (process_database w d acc)) as (Hadv & Hsum & H1 & H2 & Herr & Hev).
    destruct (process_database_step w d acc) as (Hadv0 & Hcase & Hpre & Hbk & Hup).
    cbv zeta in *.
    assert (Hgrow : ∀ x y, advances stage_event x y →
              Z.of_nat (List.length (errors x)) ≤ Z.of_nat (List.length (errors y))).
    { intros x y (_ & _ & _ & _ & (es & ->) & _). rewrite length_app. lia. }
    pose proof (Hgrow _ _ Hadv0) as Hg0.
    split; [by eapply advances_trans|].
    rewrite length_cons.
    assert (Hstep : Z.of_nat (List.length (errors acc.1))
                    + ((process_database w d acc).2.2 - acc.2.2)
                    ≤ Z.of_nat (List.length (errors (process_database w d acc).1))
                    ∧ (process_database w d acc).2.1 + (process_database w d acc).2.2
                      = acc.2.1 + acc.2.2 + 1
                    ∧ acc.2.1 ≤ (process_database w d acc).2.1
                    ∧ acc.2.2 ≤ (process_database w d acc).2.2).
    { destruct Hcase as [(-> & -> & _) | (-> & -> & es & m & ->)].
      - repeat split; lia.
      - rewrite !length_app. simpl. repeat split; lia. }
    destruct Hstep as (S1 & S2 & S3 & S4).
    do 4 (split; [lia|]).
    intros db [-> | Hin]%elem_of_cons; [|by apply Hev].
    split; [by eapply events_kept|]. split; [by eapply events_kept|].
    intros Hd. eapply events_kept; [exact Hadv|]. by apply Hup.
Qed.

(** X7. The loop over the databases counts every database once: the
    successes and the failures add up to the number of databases, every
    failure has added at least one error, and a loop that adds no error has
    only successes. *)
Theorem databases_counted (w : world) (dbs : list string) (s : state) :
  let r := foldl (λ acc db_name, process_database w db_name acc) (s, (0, 0)) dbs in
  r.2.1 + r.2.2 = Z.of_nat (List.length dbs) ∧ 0 ≤ r.2.1 ∧ 0 ≤ r.2.2
  ∧ Z.of_nat (List.length (errors s)) + r.2.2 ≤ Z.of_nat (List.length (errors r.1))
  ∧ (errors r.1 = errors s → r.2.1 = Z.of_nat (List.length dbs)).
Proof.
  cbv zeta.
  destruct (process_loop_facts w dbs (s, (0, 0))) as (_ & Hsum & H1 & H2 & Herr & _).
  cbv zeta in *. cbn [fst snd] in *.
  repeat split; try lia.
  intros He. rewrite He in Herr. lia.
Qed.

Lemma cleanup_azure_entered az now x :
  EvCleanupAzure ∈ events (cleanup_old_backups_azure az now x).1.
Proof.
  assert (H : advances stage_event (emit EvCleanupAzure x)
                (cleanup_old_backups_azure az now x).1).
  { unfold cleanup_old_backups_azure. cbv zeta.
    generalize (emit EvCleanupAzure x). intros y.
    destruct (falsy _ || falsy _); [cbn [fst snd negb]; advance|].
    destruct (b64decode az); [cbn [fst snd negb]; advance|].
    destruct (from_connection_string az); [cbn [fst snd negb]; case_match; advance|].
    destruct (list_blobs az); [cbn [fst snd negb]; advance|].
    match goal with |- context [sweep_blobs az ?c ?bs ?acc] =>
      assert (H1 : advances stage_event y (sweep_blobs az c bs acc).1.1)
        by (apply sweep_blobs_advances; cbn [fst snd negb]; advance);
      destruct (sweep_blobs az c bs acc) as [[x1 n] [e|]]
    end; cbn [fst snd negb] in *; advance. }
  eapply events_kept; [exact H|]. fields. apply elem_of_app. right. by left.
Qed.

Lemma cleanup_local_entered u now x :
  EvCleanupLocal ∈ events (cleanup_local_backups u now x).1.
Proof.
  assert (H : advances stage_event (emit EvCleanupLocal x) (cleanup_local_backups u now x).1).
  { unfold cleanup_local_backups. cbv zeta.
    generalize (emit EvCleanupLocal x). intros z.
    match goal with |- context [foldl ?f ?s0 (glob TEMP_DIR ".sql" ?s0)] =>
      assert (H1 : advances stage_event z
                     (foldl f s0 (glob TEMP_DIR ".sql" s0)));
      [ assert (H0 : advances stage_event z s0) by advance;
        generalize (glob TEMP_DIR ".sql" s0); intros l;
        revert H0; generalize s0; induction l as [|q l IH]; intros y Hy; cbn [foldl];
        [exact Hy | by apply IH, sweep_temp_file_advances]
      | generalize dependent (foldl f s0 (glob TEMP_DIR ".sql" s0)); intros x1 H1 ]
    end.
    match goal with |- context [foldl ?f ?a ?l] =>
      assert (H2 : advances stage_event z (foldl f a l).1)
        by (apply foldl_advances; [intros; by apply sweep_local_file_advances | exact H1]);
      destruct (foldl f a l) as [x2 n]
    end.
    cbn [fst snd negb] in *. advance. }
  eapply events_kept; [exact H|]. fields. apply elem_of_app. right. by left.
Qed.

(** What the loop and the sweeps have done is still there when the [try]
    block ends. *)
Lemma backup_and_sweep_events w dbs s :
  EvCleanupAzure ∈ events (backup_and_sweep w dbs s)
  ∧ EvCleanupLocal ∈ events (backup_and_sweep w dbs s)
  ∧ ∀ db, db ∈ dbs →
      EvPreMaintenance db ∈ events (backup_and_sweep w dbs s)
      ∧ EvBackup db ∈ events (backup_and_sweep w dbs s)
      ∧ (dump w db = None →
         EvUpload (backup_file_path db (backup_time w db)) false
           ∈ events (backup_and_sweep w dbs s)).
Proof.
  unfold backup_and_sweep. cbv zeta.
  match goal with |- context [foldl ?f ?a dbs] =>
    pose proof (process_loop_facts w dbs a) as (_ & _ & _ & _ & _ & Hloop);
    cbv zeta in Hloop;
    destruct (foldl f a dbs) as [x1 [ok ko]]
  end. cbn [fst] in Hloop.
  pose proof (cleanup_azure_advances (cloud w) (end_time w) x1 x1 (advances_refl _ _)) as H2.
  pose proof (cleanup_azure_entered (cloud w) (end_time w) x1) as E2.
  destruct (cleanup_old_backups_azure _ _ x1) as [x2 n2]. cbn [fst] in *.
  pose proof (cleanup_local_advances (unlink_raises w) (end_time w) x2 x2 (advances_refl _ _))
    as H3.
  pose proof (cleanup_local_entered (unlink_raises w) (end_time w) x2) as E3.
  destruct (cleanup_local_backups _ _ x2) as [x3 n3]. cbn [fst] in *.
  assert (Hk : ∀ e, e ∈ events x1 → e ∈ events x3)
    by (intros e He; eapply events_kept; [exact H3|]; by eapply events_kept).
  assert (Hfacts : EvCleanupAzure ∈ events x3 ∧ EvCleanupLocal ∈ events x3
            ∧ ∀ db, db ∈ dbs →
                EvPreMaintenance db ∈ events x3 ∧ EvBackup db ∈ events x3
                ∧ (dump w db = None →
                   EvUpload (backup_file_path db (backup_time w db)) false ∈ events x3)).
  { split; [by eapply events_kept|]. split; [exact E3|].
    intros db Hdb. destruct (Hloop db Hdb) as (P1 & P2 & P3). auto. }
  clear - Hfacts.
  match goal with |- context [_send_final_notification ?sf] =>
    assert (Hsf : ∀ e, e ∈ events x3 → e ∈ events sf) by (intros e He; exact He);
    revert Hsf; generalize sf; intros y Hy
  end.
  assert (Hn : ∀ e, e ∈ events x3 → e ∈ events (_send_final_notification y)).
  { intros e He. unfold _send_final_notification. cbv zeta. fields.
    apply elem_of_app. left. by apply Hy. }
  destruct Hfacts as (F1 & F2 & F3).
  destruct (errors y), (warnings y); try destruct (notify_on_warnings (cfg y)).
  all: split; [auto|]; split; [auto|].
  all: intros db Hdb; destruct (F3 db Hdb) as (P1 & P2 & P3); auto.
Qed.

(** X8. A run that holds the lock, passes the disk check and is given at
    least one database leaves none out: for every database the pre-backup
    maintenance and the backup are entered, and the upload of its artifact
    is started when its dump succeeds, whatever happened to the databases
    before it; and both retention sweeps are entered. *)
Theorem every_database_processed (w : world) (s : state) :
  let a := _acquire_lock (lock_primary w) (lock_fallback w) s in
  let check := _check_disk_space (disk_usage w) MIN_DISK_SPACE_MB false
                                 (log_configuration a.1) in
  let s' := run_backup_procedure w s in
  a.2 = true → check.2 = true → databases w ≠ [] →
  (∀ db, db ∈ databases w →
     EvPreMaintenance db ∈ events s' ∧ EvBackup db ∈ events s'
     ∧ (dump w db = None →
        EvUpload (backup_file_path db (backup_time w db)) false ∈ events s'))
  ∧ EvCleanupAzure ∈ events s' ∧ EvCleanupLocal ∈ events s'.
Proof.
  cbv zeta. intros Ha Hc Hd.
  pose proof (acquire_lock_held _ _ s Ha) as (p & Hp & _).
  unfold run_backup_procedure.
  destruct (_acquire_lock (lock_primary w) (lock_fallback w) s) as [s1 b].
  cbn [fst snd] in *. subst b.
  assert (Hrel : ∀ x e, e ∈ events x → e ∈ events (_release_lock x)).
  { intros x e He. unfold _release_lock. destruct (lock_file x) as [h|]; [|done].
    destruct (h_open h); fields; [|done]. apply elem_of_app. by left. }
  unfold procedure_body. cbv zeta.
  destruct (_check_disk_space _ _ _ _) as [s2 c]. cbn [snd] in Hc. subst c.
  unfold after_preflight. cbv zeta.
  destruct (retry_failed_uploads _ _ _) as [s3 [ok ko]].
  destruct (databases w) as [|d ds] eqn:Hdbs; [done|].
  match goal with |- context [backup_and_sweep w (d :: ds) ?x] =>
    destruct (backup_and_sweep_events w (d :: ds) x) as (E1 & E2 & E3)
  end.
  split; [|split; by apply Hrel].
  intros db Hdb. destruct (E3 db Hdb) as (P1 & P2 & P3).
  split; [by apply Hrel|]. split; [by apply Hrel|]. intros Hn. by apply Hrel, P3.
Qed.

Lemma every_database_processed_witness :
  let w := mk_world Locked Locked plenty (λ _, plenty) [] ["app_db"; "analytics"] []
             (λ _, []) (λ _, [])
             (λ db, if String.eqb db "app_db" then Some "pg_dump failed for app_db" else None)
             (λ _, night 1) azure_down (λ _, None) (night 1) (night 1) in
  let s' := run_backup_procedure w empty_state in
  (EvBackup "app_db" ∈ events s' ∧ EvBackup "analytics" ∈ events s'
   ∧ EvUpload (backup_file_path "analytics" (night 1)) false ∈ events s')
  ∧ EvCleanupAzure ∈ events s' ∧ EvCleanupLocal ∈ events s'.
Proof.
  cbv zeta.
  assert (Hc : (_check_disk_space plenty MIN_DISK_SPACE_MB false
                  (log_configuration (_acquire_lock Locked Locked empty_state).1)).2 = true)
    by (vm_compute; reflexivity).
  destruct (every_database_processed
    (mk_world Locked Locked plenty (λ _, plenty) [] ["app_db"; "analytics"] []
       (λ _, []) (λ _, [])
       (λ db, if String.eqb db "app_db" then Some "pg_dump failed for app_db" else None)
       (λ _, night 1) azure_down (λ _, None) (night 1) (night 1)) empty_state
    eq_refl Hc ltac:(discriminate)) as (H & E1 & E2).
  split; [|exact (conj E1 E2)].
  destruct (H "app_db" ltac:(by left)) as (_ & B1 & _).
  destruct (H "analytics" ltac:(by right; left)) as (_ & B2 & U2).
  exact (conj B1 (conj B2 (U2 eq_refl))).
Defined.

(** ** The retry pass and the ledger *)

Lemma sweep_local_absent u cutoff ps acc p :
  p ∉ ps →
  view (foldl (λ acc backup_file, sweep_local_file u cutoff backup_file acc) acc ps).1 p
  = view acc.1 p.
Proof.
  revert acc. induction ps as [|q ps IH]; intros acc Hp; cbn [foldl]; [reflexivity|].
  apply not_elem_of_cons in Hp as [Hne Hp]. rewrite IH by exact Hp.
  by apply sweep_local_file_other.
Qed.

(** The local sweep does not see a path that is not on disk. *)
Lemma cleanup_local_absent u now s p :
  files s !! p = None → view (cleanup_local_backups u now s).1 p = view s p.
Proof.
  intros Hp. unfold cleanup_local_backups. cbv zeta.
  match goal with |- context [foldl ?f ?s0 (glob TEMP_DIR ".sql" ?s0)] =>
    assert (Hv : view (foldl f s0 (glob TEMP_DIR ".sql" s0)) p = view s p);
    [ rewrite sweep_temp_view; [reflexivity|];
      rewrite elem_of_glob; fields; rewrite Hp; intros [_ [? ?]]; done
    | generalize dependent (foldl f s0 (glob TEMP_DIR ".sql" s0)); intros s1 Hv ]
  end.
  pose proof (sweep_local_absent u (cutoff_date now LOCAL_RETENTION_DAYS)
                (glob BACKUP_DIR ".sql.gz" s1) (s1, 0) p) as H.
  destruct (foldl _ (s1, 0) (glob BACKUP_DIR ".sql.gz" s1)) as [s2 n]. fields.
  unfold view in *. fields. rewrite <- Hv. apply H.
  rewrite elem_of_glob. injection Hv as Hf _. rewrite Hf, Hp. intros [_ [? ?]]. done.
Qed.

(** X9. A ledger entry that has used up its retries and whose file is gone
    is never removed: the retry pass leaves it, the local sweep leaves it,
    and so does the one after the other. *)
Theorem exhausted_orphan_stays (az : azure) (now : datetime)
    (unlink_raises : string → option exn) (f : string) (e : entry) (s : state) :
  failed_uploads s !! f = Some e → MAX_UPLOAD_RETRIES ≤ retry_count e →
  files s !! f = None →
  failed_uploads (retry_failed_uploads az now s).1 !! f = Some e
  ∧ failed_uploads (cleanup_local_backups unlink_raises now s).1 !! f = Some e
  ∧ failed_uploads
      (cleanup_local_backups unlink_raises now (retry_failed_uploads az now s).1).1 !! f
    = Some e.
Proof.
  intros He Hc Hf.
  destruct (retry_pass_exhausted az now s f e He Hc) as (Hl & Hfiles & _).
  split; [exact Hl|]. split.
  - pose proof (cleanup_local_absent unlink_raises now s f Hf) as Hv.
    unfold view in Hv. injection Hv as _ ->. exact He.
  - pose proof (cleanup_local_absent unlink_raises now (retry_failed_uploads az now s).1 f) as Hv.
    rewrite Hfiles in Hv. specialize (Hv Hf). unfold view in Hv. injection Hv as _ ->. exact Hl.
Qed.

Lemma exhausted_orphan_stays_witness :
  failed_uploads (cleanup_local_backups (λ _, None) (night 9)
                    (retry_failed_uploads azure_up (night 9) orphan_state).1).1
    !! sample_artifact
  = Some (mk_entry sample_artifact (night 1) 3 (night 1)).
Proof.
  refine (proj2 (proj2 (exhausted_orphan_stays azure_up (night 9) (λ _, None) sample_artifact
            (mk_entry sample_artifact (night 1) 3 (night 1)) orphan_state eq_refl _ eq_refl))).
  vm_compute. discriminate.
Defined.

Lemma upload_container_keeps_blobs az now f is_retry s :
  ∀ b, b ∈ container s → b ∈ container (upload_to_azure az now f is_retry s).1.
Proof.
  unfold upload_to_azure. cbv zeta.
  destruct is_retry.
  all: destruct (falsy _ || falsy _);
    [fields; rewrite ?(proj1 (mark_upload_failed_world _ _ _)); by fields|].
  all: destruct (b64decode az);
    [fields; rewrite ?(proj1 (mark_upload_failed_world _ _ _)); by fields|].
  all: destruct (from_connection_string az);
    [fields; rewrite ?(proj1 (mark_upload_failed_world _ _ _)); by fields|].
  all: match goal with |- context [send_blob ?a ?g ?s0] =>
         pose proof (send_blob_container a g s0) as (_ & _ & Hc & _);
         cbv zeta in *;
         destruct (send_blob a g s0) as [s1 [e|]]
       end; fields.
  all: rewrite ?(proj1 (mark_upload_failed_world _ _ _)),
         ?(proj1 (mark_upload_success_world _ _)); fields.
  all: intros b Hb; apply Hc; by left.
Qed.

(** What a retry upload does to the entry of its path. *)
Lemma retry_one_self az now k acc :
  failed_uploads (retry_one az now k acc).1 !! k = failed_uploads acc.1 !! k
  ∨ failed_uploads (retry_one az now k acc).1 !! k = None.
Proof.
  destruct acc as [s [ok ko]]. unfold retry_one, _should_retry_upload. cbv zeta.
  cbn [fst snd].
  destruct (failed_uploads s !! k) as [e|] eqn:E; [|by left].
  destruct (MAX_UPLOAD_RETRIES <=? retry_count e); [by left|].
  destruct (negb (exists_ k s)) eqn:Hex; fields.
  - right. apply lookup_delete_eq.
  - rewrite Hex.
    match goal with |- context [upload_to_azure az now k true ?s0] =>
      pose proof (upload_ledger az now k true s0) as Hu;
      destruct (upload_to_azure az now k true s0) as [s2 [|]]
    end; fields; rewrite Hu; fields.
    + right. apply lookup_delete_eq.
    + left. by rewrite E.
Qed.

Lemma retry_one_counts az now k acc :
  let r := retry_one az now k acc in
  acc.2.1 ≤ r.2.1 ∧ acc.2.2 ≤ r.2.2 ∧ r.2.1 + r.2.2 ≤ acc.2.1 + acc.2.2 + 1.
Proof.
  cbv zeta. destruct acc as [s [ok ko]]. unfold retry_one.
  destruct (_should_retry_upload k s) as [s1 [|]]; cbn [fst snd]; [|lia].
  destruct (negb (exists_ k s1)); cbn [fst snd]; [lia|].
  destruct (upload_to_azure az now k true _) as [s2 [|]]; cbn [fst snd]; lia.
Qed.

Lemma retry_one_world az now k acc :
  files (retry_one az now k acc).1 = files acc.1
  ∧ ∀ b, b ∈ container acc.1 → b ∈ container (retry_one az now k acc).1.
Proof.
  destruct (retry_one_frame az now k acc) as ((_ & _ & _ & Hf) & _). split; [exact Hf|].
  destruct acc as [s [ok ko]]. unfold retry_one, _should_retry_upload. cbv zeta.
  cbn [fst snd].
  destruct (failed_uploads s !! k) as [e|] eqn:E; [|done].
  destruct (MAX_UPLOAD_RETRIES <=? retry_count e); [done|].
  destruct (negb (exists_ k s)) eqn:Hex; fields; [done|]. rewrite Hex.
  match goal with |- context [upload_to_azure az now k true ?s0] =>
    pose proof (upload_container_keeps_blobs az now k true s0) as Hu;
    destruct (upload_to_azure az now k true s0) as [s2 [|]]
  end; fields; exact Hu.
Qed.

Lemma retry_loop_only_removes az now ks acc :
  let r := foldl (λ acc file_str, retry_one az now file_str acc) acc ks in
  (∀ k, failed_uploads r.1 !! k = failed_uploads acc.1 !! k
        ∨ failed_uploads r.1 !! k = None)
  ∧ files r.1 = files acc.1
  ∧ (∀ b, b ∈ container acc.1 → b ∈ container r.1)
  ∧ acc.2.1 ≤ r.2.1 ∧ acc.2.2 ≤ r.2.2
  ∧ r.2.1 + r.2.2 ≤ acc.2.1 + acc.2.2 + Z.of_nat (List.length ks).
Proof.
  cbv zeta. revert acc. induction ks as [|a ks IH]; intros acc; cbn [foldl].
  - repeat split; auto; simpl; lia.
  - destruct (IH (retry_one az now a acc)) as (I1 & I2 & I3 & I4 & I5 & I6).
    destruct (retry_one_world az now a acc) as (W1 & W2).
    destruct (retry_one_counts az now a acc) as (C1 & C2 & C3).
    destruct (retry_one_frame az now a acc) as (_ & _ & Hother).
    pose proof (retry_one_self az now a acc) as Hself.
    rewrite length_cons.
    split; [|split; [congruence|split; [auto|lia]]].
    intros k. destruct (I1 k) as [-> | ->]; [|by right].
    destruct (decide (k = a)) as [-> | Hne]; [exact Hself|]. left. by apply Hother.
Qed.

(** The ledger, the files of the state, from which the ledger file is left
    out, and the blobs across the retry pass. *)
Lemma retry_pass_ledger_files (az : azure) (now : datetime) (s : state) :
  let r := retry_failed_uploads az now s in
  (∀ k, failed_uploads r.1 !! k = failed_uploads s !! k ∨ failed_uploads r.1 !! k = None)
  ∧ files r.1 = files s
  ∧ (∀ b, b ∈ container s → b ∈ container r.1)
  ∧ 0 ≤ r.2.1 ∧ 0 ≤ r.2.2
  ∧ r.2.1 + r.2.2 ≤ Z.of_nat (size (failed_uploads s))
  ∧ (failed_uploads s = ∅ → r.2 = (0, 0) ∧ events r.1 = events s ++ [EvRetryPass]).
Proof.
  cbv zeta. unfold retry_failed_uploads. cbv zeta.
  case_bool_decide as Hemp; fields.
  - rewrite Hemp, map_size_empty. repeat split; auto; lia.
  - match goal with |- context [foldl ?g ?a ?l] =>
      pose proof (retry_loop_only_removes az now l a) as (H1 & H2 & H3 & H4 & H5 & H6);
      cbv zeta in *; destruct (foldl g a l) as [s1 [ok ko]]
    end; fields.
    rewrite length_fmap, length_map_to_list in H6.
    destruct (0 <? ok), (0 <? ko); fields; repeat split; auto; try lia; done.
Qed.

(** X10. The retry pass only removes ledger entries: every key has the
    entry it had or none; no local file other than the ledger file is
    touched and no blob removed; the two counts are non-negative and
    together at most the size of the ledger; with an empty ledger both
    counts are 0 and entering the method is the only event. *)
Theorem retry_pass_only_removes (az : azure) (now : datetime) (s : state) :
  let r := retry_failed_uploads az now s in
  (∀ k, failed_uploads r.1 !! k = failed_uploads s !! k ∨ failed_uploads r.1 !! k = None)
  ∧ (∀ p, p ≠ FAILED_UPLOADS_FILE → files r.1 !! p = files s !! p)
  ∧ (∀ b, b ∈ container s → b ∈ container r.1)
  ∧ 0 ≤ r.2.1 ∧ 0 ≤ r.2.2
  ∧ r.2.1 + r.2.2 ≤ Z.of_nat (size (failed_uploads s))
  ∧ (failed_uploads s = ∅ → r.2 = (0, 0) ∧ events r.1 = events s ++ [EvRetryPass]).
Proof.
  cbv zeta. destruct (retry_pass_ledger_files az now s) as (H1 & Hf & H).
  cbv zeta in H1, Hf, H. split; [exact H1|]. split; [|exact H].
  intros p _. by rewrite Hf.
Qed.






(** ** The remote sweep, further *)

Lemma sweep_blob_count az cutoff b acc :
  (sweep_blob az cutoff b acc).1.2
  = acc.2 + (if blob_expiredb cutoff b && bool_decide (delete_blob az b = None) then 1 else 0).
Proof.
  destruct acc as [s n]. unfold sweep_blob, blob_expiredb.
  destruct (DatePattern.date_match b) as [d|]; cbn [fst snd andb]; [|lia].
  destruct (Calendar.strptime_Ymd d) as [t|]; cbn [fst snd andb]; [|lia].
  destruct (Calendar.micros t <? cutoff); cbn [fst snd andb]; [|lia].
  destruct (delete_blob az b) as [e|]; cbn [fst snd];
    [rewrite bool_decide_false by done; destruct (caught_in_loop e); cbn [fst snd]; lia|].
  rewrite bool_decide_true by done. reflexivity.
Qed.

Lemma sweep_blob_rest az cutoff b acc :
  let r := sweep_blob az cutoff b acc in
  errors r.1.1 = errors acc.1 ∧ files r.1.1 = files acc.1
  ∧ failed_uploads r.1.1 = failed_uploads acc.1
  ∧ (∀ e, r.2 = Some e → blob_expired cutoff b ∧ delete_blob az b = Some e).
Proof.
  cbv zeta. pose proof (sweep_blob_spec az cutoff b acc) as (_ & Hr & _). cbv zeta in Hr.
  split; [|split; [|split]].
  4: { intros e He. rewrite He in Hr. destruct (blob_expiredb cutoff b) eqn:E; [|done].
       apply blob_expiredb_spec in E. split; [exact E|]. unfold leaves_loop in Hr.
       destruct (delete_blob az b) as [e'|]; [|done].
       destruct (caught_in_loop e'); [done | congruence]. }
  all: destruct acc as [s n]; unfold sweep_blob;
    repeat (case_match; simplify_eq; cbn [fst snd] in * ); reflexivity.
Qed.

Lemma filter_absent (b : string) (l : list string) :
  b ∉ l → filter (λ x, x ≠ b) l = l.
Proof.
  induction l as [|a l IH]; intros Hb; [reflexivity|].
  apply not_elem_of_cons in Hb as [Hne Hb].
  rewrite filter_cons_True by done. by rewrite IH.
Qed.

Lemma filter_remove_one (b : string) (l : list string) :
  NoDup l → b ∈ l → (List.length (filter (λ x, x ≠ b) l) + 1)%nat = List.length l.
Proof.
  induction 1 as [|a l Ha Hnd IH]; intros Hb; [by apply elem_of_nil in Hb|].
  destruct (decide (a = b)) as [-> | Hne].
  - rewrite filter_cons_False by (intros H; by apply H). simpl.
    rewrite filter_absent by exact Ha. lia.
  - rewrite filter_cons_True by done. simpl.
    apply elem_of_cons in Hb as [-> | Hb]; [done|]. rewrite <- (IH Hb). lia.
Qed.

Lemma sweep_blobs_count az cutoff bs acc :
  NoDup (container acc.1) → NoDup bs → (∀ x, x ∈ bs → x ∈ container acc.1) →
  let r := sweep_blobs az cutoff bs acc in
  r.1.2 - acc.2
  = Z.of_nat (List.length (container acc.1)) - Z.of_nat (List.length (container r.1.1))
  ∧ acc.2 ≤ r.1.2.
Proof.
  cbv zeta. revert acc. induction bs as [|b bs IH]; intros acc Hnd Hbs Hsub; cbn [sweep_blobs].
  - cbn [fst snd]. lia.
  - pose proof (sweep_blob_spec az cutoff b acc) as (Hc & _). cbv zeta in Hc.
    pose proof (sweep_blob_count az cutoff b acc) as Hn.
    apply NoDup_cons in Hbs as [Hb Hbs].
    assert (Hstep : (sweep_blob az cutoff b acc).1.2 - acc.2
                    = Z.of_nat (List.length (container acc.1))
                      - Z.of_nat (List.length (container (sweep_blob az cutoff b acc).1.1))
                    ∧ acc.2 ≤ (sweep_blob az cutoff b acc).1.2
                    ∧ NoDup (container (sweep_blob az cutoff b acc).1.1)
                    ∧ ∀ x, x ∈ bs → x ∈ container (sweep_blob az cutoff b acc).1.1).
    { rewrite Hn, Hc. destruct (blob_expiredb cutoff b && _).
      - pose proof (filter_remove_one b (container acc.1) Hnd (Hsub b ltac:(by left))) as Hlen.
        split; [lia|]. split; [lia|]. split; [by apply NoDup_filter|].
        intros x Hx. apply list_elem_of_filter. split; [by intros ->|].
        apply Hsub. by right.
      - split; [lia|]. split; [lia|]. split; [exact Hnd|]. intros x Hx. apply Hsub. by right. }
    destruct Hstep as (S1 & S2 & S3 & S4).
    destruct (sweep_blob az cutoff b acc) as [acc1 [e|]]; cbn [fst snd] in *; [lia|].
    destruct (IH acc1 S3 Hbs S4) as [I1 I2]. lia.
Qed.

Lemma remote_sweep_count_lemma az now s :
  NoDup (container s) →
  let r := cleanup_old_backups_azure az now s in
  r.2 = Z.of_nat (List.length (container s)) - Z.of_nat (List.length (container r.1))
  ∧ 0 ≤ r.2
  ∧ NoDup (container r.1).
Proof.
  intros Hnd. cbv zeta. unfold cleanup_old_backups_azure. cbv zeta.
  destruct (falsy _ || falsy _); [fields; split; [lia|]; split; [lia | done]|].
  destruct (b64decode az); [fields; split; [lia|]; split; [lia | done]|].
  destruct (from_connection_string az);
    [case_match; fields; (split; [lia|]; split; [lia | done])|].
  destruct (list_blobs az); [fields; split; [lia|]; split; [lia | done]|].
  match goal with |- context [sweep_blobs az ?c ?bs ?acc] =>
    pose proof (sweep_blobs_count az c bs acc Hnd Hnd (λ x H, H)) as (H1 & H2);
    pose proof (sweep_blobs_spec az c bs acc) as (Hsub & _);
    cbv zeta in *;
    assert (Hnd' : NoDup (container (sweep_blobs az c bs acc).1.1));
    [ | destruct (sweep_blobs az c bs acc) as [[s1 n] [e|]] ]
  end; fields.
  2,3: split; [lia|]; split; [lia | exact Hnd'].
  clear H1 H2 Hsub.
  match goal with |- context [sweep_blobs az ?c ?bs ?acc] =>
    generalize acc, (eq_refl : container acc.1 = container s)
  end.
  intros acc Hacc. rewrite <- Hacc in Hnd. clear Hacc. revert acc Hnd.
  induction (container s) as [|b bs IH]; intros acc Hnd; cbn [sweep_blobs]; [exact Hnd|].
  pose proof (sweep_blob_spec az (cutoff_date now RETENTION_DAYS) b acc) as (Hc & _).
  cbv zeta in Hc.
  assert (Hnd1 : NoDup (container (sweep_blob az (cutoff_date now RETENTION_DAYS) b acc).1.1)).
  { rewrite Hc. destruct (_ && _); [by apply NoDup_filter | exact Hnd]. }
  destruct (sweep_blob az (cutoff_date now RETENTION_DAYS) b acc) as [acc1 [e|]];
    cbn [fst snd] in *; [exact Hnd1|]. by apply IH.
Qed.

(** The sweep takes blobs out one name at a time, so a container of the
    same length is the same container. *)
Lemma sweep_blob_unchanged az cutoff b acc :
  (List.length (container (sweep_blob az cutoff b acc).1.1) ≤ List.length (container acc.1))%nat
  ∧ (List.length (container (sweep_blob az cutoff b acc).1.1) = List.length (container acc.1) →
     container (sweep_blob az cutoff b acc).1.1 = container acc.1).
Proof.
  pose proof (sweep_blob_spec az cutoff b acc) as (Hc & _). cbv zeta in Hc. rewrite Hc.
  destruct (_ && _); [|done].
  assert (Hf : ∀ l : list string,
               (List.length (filter (λ x, x ≠ b) l) ≤ List.length l)%nat
               ∧ (List.length (filter (λ x, x ≠ b) l) = List.length l →
                  filter (λ x, x ≠ b) l = l)).
  { induction l as [|a l [IH1 IH2]]; [done|].
    destruct (decide (a ≠ b)).
    - rewrite filter_cons_True by done. simpl. split; [lia|]. intros H. f_equal. apply IH2. lia.
    - rewrite filter_cons_False by done. simpl. split; [lia|]. lia. }
  apply Hf.
Qed.

Lemma sweep_blobs_unchanged az cutoff bs acc :
  List.length (container (sweep_blobs az cutoff bs acc).1.1) = List.length (container acc.1) →
  container (sweep_blobs az cutoff bs acc).1.1 = container acc.1.
Proof.
  assert (H : ∀ bs acc,
    (List.length (container (sweep_blobs az cutoff bs acc).1.1)
     ≤ List.length (container acc.1))%nat
    ∧ (List.length (container (sweep_blobs az cutoff bs acc).1.1)
       = List.length (container acc.1) →
       container (sweep_blobs az cutoff bs acc).1.1 = container acc.1)).
  { clear. intros bs. induction bs as [|b bs IH]; intros acc; cbn [sweep_blobs]; [done|].
    destruct (sweep_blob_unchanged az cutoff b acc) as [S1 S2].
    destruct (sweep_blob az cutoff b acc) as [acc1 [e|]]; cbn [fst snd] in *; [done|].
    destruct (IH acc1) as [I1 I2]. split; [lia|].
    intros Hlen. rewrite I2 by lia. apply S2. lia. }
  apply H.
Qed.

(** X12. On a container without duplicate names the number the remote
    sweep returns is the number of blobs that are gone: the length before
    minus the length after. It is never negative, the container stays free
    of duplicates, and the count is 0 exactly when the container is
    unchanged. *)
Theorem remote_sweep_count (az : azure) (now : datetime) (s : state) :
  NoDup (container s) →
  let r := cleanup_old_backups_azure az now s in
  r.2 = Z.of_nat (List.length (container s)) - Z.of_nat (List.length (container r.1))
  ∧ 0 ≤ r.2
  ∧ NoDup (container r.1)
  ∧ (r.2 = 0 ↔ container r.1 = container s).
Proof.
  intros Hnd. cbv zeta.
  destruct (remote_sweep_count_lemma az now s Hnd) as (H1 & H2 & H3).
  split; [exact H1|]. split; [exact H2|]. split; [exact H3|].
  split; [|intros He; rewrite He in H1; lia].
  intros H0.
  assert (Hsub : ∀ x, x ∈ container (cleanup_old_backups_azure az now s).1 → x ∈ container s).
  { unfold cleanup_old_backups_azure. cbv zeta.
    destruct (falsy _ || falsy _); [done|].
    destruct (b64decode az); [done|].
    destruct (from_connection_string az); [by case_match|].
    destruct (list_blobs az); [done|].
    match goal with |- context [sweep_blobs az ?c ?bs ?acc] =>
      pose proof (sweep_blobs_spec az c bs acc) as (Hs & _);
      cbv zeta in *; destruct (sweep_blobs az c bs acc) as [[s1 n] [e|]]
    end; exact Hs. }
  assert (Hlen : List.length (container (cleanup_old_backups_azure az now s).1)
                 = List.length (container s)) by lia.
  clear H0 H1 H2. revert Hsub Hlen H3 Hnd.
  unfold cleanup_old_backups_azure. cbv zeta.
  destruct (falsy _ || falsy _); [done|].
  destruct (b64decode az); [done|].
  destruct (from_connection_string az); [by case_match|].
  destruct (list_blobs az); [done|].
  match goal with |- context [sweep_blobs az ?c ?bs ?acc] =>
    pose proof (sweep_blobs_unchanged az c bs acc) as Hu;
    destruct (sweep_blobs az c bs acc) as [[s1 n] [e|]]
  end; fields; intros _ Hlen _ _; by apply Hu.
Qed.

Lemma remote_sweep_count_witness :
  let r := cleanup_old_backups_azure azure_up (mk_datetime 2024 6 1 0 0 0 0)
             scenario_D_state in
  r.2 = Z.of_nat (List.length (container scenario_D_state))
        - Z.of_nat (List.length (container r.1))
  ∧ 0 ≤ r.2 ∧ NoDup (container r.1)
  ∧ (r.2 = 0 ↔ container r.1 = container scenario_D_state).
Proof.
  cbv zeta.
  refine (remote_sweep_count azure_up (mk_datetime 2024 6 1 0 0 0 0) scenario_D_state _).
  apply (bool_decide_unpack _). vm_compute. exact I.
Defined.

Lemma sweep_blobs_rest az cutoff bs acc :
  let r := sweep_blobs az cutoff bs acc in
  errors r.1.1 = errors acc.1 ∧ files r.1.1 = files acc.1
  ∧ failed_uploads r.1.1 = failed_uploads acc.1
  ∧ (∀ e, r.2 = Some e → ∃ b, b ∈ bs ∧ blob_expired cutoff b ∧ delete_blob az b = Some e).
Proof.
  cbv zeta. revert acc. induction bs as [|b bs IH]; intros acc; cbn [sweep_blobs].
  - by repeat split.
  - pose proof (sweep_blob_rest az cutoff b acc) as (E1 & E2 & E3 & E4). cbv zeta in *.
    destruct (sweep_blob az cutoff b acc) as [acc1 [e|]]; cbn [fst snd] in *.
    + split; [exact E1|]. split; [exact E2|]. split; [exact E3|].
      intros e' [= <-]. exists b. destruct (E4 e eq_refl). split; [by left | done].
    + destruct (IH acc1) as (I1 & I2 & I3 & I4).
      split; [congruence|]. split; [congruence|]. split; [congruence|].
      intros e He. destruct (I4 e He) as (b' & Hb' & ?). exists b'. split; [by right | done].
Qed.

(** X13. The remote sweep touches neither local files nor the ledger.
    When the client cannot be set up it deletes nothing, returns 0 and
    records no error of its own. Otherwise it records at most one error:
    the text of the exception raised by the listing or by the deletion of
    an expired blob. *)
Theorem remote_sweep_errors (az : azure) (now : datetime) (s : state) :
  let r := cleanup_old_backups_azure az now s in
  let cutoff := cutoff_date now RETENTION_DAYS in
  files r.1 = files s ∧ failed_uploads r.1 = failed_uploads s
  ∧ (∀ m, setup_failure az s = Some m →
       r.2 = 0 ∧ container r.1 = container s ∧ errors r.1 = errors s
       ∧ events r.1 = events s ++ [EvCleanupAzure])
  ∧ (errors r.1 = errors s
     ∨ ∃ e, errors r.1 = errors s ++ [cleanup_error e]
            ∧ setup_failure az s = None
            ∧ (list_blobs az = Some e
               ∨ ∃ b, b ∈ container s ∧ blob_expired cutoff b ∧ delete_blob az b = Some e)).
Proof.
  cbv zeta. unfold cleanup_old_backups_azure, setup_failure, cleanup_error. cbv zeta. fields.
  destruct (falsy _ || falsy _); [fields; repeat split; auto|].
  destruct (b64decode az); [fields; repeat split; auto|].
  destruct (from_connection_string az); [case_match; fields; repeat split; auto|].
  destruct (list_blobs az) as [e|].
  { fields. split; [done|]. split; [done|]. split; [intros m; discriminate|].
    right. exists e. auto. }
  match goal with |- context [sweep_blobs az ?c ?bs ?acc] =>
    pose proof (sweep_blobs_rest az c bs acc) as (E1 & E2 & E3 & E4);
    cbv zeta in *; destruct (sweep_blobs az c bs acc) as [[s1 n] [e|]]
  end; fields.
  - split; [done|]. split; [done|]. split; [intros m; discriminate|].
    right. exists e. rewrite E1. split; [done|]. split; [done|]. right. by apply E4.
  - split; [done|]. split; [done|]. split; [intros m; discriminate|]. by left.
Qed.

Lemma remote_sweep_errors_witness :
  let s := mk_state (mk_config (Some "backupacct") None None false "postgres" "tcp" true None
                       false false) [] [] ∅ None None ∅ ∅
             ["sales_20200101_120000_000001.sql.gz"] [] [] in
  let r := cleanup_old_backups_azure azure_up (night 1) s in
  r.2 = 0 ∧ container r.1 = container s ∧ errors r.1 = errors s
  ∧ events r.1 = events s ++ [EvCleanupAzure].
Proof.
  cbv zeta.
  exact (proj1 (proj2 (proj2 (remote_sweep_errors azure_up (night 1)
    (mk_state (mk_config (Some "backupacct") None None false "postgres" "tcp" true None
                 false false) [] [] ∅ None None ∅ ∅
       ["sales_20200101_120000_000001.sql.gz"] [] [])))) "Azure credentials not configured"
    eq_refl).
Defined.

Lemma sweep_blobs_app az cutoff l1 l2 acc :
  sweep_blobs az cutoff (l1 ++ l2) acc
  = match sweep_blobs az cutoff l1 acc with
    | (acc', None) => sweep_blobs az cutoff l2 acc'
    | (acc', Some e) => (acc', Some e)
    end.
Proof.
  revert acc. induction l1 as [|b l1 IH]; intros acc; cbn [sweep_blobs app]; [reflexivity|].
  destruct (sweep_blob az cutoff b acc) as [acc1 [e|]]; [reflexivity | apply IH].
Qed.

(** X14. The remote sweep stops at the first deletion that raises
    something other than a [ValueError] or an [AttributeError] (those two
    the handler inside the loop catches, and the sweep goes on). When the
    blobs listed before [b] can be deleted and the deletion of the expired
    blob [b] raises such an exception, then [b] and every blob after it
    stay, expired or not; of the blobs before it exactly the unexpired ones
    stay; the error recorded is that exception; and the count returned is
    the number of blobs gone. *)
Theorem remote_sweep_stops_at_failure (az : azure) (now : datetime) (s : state)
    (l1 l2 : list string) (b : string) (e : exn) :
  let r := cleanup_old_backups_azure az now s in
  let cutoff := cutoff_date now RETENTION_DAYS in
  setup_failure az s = None → list_blobs az = None →
  container s = l1 ++ b :: l2 → NoDup (container s) →
  (∀ x, x ∈ l1 → delete_blob az x = None) →
  blob_expired cutoff b → delete_blob az b = Some e → caught_in_loop e = false →
  (∀ x, x ∈ b :: l2 → x ∈ container r.1)
  ∧ (∀ x, x ∈ l1 → x ∈ container r.1 ↔ ¬ blob_expired cutoff x)
  ∧ errors r.1 = errors s ++ [cleanup_error e]
  ∧ r.2 = Z.of_nat (List.length (container s)) - Z.of_nat (List.length (container r.1)).
Proof.
  cbv zeta. intros Hs Hl Hc Hnd Hd1 Hexp Hdb Hout.
  destruct (remote_sweep_count_lemma az now s Hnd) as (Hcount & _).
  split; [|split; [|split; [|exact Hcount]]].
  all: unfold cleanup_old_backups_azure, setup_failure, cleanup_error in *; cbv zeta.
  all: destruct (falsy _ || falsy _); [discriminate|].
  all: destruct (b64decode az); [discriminate|].
  all: destruct (from_connection_string az); [discriminate|].
  all: rewrite Hl; fields; rewrite Hc, sweep_blobs_app.
  all: match goal with |- context [sweep_blobs ?a ?c ?l ?acc] =>
         pose proof (sweep_blobs_spec a c l acc) as (H1 & H2 & H3 & _);
         pose proof (sweep_blobs_rest a c l acc) as (E1 & _);
         cbv zeta in *; destruct (H3 Hd1) as (Hnone & Hgone & _); clear H3;
         destruct (sweep_blobs a c l acc) as [[s1 n] r1]
       end; cbn [fst snd] in *; subst r1; cbn [sweep_blobs].
  all: match goal with |- context [sweep_blob ?a ?c ?x ?acc] =>
         pose proof (sweep_blob_spec a c x acc) as (Hcb & Hrb & _);
         pose proof (sweep_blob_rest a c x acc) as (Eb & _);
         cbv zeta in *; unfold leaves_loop in Hrb;
         rewrite (proj2 (blob_expiredb_spec _ _) Hexp), Hdb in *;
         rewrite Hout in Hrb;
         rewrite bool_decide_false in Hcb by done;
         destruct (sweep_blob a c x acc) as [[s2 n2] r2]
       end; cbn [fst snd andb] in *; subst r2; fields.
  all: rewrite Hc in *; apply NoDup_app in Hnd as (Hnd1 & Hdisj & Hnd2).
  - intros x Hx. rewrite Hcb.
    destruct (decide (x ∈ container s1)) as [? | Hnin]; [done|]. exfalso.
    destruct (H2 x) as [Hin _]; [apply elem_of_app; by right | exact Hnin |].
    by apply (Hdisj x).
  - intros x Hx. rewrite Hcb. split.
    + intros Hin Hx'. by apply (Hgone x Hx Hx').
    + intros Hne. destruct (decide (x ∈ container s1)) as [? | Hnin]; [done|]. exfalso.
      destruct (H2 x) as [_ ?]; [apply elem_of_app; by left | exact Hnin | done].
  - by rewrite Eb, E1.
Qed.

Lemma remote_sweep_stops_at_failure_witness :
  let r := cleanup_old_backups_azure azure_no_delete (night 1) two_old_blobs in
  container r.1 = container two_old_blobs
  ∧ errors r.1 = [cleanup_error network_down].
Proof.
  cbv zeta.
  assert (Hnd : NoDup (container two_old_blobs))
    by (apply (bool_decide_unpack _); vm_compute; exact I).
  assert (Hexp : blob_expired (cutoff_date (night 1) RETENTION_DAYS)
                   "sales_20200101_120000_000001.sql.gz").
  { exists (list_ascii_of_string "20200101"), (mk_datetime 2020 1 1 0 0 0 0).
    split; [reflexivity|]. split; [reflexivity|]. vm_compute. reflexivity. }
  destruct (remote_sweep_stops_at_failure azure_no_delete (night 1) two_old_blobs
              [] ["sales_20200102_120000_000001.sql.gz"]
              "sales_20200101_120000_000001.sql.gz" network_down
              eq_refl eq_refl eq_refl Hnd
              (λ x Hx, False_rect _ (proj1 (elem_of_nil x) Hx)) Hexp eq_refl eq_refl)
    as (_ & _ & H3 & H4).
  split; [|exact H3].
  vm_compute. reflexivity.
Defined.

(** A [ValueError] raised by a deletion is caught inside the loop: the
    blob stays, no error is recorded and the sweep goes on to the next
    blob. *)
Example remote_sweep_goes_on :
  let r := cleanup_old_backups_azure azure_value_error (night 1) two_old_blobs in
  container r.1 = ["sales_20200101_120000_000001.sql.gz"] ∧ errors r.1 = [] ∧ r.2 = 1
  ∧ (WARNING, "Could not parse date from blob name sales_20200101_120000_000001.sql.gz: "
              +:+ "invalid blob reference") ∈ log r.1.
Proof.
  cbv zeta. split; [vm_compute; reflexivity|]. split; [vm_compute; reflexivity|].
  split; [vm_compute; reflexivity|]. apply (bool_decide_unpack _). vm_compute. exact I.
Qed.

Lemma cleanup_azure_container az now s :
  let r := cleanup_old_backups_azure az now s in
  let cutoff := cutoff_date now RETENTION_DAYS in
  (∀ b, b ∈ container s → b ∉ container r.1 → blob_expired cutoff b)
  ∧ (storage_answers az s →
     ∀ b, b ∈ container s → blob_expired cutoff b → b ∉ container r.1).
Proof.
  cbv zeta. unfold cleanup_old_backups_azure, storage_answers. cbv zeta. fields.
  destruct (falsy (azure_account_name _)) eqn:E1;
    [cbn [orb]; fields; split; [done | intros (? & _); done]|].
  destruct (falsy (azure_account_key _)) eqn:E2;
    [cbn [orb]; fields; split; [done | intros (_ & ? & _); done]|].
  cbn [orb].
  destruct (b64decode az) eqn:E3; [fields; split; [done | intros (_ & _ & ? & _); done]|].
  destruct (from_connection_string az) eqn:E4;
    [case_match; fields; (split; [done | intros (_ & _ & _ & ? & _); done])|].
  destruct (list_blobs az) eqn:E5;
    [fields; split; [done | intros (_ & _ & _ & _ & ? & _); done]|].
  match goal with |- context [sweep_blobs az ?c ?bs ?acc] =>
    pose proof (sweep_blobs_spec az c bs acc) as (H1 & H2 & H3 & _);
    cbv zeta in *; destruct (sweep_blobs az c bs acc) as [[s1 n] [e|]]
  end; fields.
  - split; [intros b Hb Hn; by apply (H2 b Hb Hn)|].
    intros (_ & _ & _ & _ & _ & Hd). by destruct (H3 Hd).
  - split; [intros b Hb Hn; by apply (H2 b Hb Hn)|].
    intros (_ & _ & _ & _ & _ & Hd) b Hb He. destruct (H3 Hd) as (_ & I2 & _). by apply I2.
Qed.

(** The sweep reads out of an artifact name the day the artifact was
    made. *)
Lemma artifact_expired_iff db t cutoff :
  Calendar.valid_datetime t = true →
  blob_expired cutoff (backup_file_name db t) ↔ Calendar.micros (midnight t) < cutoff.
Proof.
  intros Hv.
  assert (Hm : DatePattern.date_match (backup_file_name db t) = Some (Calendar.strftime_Ymd t)).
  { unfold DatePattern.date_match.
    destruct (backup_file_name_shaped db t) as (tl & -> & Hs).
    by apply PatternFacts.search_shaped. }
  pose proof (strptime_strftime t Hv) as Hp.
  unfold blob_expired, midnight. split.
  - intros (d & bd & Hd & Hb & Hlt). rewrite Hm in Hd. injection Hd as <-.
    rewrite Hp in Hb. injection Hb as <-. exact Hlt.
  - intros Hlt. by eexists _, _.
Qed.

Lemma midnight_close t :
  Calendar.valid_datetime t = true →
  Calendar.micros t - Calendar.us_per_day < Calendar.micros (midnight t)
  ∧ Calendar.micros (midnight t) ≤ Calendar.micros t.
Proof.
  intros Hv. unfold Calendar.valid_datetime in Hv.
  repeat (apply andb_prop in Hv as [Hv ?]).
  unfold Calendar.micros, midnight, Calendar.us_per_day. cbn [year month day hour minute second microsecond].
  lia.
Qed.

(** X15. An artifact named by [backup_database] at time [t] is judged by
    the start of the day of [t]: the remote sweep keeps it whenever that
    midnight is not before the cutoff, in particular whenever [now] is at
    most [RETENTION_DAYS - 1] days after [t]; and when the storage answers,
    the sweep removes it as soon as that midnight is before the cutoff. *)
Theorem artifact_kept_within_window (az : azure) (now t : datetime) (db : string) (s : state) :
  let r := cleanup_old_backups_azure az now s in
  let name := backup_file_name db t in
  Calendar.valid_datetime t = true → name ∈ container s →
  (cutoff_date now RETENTION_DAYS ≤ Calendar.micros (midnight t) → name ∈ container r.1)
  ∧ (Calendar.micros now ≤ Calendar.micros t + (RETENTION_DAYS - 1) * Calendar.us_per_day →
     name ∈ container r.1)
  ∧ (storage_answers az s → Calendar.micros (midnight t) < cutoff_date now RETENTION_DAYS →
     name ∉ container r.1).
Proof.
  cbv zeta. intros Hv Hin.
  destruct (cleanup_azure_container az now s) as (Hrem & Hgo). cbv zeta in *.
  pose proof (artifact_expired_iff db t (cutoff_date now RETENTION_DAYS) Hv) as Hiff.
  assert (Hkeep : cutoff_date now RETENTION_DAYS ≤ Calendar.micros (midnight t) →
                  backup_file_name db t ∈ container (cleanup_old_backups_azure az now s).1).
  { intros Hc.
    destruct (decide (backup_file_name db t
                      ∈ container (cleanup_old_backups_azure az now s).1)) as [? | Hn];
      [done|].
    apply (Hrem _ Hin), Hiff in Hn. lia. }
  split; [exact Hkeep|]. split.
  - intros Hc. apply Hkeep. destruct (midnight_close t Hv) as [Hm _].
    unfold cutoff_date, RETENTION_DAYS in *. lia.
  - intros Ha Hlt. apply (Hgo Ha _ Hin). by apply Hiff.
Qed.

Lemma artifact_kept_within_window_witness :
  let s := mk_state quiet_config [] [] ∅ None None ∅ ∅
             [backup_file_name "app_db" (night 1)] [] [] in
  backup_file_name "app_db" (night 1)
  ∈ container (cleanup_old_backups_azure azure_up (mk_datetime 2025 5 30 23 0 0 0) s).1.
Proof.
  cbv zeta.
  refine (proj1 (proj2 (artifact_kept_within_window azure_up (mk_datetime 2025 5 30 23 0 0 0)
            (night 1) "app_db"
            (mk_state quiet_config [] [] ∅ None None ∅ ∅
               [backup_file_name "app_db" (night 1)] [] []) eq_refl _)) _).
  - by left.
  - vm_compute. discriminate.
Defined.

(** ** The local sweep, further *)

Lemma glob_same_files dir suffix s s' : files s' = files s → glob dir suffix s' = glob dir suffix s.
Proof. unfold glob. by intros ->. Qed.

Lemma glob_length_delete dir suffix s s' q :
  files s' = delete q (files s) →
  (List.length (glob dir suffix s')
   + (if in_glob dir suffix q && bool_decide (is_Some (files s !! q)) then 1 else 0))%nat
  = List.length (glob dir suffix s).
Proof.
  intros Hf. unfold glob. rewrite Hf.
  destruct (files s !! q) as [t|] eqn:E.
  - rewrite bool_decide_true by eauto. rewrite andb_true_r.
    rewrite <- (map_to_list_delete (files s) q t E).
    rewrite fmap_cons. cbn [fst].
    destruct (in_glob dir suffix q) eqn:Hg.
    + rewrite filter_cons_True by exact Hg. simpl. lia.
    + rewrite filter_cons_False by (by rewrite Hg). lia.
  - rewrite bool_decide_false by (intros [? ?]; done). rewrite andb_false_r.
    rewrite delete_id by exact E. lia.
Qed.

Lemma temp_not_artifact q : in_glob TEMP_DIR ".sql" q = true → is_artifact q = false.
Proof.
  unfold is_artifact, in_glob. intros H. apply andb_prop in H as [H _].
  apply String.eqb_eq in H. rewrite H. reflexivity.
Qed.

Lemma sweep_temp_file_rest u q s :
  errors (sweep_temp_file u q s) = errors s ∧ container (sweep_temp_file u q s) = container s
  ∧ failed_uploads (sweep_temp_file u q s) = failed_uploads s
  ∧ (in_glob TEMP_DIR ".sql" q = true →
     List.length (glob BACKUP_DIR ".sql.gz" (sweep_temp_file u q s))
     = List.length (glob BACKUP_DIR ".sql.gz" s)).
Proof.
  unfold sweep_temp_file. cbv zeta. destruct (u q); fields; repeat split; try done.
  intros Hq.
  match goal with |- List.length (glob _ _ ?s') = _ =>
    pose proof (glob_length_delete BACKUP_DIR ".sql.gz" s s' q eq_refl) as H
  end.
  change (in_glob BACKUP_DIR ".sql.gz" q) with (is_artifact q) in H.
  rewrite (temp_not_artifact q Hq) in H. cbn [andb] in H. lia.
Qed.

Lemma sweep_local_file_rest u cutoff q acc :
  let r := sweep_local_file u cutoff q acc in
  errors r.1 = errors acc.1 ∧ container r.1 = container acc.1
  ∧ (is_artifact q = true →
     r.2 - acc.2
     = Z.of_nat (List.length (glob BACKUP_DIR ".sql.gz" acc.1))
       - Z.of_nat (List.length (glob BACKUP_DIR ".sql.gz" r.1))
     ∧ acc.2 ≤ r.2).
Proof.
  cbv zeta. destruct acc as [s n]. unfold sweep_local_file. cbv zeta. cbn [fst snd].
  assert (Hsame : ∀ s', files s' = files s →
            n - n = Z.of_nat (List.length (glob BACKUP_DIR ".sql.gz" s))
                    - Z.of_nat (List.length (glob BACKUP_DIR ".sql.gz" s')) ∧ n ≤ n).
  { intros s' Hf. rewrite (glob_same_files _ _ _ _ Hf). lia. }
  assert (Hdel : ∀ s' t, files s !! q = Some t → is_artifact q = true →
            files s' = delete q (files s) →
            n + 1 - n = Z.of_nat (List.length (glob BACKUP_DIR ".sql.gz" s))
                        - Z.of_nat (List.length (glob BACKUP_DIR ".sql.gz" s')) ∧ n ≤ n + 1).
  { intros s' t Ht Ha Hf.
    pose proof (glob_length_delete BACKUP_DIR ".sql.gz" s s' q Hf) as H.
    change (in_glob BACKUP_DIR ".sql.gz" q) with (is_artifact q) in H.
    rewrite Ha, bool_decide_true in H by eauto. cbn [andb] in H. lia. }
  destruct (String.eqb (path_name q) ".failed_uploads.json");
    [cbn [fst snd]; split; [done|]; split; [done|]; intros _; by apply Hsame|].
  destruct (files s !! q) as [t|] eqn:Ef;
    [|cbn [fst snd]; fields; split; [done|]; split; [done|]; intros _; by apply Hsame].
  destruct ((t <? cutoff) && negb _).
  - destruct (u q); cbn [fst snd]; fields; (split; [done|]; split; [done|]; intros Ha).
    + by apply Hsame.
    + by apply (Hdel _ t).
  - destruct (failed_uploads s !! q) as [e|];
      [|cbn [fst snd]; split; [done|]; split; [done|]; intros _; by apply Hsame].
    destruct (MAX_UPLOAD_RETRIES <=? retry_count e);
      [|cbn [fst snd]; split; [done|]; split; [done|]; intros _; by apply Hsame].
    destruct (u q); cbn [fst snd]; fields; (split; [done|]; split; [done|]; intros Ha).
    + by apply Hsame.
    + by apply (Hdel _ t).
Qed.

Lemma cleanup_local_rest u now s :
  let r := cleanup_local_backups u now s in
  errors r.1 = errors s ∧ container r.1 = container s
  ∧ r.2 = Z.of_nat (List.length (glob BACKUP_DIR ".sql.gz" s))
          - Z.of_nat (List.length (glob BACKUP_DIR ".sql.gz" r.1))
  ∧ 0 ≤ r.2.
Proof.
  cbv zeta. unfold cleanup_local_backups. cbv zeta.
  match goal with |- context [foldl ?f ?s0 (glob TEMP_DIR ".sql" ?s0)] =>
    assert (H1 : errors (foldl f s0 (glob TEMP_DIR ".sql" s0)) = errors s
                 ∧ container (foldl f s0 (glob TEMP_DIR ".sql" s0)) = container s
                 ∧ List.length (glob BACKUP_DIR ".sql.gz" (foldl f s0 (glob TEMP_DIR ".sql" s0)))
                   = List.length (glob BACKUP_DIR ".sql.gz" s));
    [ assert (Hall : Forall (λ q, in_glob TEMP_DIR ".sql" q = true) (glob TEMP_DIR ".sql" s0))
        by (apply Forall_forall; intros q Hq; by apply elem_of_glob in Hq as [? _]);
      assert (H0 : errors s0 = errors s ∧ container s0 = container s
                   ∧ List.length (glob BACKUP_DIR ".sql.gz" s0)
                     = List.length (glob BACKUP_DIR ".sql.gz" s)) by done;
      revert Hall H0; generalize (glob TEMP_DIR ".sql" s0); generalize s0;
      intros y l; revert y; induction l as [|q l IH]; intros y Hall (A1 & A2 & A3);
      cbn [foldl]; [done|];
      apply Forall_cons in Hall as [Hq Hall];
      destruct (sweep_temp_file_rest u q y) as (R1 & R2 & _ & R4);
      apply IH; [exact Hall|]; rewrite R1, R2, (R4 Hq); done
    | generalize dependent (foldl f s0 (glob TEMP_DIR ".sql" s0)); intros s1 (A1 & A2 & A3) ]
  end.
  assert (H2 : ∀ l acc, Forall (λ q, is_artifact q = true) l →
            let r := foldl (λ acc backup_file,
                              sweep_local_file u (cutoff_date now LOCAL_RETENTION_DAYS)
                                               backup_file acc) acc l in
            errors r.1 = errors acc.1 ∧ container r.1 = container acc.1
            ∧ r.2 - acc.2 = Z.of_nat (List.length (glob BACKUP_DIR ".sql.gz" acc.1))
                            - Z.of_nat (List.length (glob BACKUP_DIR ".sql.gz" r.1))
            ∧ acc.2 ≤ r.2).
  { clear. induction l as [|q l IH]; intros acc Hall; cbn [foldl]; cbv zeta.
    - repeat split; lia.
    - apply Forall_cons in Hall as [Hq Hall].
      destruct (sweep_local_file_rest u (cutoff_date now LOCAL_RETENTION_DAYS) q acc)
        as (S1 & S2 & S3). cbv zeta in *. destruct (S3 Hq) as [S4 S5].
      destruct (IH (sweep_local_file u (cutoff_date now LOCAL_RETENTION_DAYS) q acc) Hall)
        as (I1 & I2 & I3 & I4). cbv zeta in *.
      split; [congruence|]. split; [congruence|]. lia. }
  specialize (H2 (glob BACKUP_DIR ".sql.gz" s1) (s1, 0)).
  destruct H2 as (B1 & B2 & B3 & B4).
  { apply Forall_forall. intros q Hq. by apply elem_of_glob in Hq as [? _]. }
  cbv zeta in *.
  destruct (foldl _ (s1, 0) (glob BACKUP_DIR ".sql.gz" s1)) as [s2 n]. cbn [fst snd] in *.
  fields.
  assert (Hg : glob BACKUP_DIR ".sql.gz"
                 (logger INFO ("Local cleanup completed: deleted " +:+ pretty n +:+ " files") s2)
               = glob BACKUP_DIR ".sql.gz" s2) by (by apply glob_same_files).
  rewrite Hg.
  split; [congruence|]. split; [congruence|]. lia.
Qed.

(** A file the sweep leaves is left as it was. *)
Lemma cleanup_local_keeps u now s p :
  is_Some (files (cleanup_local_backups u now s).1 !! p) →
  files (cleanup_local_backups u now s).1 !! p = files s !! p.
Proof.
  unfold cleanup_local_backups. cbv zeta.
  assert (Ht : ∀ l y, is_Some (files (foldl (λ s tmp_file, sweep_temp_file u tmp_file s) y l) !! p) →
            files (foldl (λ s tmp_file, sweep_temp_file u tmp_file s) y l) !! p = files y !! p).
  { induction l as [|q l IH]; intros y Hy; cbn [foldl] in *; [done|].
    rewrite (IH _ Hy). pose proof (IH _ Hy) as Hq. rewrite Hq in Hy. clear Hq IH.
    revert Hy. unfold sweep_temp_file. cbv zeta. destruct (u q); fields; [done|].
    destruct (decide (p = q)) as [-> | Hne].
    - rewrite lookup_delete_eq. by intros [? ?].
    - by rewrite lookup_delete_ne. }
  assert (Hl : ∀ l acc,
            is_Some (files (foldl (λ acc backup_file,
                                     sweep_local_file u (cutoff_date now LOCAL_RETENTION_DAYS)
                                                      backup_file acc) acc l).1 !! p) →
            files (foldl (λ acc backup_file,
                            sweep_local_file u (cutoff_date now LOCAL_RETENTION_DAYS)
                                             backup_file acc) acc l).1 !! p
            = files acc.1 !! p).
  { induction l as [|q l IH]; intros acc Hy; cbn [foldl] in *; [done|].
    rewrite (IH _ Hy). pose proof (IH _ Hy) as Hq. rewrite Hq in Hy. clear Hq IH.
    destruct (decide (p = q)) as [-> | Hne].
    - revert Hy. destruct acc as [y n]. unfold sweep_local_file. cbv zeta.
      repeat (case_match; simplify_eq; cbn [fst snd] in * ); fields;
        rewrite ?lookup_delete_eq; first [done | by intros [? ?]].
    - pose proof (sweep_local_file_other u (cutoff_date now LOCAL_RETENTION_DAYS) q acc p Hne)
        as Hv. unfold view in Hv. by injection Hv as -> _. }
  match goal with |- context [foldl ?f ?s0 (glob TEMP_DIR ".sql" ?s0)] =>
    specialize (Ht (glob TEMP_DIR ".sql" s0) s0);
    generalize dependent (foldl f s0 (glob TEMP_DIR ".sql" s0)); intros s1 Ht
  end.
  specialize (Hl (glob BACKUP_DIR ".sql.gz" s1) (s1, 0)).
  destruct (foldl _ (s1, 0) (glob BACKUP_DIR ".sql.gz" s1)) as [s2 n]. cbn [fst snd] in *.
  fields. intros Hp. rewrite (Hl Hp). rewrite Hl in Hp by exact Hp. by rewrite (Ht Hp).
Qed.

(** X16. The number the local sweep returns is the number of artifacts
    gone from the backup directory; it is never negative. The sweep records
    no error and touches no blob, and besides the ledger file it creates or
    changes no file: every other file present afterwards was there before,
    with the same time. *)
Theorem local_sweep_count (unlink_raises : string → option exn) (now : datetime) (s : state) :
  let r := cleanup_local_backups unlink_raises now s in
  r.2 = Z.of_nat (List.length (glob BACKUP_DIR ".sql.gz" s))
        - Z.of_nat (List.length (glob BACKUP_DIR ".sql.gz" r.1))
  ∧ 0 ≤ r.2
  ∧ errors r.1 = errors s ∧ container r.1 = container s
  ∧ (∀ p, p ≠ FAILED_UPLOADS_FILE →
          is_Some (files r.1 !! p) → files r.1 !! p = files s !! p).
Proof.
  cbv zeta. destruct (cleanup_local_rest unlink_raises now s) as (H1 & H2 & H3 & H4).
  cbv zeta in *.
  split; [exact H3|]. split; [exact H4|]. split; [exact H1|]. split; [exact H2|].
  intros p _. apply cleanup_local_keeps.
Qed.

Lemma sweep_temp_fold u qs y p :
  NoDup qs → p ∈ qs →
  files (foldl (λ s tmp_file, sweep_temp_file u tmp_file s) y qs) !! p
  = match u p with None => None | Some _ => files y !! p end.
Proof.
  intros Hnd. revert y. induction Hnd as [|q qs Hq Hnd IH]; intros y Hp; cbn [foldl].
  - by apply elem_of_nil in Hp.
  - destruct (decide (p = q)) as [-> | Hne].
    + pose proof (sweep_temp_view u qs (sweep_temp_file u q y) q Hq) as Hv.
      unfold view in Hv. injection Hv as -> _.
      unfold sweep_temp_file. cbv zeta. destruct (u q); fields; [done|].
      apply lookup_delete_eq.
    + apply elem_of_cons in Hp as [? | Hp]; [done|]. rewrite (IH _ Hp).
      pose proof (sweep_temp_file_view u q y p Hne) as Hv.
      unfold view in Hv. injection Hv as -> _. reflexivity.
Qed.

Lemma sweep_temp_ledger u qs y :
  failed_uploads (foldl (λ s tmp_file, sweep_temp_file u tmp_file s) y qs) = failed_uploads y.
Proof.
  revert y. induction qs as [|q qs IH]; intros y; cbn [foldl]; [reflexivity|].
  rewrite IH. by destruct (sweep_temp_file_rest u q y) as (_ & _ & ? & _).
Qed.

(** X17. Outside the artifacts of the backup directory the local sweep
    removes only the dumps of the temporary directory: any other path but
    that of the ledger file keeps its file and its ledger entry; a [.sql]
    file directly in the temporary directory is removed, whatever its age,
    unless its [unlink] raises, and a ledger entry under its path stays; the
    lock file is kept. *)
Theorem local_sweep_elsewhere (unlink_raises : string → option exn) (now : datetime)
    (s : state) (p : string) :
  let r := cleanup_local_backups unlink_raises now s in
  (is_artifact p = false → in_glob TEMP_DIR ".sql" p = false → p ≠ FAILED_UPLOADS_FILE →
     files r.1 !! p = files s !! p ∧ failed_uploads r.1 !! p = failed_uploads s !! p)
  ∧ (in_glob TEMP_DIR ".sql" p = true →
     files r.1 !! p = match unlink_raises p with None => None | Some _ => files s !! p end
     ∧ failed_uploads r.1 !! p = failed_uploads s !! p)
  ∧ files r.1 !! LOCK_FILE = files s !! LOCK_FILE.
Proof.
  cbv zeta.
  assert (Hmain : ∀ q,
    (is_artifact q = false → in_glob TEMP_DIR ".sql" q = false →
       view (cleanup_local_backups unlink_raises now s).1 q = view s q)
    ∧ (in_glob TEMP_DIR ".sql" q = true →
       view (cleanup_local_backups unlink_raises now s).1 q
       = (match unlink_raises q with None => None | Some _ => files s !! q end,
          failed_uploads s !! q))).
  { intros q. unfold cleanup_local_backups. cbv zeta.
    match goal with |- context [foldl ?f ?s0 (glob TEMP_DIR ".sql" ?s0)] =>
      pose proof (sweep_temp_view unlink_raises (glob TEMP_DIR ".sql" s0) s0 q) as Hout;
      pose proof (sweep_temp_fold unlink_raises (glob TEMP_DIR ".sql" s0) s0 q
                    (NoDup_glob _ _ _)) as Hin;
      pose proof (sweep_temp_ledger unlink_raises (glob TEMP_DIR ".sql" s0) s0) as Hled;
      pose proof (elem_of_glob TEMP_DIR ".sql" s0 q) as Hel;
      generalize dependent (foldl f s0 (glob TEMP_DIR ".sql" s0)); intros s1 Hout Hin Hled
    end.
    fields.
    assert (Hart : is_artifact q = false →
              view (foldl (λ acc backup_file,
                             sweep_local_file unlink_raises
                               (cutoff_date now LOCAL_RETENTION_DAYS) backup_file acc)
                          (s1, 0) (glob BACKUP_DIR ".sql.gz" s1)).1 q = view s1 q).
    { intros Ha. apply (sweep_local_absent _ _ _ (s1, 0)).
      rewrite elem_of_glob. intros [Hg _]. unfold is_artifact in Ha. congruence. }
    destruct (foldl _ (s1, 0) (glob BACKUP_DIR ".sql.gz" s1)) as [s2 n]. cbn [fst snd] in *.
    unfold view in *. fields. split.
    - intros Ha Ht. rewrite (Hart Ha). apply Hout. rewrite Hel, Ht. by intros [? _].
    - intros Ht. rewrite (Hart (temp_not_artifact q Ht)). rewrite Hled. f_equal.
      destruct (files s !! q) as [t|] eqn:Ef.
      + apply Hin. apply Hel. split; [exact Ht | by eexists].
      + assert (Hq : q ∉ glob TEMP_DIR ".sql"
                       (logger INFO "Cleaning up old local backups..." (emit EvCleanupLocal s))).
        { rewrite Hel. intros [_ [? ?]]. done. }
        specialize (Hout Hq). injection Hout as -> _. by destruct (unlink_raises q). }
  split; [|split].
  - intros Ha Ht _. destruct (Hmain p) as [H _]. specialize (H Ha Ht).
    unfold view in H. by injection H as -> ->.
  - intros Ht. destruct (Hmain p) as [_ H]. specialize (H Ht).
    unfold view in H. by injection H as -> ->.
  - destruct (Hmain LOCK_FILE) as [H _]. specialize (H eq_refl eq_refl).
    unfold view in H. by injection H as -> _.
Qed.

Lemma local_sweep_elsewhere_witness :
  let r := cleanup_local_backups (λ _, None) (night 9) leftover_state in
  files r.1 !! leftover_dump = None ∧ is_Some (files r.1 !! LOCK_FILE).
Proof.
  cbv zeta.
  destruct (local_sweep_elsewhere (λ _, None) (night 9) leftover_state leftover_dump)
    as (_ & H2 & H3).
  split; [exact (proj1 (H2 eq_refl))|].
  rewrite H3. apply (bool_decide_unpack _). vm_compute. exact I.
Defined.

(** ** Facts about strings *)

Lemma append_assoc (a b c : string) : (a +:+ b) +:+ c = a +:+ (b +:+ c).
Proof. induction a as [|x a IH]; [reflexivity|]. by rewrite !append_cons, IH. Qed.

Lemma string_rev_app (a b : string) : String.rev (a +:+ b) = String.rev b +:+ String.rev a.
Proof.
  unfold String.rev.
  assert (H : ∀ a acc, String.rev_app a acc = String.rev_app a EmptyString +:+ acc).
  { clear. induction a as [|c a IH]; intros acc; cbn [String.rev_app]; [reflexivity|].
    rewrite IH, (IH (String c EmptyString)). by rewrite append_assoc. }
  revert b. induction a as [|c a IH]; intros b.
  - cbn [String.rev_app]. by rewrite append_empty_r.
  - rewrite append_cons. cbn [String.rev_app]. rewrite H, IH, (H a (String c EmptyString)).
    by rewrite append_assoc.
Qed.

Lemma prefix_append (a b : string) : String.prefix a (a +:+ b) = true.
Proof. induction a as [|c a IH]; [by destruct b|]. rewrite append_cons. cbn [String.prefix]. by destruct (ascii_dec c c). Qed.

Lemma ends_with_list (l : list ascii) (suf : string) :
  String.prefix (String.rev suf)
    (String.rev (string_of_list_ascii (l ++ list_ascii_of_string suf))) = true.
Proof.
  assert (H : string_of_list_ascii (l ++ list_ascii_of_string suf)
              = string_of_list_ascii l +:+ suf).
  { induction l as [|c l IH]; cbn; [apply string_of_list_ascii_of_string|]. by rewrite IH. }
  rewrite H, string_rev_app. apply prefix_append.
Qed.


(** ** The date pattern, completely *)

(** X18. The date pattern of the remote sweep, completely. [date_match]
    finds a match with group [g] exactly when some suffix of the name has
    the shape: underscore, the eight digits [g], underscore, six digits,
    underscore, at least one digit, [.sql.gz], and then nothing or one
    newline. It finds none exactly when no suffix has that shape. So a name
    that matches ends in [.sql.gz], or in [.sql.gz] and a newline, and the
    group is eight digits. *)
Theorem date_pattern_matches_shape (name : string) :
  (∀ g, DatePattern.date_match name = Some g
        ↔ ∃ pre t, list_ascii_of_string name = pre ++ t ∧ PatternShape.shaped t g)
  ∧ (DatePattern.date_match name = None
     ↔ ∀ pre t g, list_ascii_of_string name = pre ++ t → ¬ PatternShape.shaped t g)
  ∧ (∀ g, DatePattern.date_match name = Some g →
          List.length g = 8%nat ∧ Forall (λ c, Text.is_digit c = true) g
          ∧ (Text.ends_with ".sql.gz" name = true
             ∨ Text.ends_with (".sql.gz" +:+ String "010" EmptyString) name = true)).
Proof.
  unfold DatePattern.date_match.
  assert (Hiff : ∀ g, DatePattern.search (list_ascii_of_string name) = Some g
                      ↔ ∃ pre t, list_ascii_of_string name = pre ++ t
                                 ∧ PatternShape.shaped t g).
  { intros g. split.
    - intros H. apply PatternFacts.search_Some in H as (pre & t & Heq & Hm).
      exists pre, t. split; [exact Heq|]. by apply PatternFacts.match_here_shaped.
    - intros (pre & t & -> & Hs). by apply PatternFacts.search_shaped. }
  split; [exact Hiff|]. split.
  - rewrite PatternFacts.search_None. split.
    + intros H pre t g Heq Hs. apply PatternFacts.match_here_shaped in Hs.
      rewrite (H pre t Heq) in Hs. discriminate.
    + intros H pre t Heq. destruct (DatePattern.match_here t) as [g|] eqn:E; [|reflexivity].
      apply PatternFacts.match_here_shaped in E. by destruct (H pre t g Heq).
  - intros g Hg. apply Hiff in Hg as (pre & t & Heq & a & n & tl & -> & Hlen & Hdig & _ & _ & _ & _ & Htl).
    split; [exact Hlen|]. split; [exact Hdig|].
    assert (Hends : ∀ suf : string,
              list_ascii_of_string name
              = (pre ++ "_"%char :: g ++ "_"%char :: a ++ "_"%char :: n)
                ++ list_ascii_of_string suf →
              Text.ends_with suf name = true).
    { intros suf Hn. unfold Text.ends_with.
      rewrite <- (string_of_list_ascii_of_string name), Hn.
      clear. generalize (pre ++ "_"%char :: g ++ "_"%char :: a ++ "_"%char :: n). intros l.
      apply ends_with_list. }
    destruct Htl as [-> | ->]; [left | right]; apply Hends; rewrite Heq;
      repeat (rewrite <- ?app_assoc; cbn [app]); reflexivity.
Qed.

(** * Properties of the PostgreSQL side *)

(** ** Writing to the log only *)

Lemma only_logs_refl (s : state) : only_logs s s.
Proof. exists []. destruct s. unfold set_log. cbn. by rewrite app_nil_r. Qed.

Lemma only_logs_logger (s x : state) (l : level) (m : string) :
  only_logs s x → only_logs s (logger l m x).
Proof.
  intros [k ->]. exists (k ++ [(l, m)]). destruct s. unfold logger, set_log. cbn.
  by rewrite app_assoc.
Qed.

Lemma only_logs_trans (s x y : state) : only_logs s x → only_logs x y → only_logs s y.
Proof.
  intros [k ->] [k' ->]. exists (k ++ k'). destruct s. unfold set_log. cbn.
  by rewrite app_assoc.
Qed.

Lemma only_logs_fields (s x : state) :
  only_logs s x →
  cfg x = cfg s ∧ errors x = errors s ∧ warnings x = warnings s
  ∧ failed_uploads x = failed_uploads s ∧ saved_uploads x = saved_uploads s
  ∧ lock_file x = lock_file s ∧ actual_lock_file x = actual_lock_file s
  ∧ files x = files s ∧ container x = container s ∧ events x = events s.
Proof. intros [k ->]. by destruct s. Qed.

Lemma only_logs_set_errors (s x : state) (v : list string) :
  only_logs s x → only_logs (set_errors v s) (set_errors v x).
Proof. intros [k ->]. exists k. by destruct s. Qed.

Lemma only_logs_set_warnings (s x : state) (v : list string) :
  only_logs s x → only_logs (set_warnings v s) (set_warnings v x).
Proof. intros [k ->]. exists k. by destruct s. Qed.

Ltac logs :=
  repeat lazymatch goal with
    | |- only_logs ?s ?t =>
        first
          [ constr_eq s t; apply only_logs_refl
          | match goal with
            | H : only_logs ?a ?b |- _ => constr_eq a s; constr_eq b t; exact H
            end
          | lazymatch t with
            | logger _ _ _ => apply only_logs_logger
            end ]
    end.

(** ** The validator *)

Lemma validate_result (identifier identifier_type : string) (s : state) :
  (_validate_identifier identifier identifier_type s).2 = accepted identifier.
Proof.
  unfold _validate_identifier, accepted.
  destruct (String.eqb identifier EmptyString); [reflexivity|].
  destruct (match_identifier identifier); [|reflexivity].
  by destruct (63 <? String.length identifier)%nat.
Qed.

Lemma validate_only_logs (identifier identifier_type : string) (s : state) :
  only_logs s (_validate_identifier identifier identifier_type s).1.
Proof.
  unfold _validate_identifier.
  destruct (String.eqb identifier EmptyString); cbn [fst]; [logs|].
  destruct (negb (match_identifier identifier)); cbn [fst]; [logs|].
  destruct (63 <? String.length identifier)%nat; cbn [fst]; logs.
Qed.

Lemma validate_true (identifier identifier_type : string) (s : state) :
  accepted identifier = true →
  _validate_identifier identifier identifier_type s = (s, true).
Proof.
  unfold _validate_identifier, accepted. intros H.
  destruct (String.eqb identifier EmptyString); [discriminate|].
  destruct (match_identifier identifier); [|discriminate].
  by destruct (63 <? String.length identifier)%nat.
Qed.

Lemma at_end_cases (l : list ascii) :
  DatePattern.at_end l = true ↔ l = [] ∨ l = ["010"%char].
Proof.
  destruct l as [|c [|d l]]; cbn.
  - by split; [left|].
  - rewrite Ascii.eqb_eq. split; [intros ->; by right | intros [?| [=]]; done].
  - split; [done | intros [?|?]; done].
Qed.

Lemma skip_identifier_chars_spec (l : list ascii) :
  ∃ body, l = body ++ skip_identifier_chars l
          ∧ Forall (λ x, identifier_char x = true) body.
Proof.
  induction l as [|c l (body & Heq & Hall)]; [by exists []|].
  cbn [skip_identifier_chars]. destruct (identifier_char c) eqn:E.
  - exists (c :: body). split; [cbn; by rewrite <- Heq | by constructor].
  - by exists [].
Qed.

Lemma skip_identifier_chars_app (body tl : list ascii) :
  Forall (λ x, identifier_char x = true) body →
  tl = [] ∨ tl = ["010"%char] →
  skip_identifier_chars (body ++ tl) = tl.
Proof.
  intros Hall Htl. induction Hall as [|c body Hc _ IH]; cbn [app skip_identifier_chars].
  - by destruct Htl as [-> | ->].
  - by rewrite Hc.
Qed.

Lemma length_list_ascii (x : string) :
  List.length (list_ascii_of_string x) = String.length x.
Proof. induction x as [|c x IH]; [reflexivity|]. cbn. by rewrite IH. Qed.

Lemma accepted_shape (identifier : string) :
  accepted identifier = true
  ↔ ∃ c body tl,
      list_ascii_of_string identifier = c :: body ++ tl
      ∧ identifier_start c = true
      ∧ Forall (λ x, identifier_char x = true) body
      ∧ (tl = [] ∨ tl = ["010"%char])
      ∧ (String.length identifier ≤ 63)%nat.
Proof.
  unfold accepted, match_identifier. split.
  - intros H. apply andb_true_iff in H as [H Hlen]. apply andb_true_iff in H as [_ H].
    destruct identifier as [|c rest]; [discriminate|]. cbn [list_ascii_of_string] in *.
    apply andb_true_iff in H as [Hc Hend].
    destruct (skip_identifier_chars_spec (list_ascii_of_string rest)) as (body & Heq & Hall).
    exists c, body, (skip_identifier_chars (list_ascii_of_string rest)).
    split; [by rewrite <- Heq|]. split; [exact Hc|]. split; [exact Hall|].
    split; [by apply at_end_cases|].
    apply negb_true_iff, Nat.ltb_ge in Hlen. exact Hlen.
  - intros (c & body & tl & Heq & Hc & Hall & Htl & Hlen).
    destruct identifier as [|c' rest]; [discriminate|]. cbn [list_ascii_of_string] in *.
    injection Heq as -> Heq. rewrite Heq, (skip_identifier_chars_app _ _ Hall Htl), Hc.
    assert (DatePattern.at_end tl = true) as -> by by apply at_end_cases.
    cbn [String.eqb negb andb]. apply negb_true_iff, Nat.ltb_ge. exact Hlen.
Qed.

(** X19. [_validate_identifier] accepts exactly the strings of at most 63
    characters that start with an ASCII letter or an underscore and go on
    with ASCII letters, digits, underscores and dollar signs, with nothing
    or one newline after them (the end anchor of the pattern lets a final
    newline through). It writes to the log only, and nothing at all when it
    accepts; its answer depends neither on the state nor on the kind of
    identifier named in the message. *)
Theorem validate_identifier_accepts (identifier identifier_type : string) (s : state) :
  let r := _validate_identifier identifier identifier_type s in
  (r.2 = true
   ↔ ∃ c body tl,
       list_ascii_of_string identifier = c :: body ++ tl
       ∧ identifier_start c = true
       ∧ Forall (λ x, identifier_char x = true) body
       ∧ (tl = [] ∨ tl = ["010"%char])
       ∧ (String.length identifier ≤ 63)%nat)
  ∧ only_logs s r.1
  ∧ (r.2 = true → r.1 = s)
  ∧ (∀ identifier_type' s', (_validate_identifier identifier identifier_type' s').2 = r.2).
Proof.
  cbv zeta. split; [|split; [|split]].
  - rewrite validate_result. apply accepted_shape.
  - apply validate_only_logs.
  - rewrite validate_result. intros H. by rewrite (validate_true _ _ _ H).
  - intros ty' s'. by rewrite !validate_result.
Qed.

(** ** The connection arguments *)

Lemma accepted_no_dash (a : string) : accepted a = true → String.prefix "-" a = false.
Proof.
  intros H. apply accepted_shape in H as (c & body & tl & Heq & Hc & _).
  destruct a as [|c' rest]; [discriminate|]. injection Heq as -> _.
  cbn [String.prefix]. destruct (ascii_dec "-" c) as [<-|]; [discriminate | by destruct rest].
Qed.

Lemma build_args_cases (user : string) (database : option string) (s : state) :
  let r := _build_pg_connection_args user database s in
  only_logs s r.1
  ∧ match r.2 with
    | inr args =>
        r.1 = s ∧ accepted user = true
        ∧ match database with
          | Some d =>
              if String.eqb d EmptyString
              then args = connection_flags s ++ ["-U"; user]
              else accepted d = true ∧ args = connection_flags s ++ ["-U"; user; "-d"; d]
          | None => args = connection_flags s ++ ["-U"; user]
          end
    | inl e =>
        exn_cls e = ValueError
        ∧ (accepted user = false ∧ exn_text e = "Invalid PostgreSQL username: " +:+ user
           ∨ accepted user = true
             ∧ ∃ d, database = Some d ∧ d ≠ EmptyString ∧ accepted d = false
                    ∧ exn_text e = "Invalid database name: " +:+ d)
    end.
Proof.
  cbv zeta. unfold _build_pg_connection_args.
  pose proof (validate_result user "PostgreSQL username" s) as Hr.
  pose proof (validate_only_logs user "PostgreSQL username" s) as Hl.
  destruct (_validate_identifier user "PostgreSQL username" s) as [s1 [|]] eqn:E1;
    cbn [fst snd] in Hr, Hl.
  2: { cbn [fst snd]. split; [exact Hl|]. split; [reflexivity|]. left. by split. }
  symmetry in Hr. rewrite (validate_true _ _ _ Hr) in E1. injection E1 as <-.
  unfold connection_flags.
  destruct database as [d|]; cbn [falsy negb from_option id].
  2: { cbn [fst snd]. split; [logs|]. split; [reflexivity|]. split; [exact Hr|].
       by destruct (String.eqb (pg_connection_method (cfg s)) "unix_socket"). }
  destruct (String.eqb d EmptyString) eqn:Ed; cbn [negb fst snd].
  { split; [logs|]. split; [reflexivity|]. split; [exact Hr|].
    by destruct (String.eqb (pg_connection_method (cfg s)) "unix_socket"). }
  pose proof (validate_result d "database name" s) as Hr2.
  pose proof (validate_only_logs d "database name" s) as Hl2.
  destruct (_validate_identifier d "database name" s) as [s2 [|]] eqn:E2;
    cbn [fst snd] in Hr2, Hl2 |- *.
  - symmetry in Hr2. rewrite (validate_true _ _ _ Hr2) in E2. injection E2 as <-.
    split; [logs|]. split; [reflexivity|]. split; [exact Hr|]. split; [exact Hr2|].
    by destruct (String.eqb (pg_connection_method (cfg s)) "unix_socket").
  - split; [exact Hl2|]. split; [reflexivity|]. right. split; [exact Hr|].
    exists d. split; [reflexivity|]. split; [|by split].
    intros ->. discriminate.
Qed.

(** X20. [_build_pg_connection_args] writes to the log only. When it
    returns, the state is untouched, the user has passed the validator, and
    the list is: the host flags (none for the Unix socket), [-U] and the
    user, then [-d] and the database when one is given and not empty; every
    argument is one of the fixed words or a validated identifier, which
    never begins with a dash. When it raises, the exception is a
    [ValueError] and the user, or the database given, was rejected. *)
Theorem connection_args_shape (user : string) (database : option string) (s : state) :
  let r := _build_pg_connection_args user database s in
  only_logs s r.1
  ∧ (∀ args, r.2 = inr args →
       r.1 = s
       ∧ (_validate_identifier user "PostgreSQL username" s).2 = true
       ∧ args = connection_flags s ++ ["-U"; user]
                ++ match database with
                   | Some d => if String.eqb d EmptyString then [] else ["-d"; d]
                   | None => []
                   end
       ∧ ∀ a, a ∈ args →
              a ∈ ["-h"; "localhost"; "-U"; "-d"]
              ∨ (a = user ∨ database = Some a) ∧ String.prefix "-" a = false)
  ∧ (∀ e, r.2 = inl e →
       exn_cls e = ValueError
       ∧ ((_validate_identifier user "PostgreSQL username" s).2 = false
          ∨ ∃ d, database = Some d ∧ d ≠ EmptyString
                 ∧ (_validate_identifier d "database name" s).2 = false)).
Proof.
  cbv zeta. destruct (build_args_cases user database s) as [Hl H].
  split; [exact Hl|]. split.
  - intros args E. rewrite E in H. destruct H as (Hs & Hu & Hd).
    split; [exact Hs|]. rewrite validate_result. split; [exact Hu|].
    assert (Hargs : args = connection_flags s ++ ["-U"; user]
                ++ match database with
                   | Some d => if String.eqb d EmptyString then [] else ["-d"; d]
                   | None => []
                   end
                ∧ ∀ d, database = Some d → d ≠ EmptyString → accepted d = true).
    { destruct database as [d|]; [|by split].
      destruct (String.eqb_spec d EmptyString) as [->|Hn].
      - split; [exact Hd|]. by intros ? [= <-] Hne.
      - destruct Hd as [Ha ->]. split; [reflexivity|]. by intros ? [= <-] _. }
    destruct Hargs as [-> Hacc]. split; [reflexivity|].
    intros a Ha. apply elem_of_app in Ha as [Ha|Ha].
    { left. unfold connection_flags in Ha.
      destruct (String.eqb (pg_connection_method (cfg s)) "unix_socket");
        [by apply elem_of_nil in Ha|].
      rewrite !elem_of_cons, elem_of_nil in Ha. rewrite !elem_of_cons. tauto. }
    apply elem_of_cons in Ha as [->|Ha]; [left; rewrite !elem_of_cons; tauto|].
    apply elem_of_cons in Ha as [->|Ha].
    { right. split; [by left|]. by apply accepted_no_dash. }
    destruct database as [d|]; [|by apply elem_of_nil in Ha].
    destruct (String.eqb d EmptyString) eqn:Ed; [by apply elem_of_nil in Ha|].
    apply elem_of_cons in Ha as [->|Ha]; [left; rewrite !elem_of_cons; tauto|].
    apply list_elem_of_singleton in Ha as ->.
    right. split; [by right|]. apply accepted_no_dash, Hacc; [reflexivity|].
    intros ->. discriminate.
  - intros e E. rewrite E in H. destruct H as [Hc H]. split; [exact Hc|].
    rewrite validate_result.
    destruct H as [[Hu _] | (_ & d & -> & Hne & Hd & _)]; [by left|].
    right. exists d. by rewrite validate_result.
Qed.


(** ** The listing *)

Lemma build_args_none (user : string) (s : state) :
  accepted user = true →
  _build_pg_connection_args user None s = (s, inr (connection_flags s ++ ["-U"; user])).
Proof.
  intros H. unfold _build_pg_connection_args, connection_flags.
  rewrite (validate_true _ _ _ H). cbn [falsy negb].
  by destruct (String.eqb (pg_connection_method (cfg s)) "unix_socket").
Qed.

Lemma accepted_nonempty (d : string) : accepted d = true → String.eqb d EmptyString = false.
Proof. unfold accepted. by destruct (String.eqb d EmptyString). Qed.

Lemma build_args_some (user d : string) (s : state) :
  accepted user = true → accepted d = true →
  _build_pg_connection_args user (Some d) s
  = (s, inr (connection_flags s ++ ["-U"; user; "-d"; d])).
Proof.
  intros H Hd. unfold _build_pg_connection_args, connection_flags.
  rewrite (validate_true _ _ _ H). cbn [falsy negb from_option id].
  rewrite (accepted_nonempty _ Hd). cbn [negb]. rewrite (validate_true _ _ _ Hd).
  by destruct (String.eqb (pg_connection_method (cfg s)) "unix_socket").
Qed.

Lemma build_args_rejected (user : string) (database : option string) (s : state) :
  accepted user = false →
  ∃ s', only_logs s s'
        ∧ _build_pg_connection_args user database s
          = (s', inl (mk_exn ValueError ("Invalid PostgreSQL username: " +:+ user) None)).
Proof.
  intros H. unfold _build_pg_connection_args.
  pose proof (validate_result user "PostgreSQL username" s) as Hr.
  pose proof (validate_only_logs user "PostgreSQL username" s) as Hl.
  destruct (_validate_identifier user "PostgreSQL username" s) as [s1 b].
  cbn [fst snd] in Hr, Hl. rewrite H in Hr. subst b. by exists s1.
Qed.

Lemma build_env_only_logs (o : pg_options) (t : tools) (user : string) (s : state) :
  only_logs s (_build_pg_env o t user s).1.
Proof. unfold _build_pg_env. destruct (PGPASSWORD o); cbn [fst]; logs. Qed.

Lemma build_env_state (o : pg_options) (t : tools) (user : string) (s s' : state) :
  (_build_pg_env o t user s').2 = (_build_pg_env o t user s).2.
Proof. unfold _build_pg_env. by destruct (PGPASSWORD o). Qed.

Lemma only_logs_errors_append (s x : state) (m : string) :
  only_logs s x → only_logs (errors_append m s) (errors_append m x).
Proof. intros [k ->]. exists k. by destruct s. Qed.

Lemma only_logs_warnings_extend (s x : state) (ms : list string) :
  only_logs s x → only_logs (warnings_extend ms s) (warnings_extend ms x).
Proof. intros [k ->]. exists k. by destruct s. Qed.

Lemma only_logs_warnings_append (s x : state) (m : string) :
  only_logs s x → only_logs (warnings_append m s) (warnings_append m x).
Proof. intros [k ->]. exists k. by destruct s. Qed.

Lemma has_char_nonempty (c : ascii) (x : string) :
  Text.has_char c x = true → String.eqb x EmptyString = false.
Proof. by destruct x. Qed.

(** What one line of the listing contributes. *)
Lemma parse_database_line_step (skip_dbs : list string) (s : state) (dbs : list string)
    (line : string) :
  let name := strip (hd EmptyString (str_split "|" (strip line))) in
  let r := parse_database_line skip_dbs (s, dbs) line in
  only_logs s r.1
  ∧ r.2 = dbs ++ (if Text.has_char "|" (strip line)
                     && (negb (bool_decide (name ∈ skip_dbs)) && accepted name)
                  then [name] else []).
Proof.
  cbv zeta. unfold parse_database_line.
  destruct (Text.has_char "|" (strip line)) eqn:Hbar.
  2: { rewrite andb_false_r. cbn [fst snd andb]. split; [logs | by rewrite app_nil_r]. }
  rewrite (has_char_nonempty _ _ Hbar). cbn [negb andb].
  set (name := strip (hd EmptyString (str_split "|" (strip line)))).
  destruct (String.eqb name EmptyString) eqn:Hn.
  { cbn [negb andb fst snd]. split; [logs|].
    assert (accepted name = false) as ->
        by (unfold accepted; by rewrite Hn).
    by rewrite andb_false_r, app_nil_r. }
  cbn [negb andb]. destruct (bool_decide (name ∈ skip_dbs)).
  { cbn [negb andb fst snd]. split; [logs | by rewrite app_nil_r]. }
  cbn [negb andb].
  pose proof (validate_result name "database name" s) as Hr.
  pose proof (validate_only_logs name "database name" s) as Hl.
  destruct (_validate_identifier name "database name" s) as [s1 b].
  cbn [fst snd] in Hr, Hl. rewrite <- Hr.
  destruct b; cbn [fst snd]; (split; [logs|]); [reflexivity | by rewrite app_nil_r].
Qed.

Lemma parse_database_lines (skip_dbs : list string) (lines : list string) (s : state)
    (dbs : list string) :
  let r := foldl (parse_database_line skip_dbs) (s, dbs) lines in
  only_logs s r.1
  ∧ r.2 = dbs
          ++ filter (λ n, (n ∉ skip_dbs) ∧ accepted n = true)
               (map (λ line, strip (hd EmptyString (str_split "|" (strip line))))
                  (filter (λ line, Text.has_char "|" (strip line) = true) lines)).
Proof.
  cbv zeta. revert s dbs. induction lines as [|line lines IH]; intros s dbs.
  - cbn. split; [logs | by rewrite app_nil_r].
  - cbn [foldl].
    destruct (parse_database_line_step skip_dbs s dbs line) as [Hl Hr].
    destruct (parse_database_line skip_dbs (s, dbs) line) as [s1 dbs1].
    cbn [fst snd] in Hl, Hr. destruct (IH s1 dbs1) as [Hl' Hr'].
    split; [by eapply only_logs_trans|]. rewrite Hr', Hr. clear IH Hl' Hr' Hl Hr.
    destruct (Text.has_char "|" (strip line)) eqn:Hbar.
    2: { rewrite filter_cons_False by (by rewrite Hbar). cbn [andb].
         by rewrite app_nil_r. }
    rewrite filter_cons_True by done. cbn [andb map].
    set (name := strip (hd EmptyString (str_split "|" (strip line)))).
    destruct (decide (name ∈ skip_dbs)) as [Hin|Hout].
    { rewrite bool_decide_true by done. cbn [negb andb].
      rewrite filter_cons_False by tauto. by rewrite app_nil_r. }
    rewrite bool_decide_false by done. cbn [negb andb].
    destruct (accepted name) eqn:Ha.
    + rewrite filter_cons_True by done. by rewrite <- app_assoc.
    + rewrite filter_cons_False by (intros [_ ?]; congruence). by rewrite app_nil_r.
Qed.

(** X21. When the user is a valid identifier and [psql -l -t] returns 0,
    [get_databases] returns, in the order of the listing, the stripped
    first column of every line that has a [|], kept when it is not in the
    skip list and passes the validator. It writes to the log only, so it
    records no error; and for every name it returns,
    [_build_pg_connection_args] builds the arguments that end in [-d] and
    that name. *)
Theorem listed_databases (o : pg_options) (t : tools) (s : state) (stdout stderr : string) :
  (_validate_identifier (pg_user (cfg s)) "PostgreSQL username" s).2 = true →
  run t ("psql" :: (connection_flags s ++ ["-U"; pg_user (cfg s)]) ++ ["-l"; "-t"]) 30
      (_build_pg_env o t (pg_user (cfg s)) s).2
  = Completed 0 stdout stderr →
  let r := get_databases o t s in
  let skip_dbs := default ["template0"; "template1"] (skip_databases o) in
  r.2 = filter (λ n, (n ∉ skip_dbs) ∧ (_validate_identifier n "database name" s).2 = true)
          (map (λ line, strip (hd EmptyString (str_split "|" (strip line))))
             (filter (λ line, Text.has_char "|" (strip line) = true)
                (str_split "010" stdout)))
  ∧ only_logs s r.1
  ∧ ∀ db, db ∈ r.2 →
      ∀ s', cfg s' = cfg s →
        _build_pg_connection_args (pg_user (cfg s)) (Some db) s'
        = (s', inr (connection_flags s ++ ["-U"; pg_user (cfg s); "-d"; db])).
Proof.
  rewrite validate_result. intros Hu Hrun. cbv zeta.
  assert (Hfilter : ∀ l : list string,
            filter (λ n, (n ∉ default ["template0"; "template1"] (skip_databases o))
                         ∧ (_validate_identifier n "database name" s).2 = true) l
            = filter (λ n, (n ∉ default ["template0"; "template1"] (skip_databases o))
                           ∧ accepted n = true) l).
  { intros l. apply list_filter_iff. intros n. by rewrite validate_result. }
  rewrite Hfilter. clear Hfilter.
  unfold get_databases. rewrite (build_args_none _ _ Hu).
  pose proof (build_env_only_logs o t (pg_user (cfg s)) s) as He.
  destruct (_build_pg_env o t (pg_user (cfg s)) s) as [s1 env] eqn:Eenv.
  cbn [fst snd] in He, Hrun.
  rewrite Hrun. cbn [Z.eqb negb].
  destruct (parse_database_lines (default ["template0"; "template1"] (skip_databases o))
              (str_split "010" stdout) s1 []) as [Hl Hr].
  destruct (foldl _ (s1, []) (str_split "010" stdout)) as [s2 dbs].
  cbn [fst snd app] in Hl, Hr |- *.
  split; [exact Hr|]. split; [apply only_logs_logger; by eapply only_logs_trans|].
  intros db Hdb s' Hs'. rewrite Hr in Hdb. apply list_elem_of_filter in Hdb as [[_ Ha] _].
  rewrite (build_args_some _ _ _ Hu Ha). unfold connection_flags. by rewrite Hs'.
Qed.

Lemma listed_databases_witness :
  (get_databases default_options listing_tools empty_state).2 = ["sales"; "hr_2024"].
Proof.
  destruct (listed_databases default_options listing_tools empty_state
              sample_listing EmptyString) as [H _].
  - vm_compute. reflexivity.
  - reflexivity.
  - rewrite H. vm_compute. reflexivity.
Defined.


(** ** When the listing fails *)

Lemma lower_app (a b : string) : lower (a +:+ b) = lower a +:+ lower b.
Proof.
  induction a as [|c a IH]; [reflexivity|].
  rewrite append_cons. cbn [lower]. by rewrite IH, append_cons.
Qed.

Lemma contains_app (sub a b : string) : Text.contains sub (a +:+ sub +:+ b) = true.
Proof.
  assert (Hc : ∀ x, String.prefix sub x = true → Text.contains sub x = true)
    by (intros [|? ?] Hx; cbn [Text.contains]; by rewrite Hx).
  induction a as [|c a IH].
  - apply Hc. exact (prefix_append sub b).
  - rewrite append_cons. cbn [Text.contains]. rewrite IH. apply orb_true_r.
Qed.

Lemma mentions_any_case (a w b : string) :
  lower w = "password" ∨ lower w = "authentication" →
  mentions_credentials (a +:+ w +:+ b) = true.
Proof.
  unfold mentions_credentials. rewrite !lower_app.
  intros [-> | ->]; rewrite contains_app; [reflexivity | apply orb_true_r].
Qed.

Lemma last_snoc_log (l : list (level * string)) (x : level * string) :
  last (l ++ [x]) = Some x.
Proof. apply last_snoc. Qed.

(** The three lines every failure of the listing ends with. *)
Lemma listing_failed (m : string) (s x : state) :
  only_logs s x →
  let y := errors_append m (logger ERROR m x) in
  only_logs (errors_append m s) y ∧ last (log y) = Some (ERROR, m)
  ∧ errors y = errors s ++ [m].
Proof.
  intros H. cbv zeta. split; [|split].
  - apply only_logs_errors_append. logs.
  - destruct x. cbn. apply last_snoc.
  - destruct H as [k ->]. by destruct s.
Qed.

(** X22. [get_databases] either writes to the log only, or returns no
    database and records exactly one error, which is also the last record
    of the log. An invalid user is reported as such. When [psql] returns a
    non-zero status the error quotes what the tool printed, unless that
    mentions a password or authentication, in any letter case: then the
    text is a fixed piece of advice with nothing of the output in it. *)
Theorem listing_failure_reported (o : pg_options) (t : tools) (s : state) :
  let r := get_databases o t s in
  let user := pg_user (cfg s) in
  (only_logs s r.1
   ∨ r.2 = [] ∧ ∃ m, only_logs (errors_append m s) r.1 ∧ last (log r.1) = Some (ERROR, m))
  ∧ ((_validate_identifier user "PostgreSQL username" s).2 = false →
     r.2 = []
     ∧ errors r.1
       = errors s ++ ["Error listing databases: Invalid PostgreSQL username: " +:+ user])
  ∧ (∀ returncode stdout stderr,
       (_validate_identifier user "PostgreSQL username" s).2 = true →
       run t ("psql" :: (connection_flags s ++ ["-U"; user]) ++ ["-l"; "-t"]) 30
           (_build_pg_env o t user s).2
       = Completed returncode stdout stderr →
       returncode ≠ 0 →
       r.2 = []
       ∧ errors r.1
         = errors s ++ [if mentions_credentials stderr then authentication_advice s
                        else "Failed to list databases: " +:+ stderr])
  ∧ (∀ a w b, lower w = "password" ∨ lower w = "authentication" →
              mentions_credentials (a +:+ w +:+ b) = true).
Proof.
  cbv zeta. rewrite !validate_result.
  split; [|split; [|split]]; [| | |apply mentions_any_case].
  - unfold get_databases.
    destruct (accepted (pg_user (cfg s))) eqn:Hu.
    2: { destruct (build_args_rejected _ None s Hu) as (s' & Hl & ->).
         cbn [fst snd exn_text]. right. split; [reflexivity|].
         destruct (listing_failed
                     ("Error listing databases: Invalid PostgreSQL username: "
                      +:+ pg_user (cfg s)) s s' Hl) as (H1 & H2 & _).
         by eexists. }
    rewrite (build_args_none _ _ Hu).
    pose proof (build_env_only_logs o t (pg_user (cfg s)) s) as He.
    destruct (_build_pg_env o t (pg_user (cfg s)) s) as [s1 env].
    cbn [fst snd] in He.
    destruct (run t _ 30 env) as [rc out err | text | e].
    + destruct (rc =? 0); cbn [negb].
      * left.
        destruct (parse_database_lines
                    (default ["template0"; "template1"] (skip_databases o))
                    (str_split "010" out) s1 []) as [Hl _].
        destruct (foldl _ (s1, []) (str_split "010" out)) as [s2 dbs].
        cbn [fst snd] in Hl |- *. apply only_logs_logger. by eapply only_logs_trans.
      * right. cbn [fst snd]. split; [reflexivity|].
        match goal with
        | |- ∃ m, only_logs _ (errors_append ?x _) ∧ _ =>
            destruct (listing_failed x s s1 He) as (H1 & H2 & _)
        end.
        by eexists.
    + right. cbn [fst snd]. split; [reflexivity|].
      destruct (listing_failed "Timeout while listing databases" s s1 He) as (H1 & H2 & _).
      by eexists.
    + right. cbn [fst snd]. split; [reflexivity|].
      destruct (listing_failed ("Error listing databases: " +:+ exn_text e) s s1 He)
        as (H1 & H2 & _).
      by eexists.
  - intros Hu. unfold get_databases.
    destruct (build_args_rejected _ None s Hu) as (s' & Hl & ->).
    cbn [fst snd exn_text]. split; [reflexivity|].
    by destruct (listing_failed
                   ("Error listing databases: Invalid PostgreSQL username: "
                    +:+ pg_user (cfg s)) s s' Hl) as (_ & _ & H3).
  - intros rc out err Hu Hrun Hrc. unfold get_databases.
    rewrite (build_args_none _ _ Hu).
    pose proof (build_env_only_logs o t (pg_user (cfg s)) s) as He.
    destruct (_build_pg_env o t (pg_user (cfg s)) s) as [s1 env].
    cbn [fst snd] in He, Hrun. rewrite Hrun.
    assert ((rc =? 0) = false) as -> by by apply Z.eqb_neq.
    cbn [negb fst snd]. split; [reflexivity|].
    assert (Ha : authentication_advice s1 = authentication_advice s).
    { destruct (only_logs_fields _ _ He) as (Hc & _). unfold authentication_advice.
      by rewrite Hc. }
    rewrite Ha.
    match goal with
    | |- errors (errors_append ?x _) = _ =>
        by destruct (listing_failed x s s1 He) as (_ & _ & H3)
    end.
Qed.

Lemma listing_failure_reported_witness :
  let r := get_databases default_options refused_tools empty_state in
  r.2 = [] ∧ errors r.1 = [authentication_advice empty_state].
Proof.
  cbv zeta.
  destruct (listing_failure_reported default_options refused_tools empty_state)
    as (_ & _ & H & _).
  destruct (H 2 EmptyString
              "psql: error: FATAL:  Password authentication failed for user backup")
    as [H1 H2].
  - vm_compute. reflexivity.
  - reflexivity.
  - discriminate.
  - split; [exact H1|]. rewrite H2. vm_compute. reflexivity.
Defined.


(** ** Maintenance *)

Lemma build_args_only_logs (user : string) (database : option string) (s : state) :
  only_logs s (_build_pg_connection_args user database s).1.
Proof. by destruct (build_args_cases user database s) as [H _]. Qed.

(** What [_build_pg_connection_args] hands back depends on the
    configuration only. *)
Lemma build_args_result (user : string) (database : option string) (s s' : state) :
  cfg s' = cfg s →
  (_build_pg_connection_args user database s').2
  = (_build_pg_connection_args user database s).2.
Proof.
  intros Hc. unfold _build_pg_connection_args.
  pose proof (validate_result user "PostgreSQL username" s) as H1.
  pose proof (validate_result user "PostgreSQL username" s') as H2.
  destruct (accepted user) eqn:Hu.
  2: { destruct (_validate_identifier user _ s) as [? b1],
                (_validate_identifier user _ s') as [? b2].
       cbn [snd] in H1, H2. by subst. }
  rewrite !(validate_true _ _ _ Hu).
  destruct (negb (falsy database)).
  2: { cbn [snd]. by rewrite Hc. }
  pose proof (validate_result (default EmptyString database) "database name" s) as H3.
  pose proof (validate_result (default EmptyString database) "database name" s') as H4.
  destruct (accepted (default EmptyString database)) eqn:Hd.
  { rewrite !(validate_true _ _ _ Hd). cbn [snd]. by rewrite Hc. }
  destruct (_validate_identifier (default EmptyString database) _ s) as [? b1],
           (_validate_identifier (default EmptyString database) _ s') as [? b2].
  cbn [snd] in H3, H4. by subst.
Qed.

Lemma maintenance_user_only_logs (s : state) : only_logs s (maintenance_user_of s).1.
Proof.
  unfold maintenance_user_of.
  pose proof (validate_only_logs (default (pg_user (cfg s)) (pg_maintenance_user (cfg s)))
                "maintenance username" s) as H.
  destruct (_validate_identifier _ "maintenance username" s) as [s1 [|]];
    cbn [fst] in H |- *; logs.
Qed.

Lemma pre_backup_vacuum_only_logs (t : tools) (db user : string) (env : gmap string string)
    (s : state) :
  only_logs s (pre_backup_vacuum t db user env s).1
  ∧ (List.length (pre_backup_vacuum t db user env s).2 ≤ 1)%nat.
Proof.
  unfold pre_backup_vacuum.
  pose proof (build_args_only_logs user (Some db)
                (logger INFO ("Running VACUUM ANALYZE on " +:+ db +:+ " as "
                              +:+ user +:+ "...") s)) as H.
  destruct (_build_pg_connection_args user (Some db) _) as [s1 [e|args]]; cbn [fst] in H.
  { cbn [fst snd app List.length]. split; [|lia].
    apply only_logs_logger. eapply only_logs_trans; [|exact H]. logs. }
  assert (H' : only_logs s s1) by (eapply only_logs_trans; [|exact H]; logs).
  destruct (run t _ 3600 env) as [rc out err | text | e].
  - destruct (rc =? 0); cbn [negb fst snd app List.length]; (split; [logs | lia]).
  - cbn [fst snd app List.length]. split; [logs | lia].
  - cbn [fst snd app List.length]. split; [logs | lia].
Qed.

Lemma pre_backup_checkpoint_only_logs (t : tools) (db user : string)
    (env : gmap string string) (s : state) :
  only_logs s (pre_backup_checkpoint t db user env s).
Proof.
  unfold pre_backup_checkpoint.
  pose proof (build_args_only_logs user (Some db)
                (logger INFO ("Running CHECKPOINT for " +:+ db +:+ " as "
                              +:+ user +:+ "...") s)) as H.
  destruct (_build_pg_connection_args user (Some db) _) as [s1 [e|args]]; cbn [fst] in H.
  { apply only_logs_logger. eapply only_logs_trans; [|exact H]. logs. }
  assert (H' : only_logs s s1) by (eapply only_logs_trans; [|exact H]; logs).
  destruct (run t _ 300 env) as [rc out err | text | e]; [destruct (rc =? 0)| |];
    cbn [negb]; logs.
Qed.

(** The warnings of the first block depend on the configuration and on the
    answers to the commands run with the timeout of one hour. *)
Lemma pre_backup_vacuum_result (t t' : tools) (db user : string) (env : gmap string string)
    (s s' : state) :
  cfg s' = cfg s →
  (∀ cmd env, run t' cmd 3600 env = run t cmd 3600 env) →
  (pre_backup_vacuum t' db user env s').2 = (pre_backup_vacuum t db user env s).2.
Proof.
  intros Hc Hrun. unfold pre_backup_vacuum.
  pose proof (build_args_result user (Some db)
                (logger INFO ("Running VACUUM ANALYZE on " +:+ db +:+ " as "
                              +:+ user +:+ "...") s)
                (logger INFO ("Running VACUUM ANALYZE on " +:+ db +:+ " as "
                              +:+ user +:+ "...") s') Hc) as H.
  destruct (_build_pg_connection_args user (Some db) (logger _ _ s)) as [s1 r1],
           (_build_pg_connection_args user (Some db) (logger _ _ s')) as [s1' r1'].
  cbn [snd] in H. subst r1'. destruct r1 as [e|args]; [reflexivity|].
  rewrite Hrun. destruct (run t _ 3600 env) as [rc out err | text | e]; try reflexivity.
  by destruct (rc =? 0).
Qed.

Lemma maintenance_user_result (s s' : state) :
  cfg s' = cfg s → (maintenance_user_of s').2 = (maintenance_user_of s).2.
Proof.
  intros Hc. unfold maintenance_user_of. rewrite Hc.
  pose proof (validate_result (default (pg_user (cfg s)) (pg_maintenance_user (cfg s)))
                "maintenance username" s) as H1.
  pose proof (validate_result (default (pg_user (cfg s)) (pg_maintenance_user (cfg s)))
                "maintenance username" s') as H2.
  pose proof (validate_only_logs (default (pg_user (cfg s)) (pg_maintenance_user (cfg s)))
                "maintenance username" s) as L1.
  pose proof (validate_only_logs (default (pg_user (cfg s)) (pg_maintenance_user (cfg s)))
                "maintenance username" s') as L2.
  destruct (_validate_identifier _ "maintenance username" s) as [x b1],
           (_validate_identifier _ "maintenance username" s') as [x' b2].
  cbn [fst snd] in *. rewrite <- H1 in H2. subst b2. destruct b1; [reflexivity|].
  cbn [snd]. unfold logger, set_log. cbn [cfg].
  destruct (only_logs_fields _ _ L1) as (-> & _).
  destruct (only_logs_fields _ _ L2) as (-> & _). by rewrite Hc.
Qed.

Lemma warnings_extend_nil (s : state) : warnings_extend [] s = s.
Proof. destruct s. unfold warnings_extend, set_warnings. cbn. by rewrite app_nil_r. Qed.

Lemma only_logs_cfg (s x : state) : only_logs s x → cfg x = cfg s.
Proof. intros H. by destruct (only_logs_fields _ _ H) as (? & _). Qed.

(** The shape of every result of the pre-backup maintenance that is not
    switched off. *)
Lemma pre_maintenance_form (o : pg_options) (t : tools) (db : string) (s : state) :
  run_maintenance (cfg s) = true →
  ∃ user env x,
    cfg x = cfg s
    ∧ user = (maintenance_user_of s).2
    ∧ env = (_build_pg_env o t user s).2
    ∧ let ws := (pre_backup_vacuum t db user env x).2 in
      let r := perform_pre_backup_maintenance o t db s in
      only_logs (warnings_extend ws s) r.1 ∧ r.2 = bool_decide (ws = []).
Proof.
  intros Hm. unfold perform_pre_backup_maintenance.
  assert (Hc : ∀ l m y, cfg (logger l m y) = cfg y) by done.
  rewrite Hc, Hm. cbn [negb].
  set (s0 := logger INFO _ s).
  assert (H0 : only_logs s s0) by (subst s0; logs).
  pose proof (maintenance_user_only_logs s0) as H1.
  pose proof (maintenance_user_result s s0 (only_logs_cfg _ _ H0)) as U.
  destruct (maintenance_user_of s0) as [s1 user]. cbn [fst snd] in H1, U.
  pose proof (build_env_only_logs o t user s1) as H2.
  pose proof (build_env_state o t user s s1) as E.
  destruct (_build_pg_env o t user s1) as [s2 env]. cbn [fst snd] in H2, E.
  assert (H02 : only_logs s s2)
    by (eapply only_logs_trans; [exact H0|]; eapply only_logs_trans; [exact H1 | exact H2]).
  exists user, env, s2. split; [by apply only_logs_cfg|]. split; [exact U|].
  split; [subst user; exact E|]. cbv zeta.
  destruct (pre_backup_vacuum_only_logs t db user env s2) as [H3 _].
  destruct (pre_backup_vacuum t db user env s2) as [s3 ws]. cbn [fst snd] in H3 |- *.
  pose proof (pre_backup_checkpoint_only_logs t db user env s3) as H4.
  assert (H04 : only_logs s (pre_backup_checkpoint t db user env s3))
    by (eapply only_logs_trans; [exact H02|]; eapply only_logs_trans; [exact H3 | exact H4]).
  destruct ws as [|w ws]; cbn [fst snd].
  - rewrite warnings_extend_nil. split; [exact H04 | reflexivity].
  - split; [by apply only_logs_warnings_extend | reflexivity].
Qed.

(** X23. Pre-backup maintenance changes nothing but the log and the
    warnings, to which it adds at most one; it returns [True] exactly when
    it adds none. Switched off, it returns [True], adds no warning and asks
    nothing of the tools. Its answer and its warning depend only on the
    commands run with the one-hour timeout, that is on VACUUM ANALYZE:
    whatever CHECKPOINT does goes to the log and no further. *)
Theorem pre_maintenance_effect (o : pg_options) (t : tools) (db_name : string) (s : state) :
  let r := perform_pre_backup_maintenance o t db_name s in
  (∃ ws, only_logs (warnings_extend ws s) r.1 ∧ (List.length ws ≤ 1)%nat
         ∧ (r.2 = true ↔ ws = []))
  ∧ (run_maintenance (cfg s) = false →
     r.2 = true ∧ only_logs s r.1
     ∧ ∀ o' t', perform_pre_backup_maintenance o' t' db_name s = r)
  ∧ (∀ t', environ t' = environ t →
           (∀ cmd env, run t' cmd 3600 env = run t cmd 3600 env) →
           let r' := perform_pre_backup_maintenance o t' db_name s in
           r'.2 = r.2 ∧ warnings r'.1 = warnings r.1).
Proof.
  cbv zeta. destruct (run_maintenance (cfg s)) eqn:Hm.
  - destruct (pre_maintenance_form o t db_name s Hm)
      as (user & env & x & Hx & Hu & He & Hl & Hr).
    split; [|split; [discriminate|]].
    + exists (pre_backup_vacuum t db_name user env x).2. split; [exact Hl|].
      split; [apply pre_backup_vacuum_only_logs|]. rewrite Hr.
      rewrite bool_decide_eq_true. tauto.
    + intros t' Henv Hrun.
      destruct (pre_maintenance_form o t' db_name s Hm)
        as (user' & env' & x' & Hx' & Hu' & He' & Hl' & Hr').
      subst user user'.
      assert (Heq : env' = env).
      { rewrite He, He'. unfold _build_pg_env. rewrite Henv.
        by destruct (PGPASSWORD o). }
      cbv zeta in Hl, Hr, Hl', Hr'. rewrite Heq in Hl', Hr'.
      assert (Hws : (pre_backup_vacuum t' db_name (maintenance_user_of s).2 env x').2
                    = (pre_backup_vacuum t db_name (maintenance_user_of s).2 env x).2).
      { apply pre_backup_vacuum_result; [congruence | exact Hrun]. }
      rewrite Hws in Hl', Hr'. split; [congruence|].
      destruct (only_logs_fields _ _ Hl) as (_ & _ & -> & _).
      by destruct (only_logs_fields _ _ Hl') as (_ & _ & -> & _).
  - assert (Hform : ∀ o' t', perform_pre_backup_maintenance o' t' db_name s
              = (logger INFO "Maintenance operations disabled in config"
                   (logger INFO ("Performing pre-backup maintenance for database: "
                                 +:+ db_name) s), true)).
    { intros o' t'. unfold perform_pre_backup_maintenance.
      assert (Hc : ∀ l m y, cfg (logger l m y) = cfg y) by done.
      by rewrite Hc, Hm. }
    rewrite Hform. cbn [fst snd]. split; [|split].
    + exists []. rewrite warnings_extend_nil. split; [logs|]. split; [cbn; lia | done].
    + intros _. split; [reflexivity|]. split; [logs|]. intros o' t'. apply Hform.
    + intros t' _ _. by rewrite Hform.
Qed.

Lemma pre_maintenance_effect_witness :
  let r := perform_pre_backup_maintenance default_options refused_tools "sales" empty_state in
  let r' := perform_pre_backup_maintenance default_options vacuum_refused_tools "sales"
              empty_state in
  r'.2 = r.2 ∧ warnings r'.1 = warnings r.1.
Proof.
  cbv zeta.
  destruct (pre_maintenance_effect default_options refused_tools "sales" empty_state)
    as (_ & _ & H).
  apply (H vacuum_refused_tools); [reflexivity|].
  intros cmd env. reflexivity.
Defined.


(** X24. Post-backup maintenance changes nothing but the log and the
    warnings, to which it adds at most one. It returns [False] exactly when
    it is switched on, REINDEX is asked for and the database name is
    rejected by the validator: a REINDEX that fails, times out or raises is
    a warning, and the method still returns [True]. When it is switched off
    or REINDEX is not asked for, no command is run and only the log
    changes. *)
Theorem post_maintenance_effect (o : pg_options) (t : tools) (db_name : string) (s : state) :
  let r := perform_post_backup_maintenance o t db_name s in
  (∃ ws, only_logs (warnings_extend ws s) r.1 ∧ (List.length ws ≤ 1)%nat)
  ∧ (r.2 = false
     ↔ run_post_backup_maintenance (cfg s) = true ∧ reindex_after_backup o = true
       ∧ (_validate_identifier db_name "database name" s).2 = false)
  ∧ (run_post_backup_maintenance (cfg s) = false ∨ reindex_after_backup o = false →
     only_logs s r.1 ∧ ∀ t', perform_post_backup_maintenance o t' db_name s = r).
Proof.
  cbv zeta. rewrite validate_result. unfold perform_post_backup_maintenance.
  assert (Hc : ∀ l m y, cfg (logger l m y) = cfg y) by done.
  rewrite Hc. destruct (run_post_backup_maintenance (cfg s)) eqn:Hm; cbn [negb].
  2: { cbn [fst snd]. split; [|split].
       - exists []. rewrite warnings_extend_nil. split; [logs | cbn; lia].
       - split; [discriminate | by intros [? _]].
       - intros _. split; [logs | done]. }
  set (s0 := logger INFO _ s).
  assert (H0 : only_logs s s0) by (subst s0; logs).
  pose proof (maintenance_user_only_logs s0) as H1.
  destruct (maintenance_user_of s0) as [s1 user]. cbn [fst] in H1.
  assert (H01 : only_logs s s1) by (by eapply only_logs_trans).
  clearbody s0. clear H0 H1 s0.
  unfold _build_pg_env.
  assert (H02 : only_logs s (match PGPASSWORD o with
                             | Some _ =>
                                 logger DEBUG
                                   "Using PGPASSWORD from config (less secure than .pgpass file)"
                                   s1
                             | None => s1
                             end)) by (destruct (PGPASSWORD o); logs).
  destruct (reindex_after_backup o) eqn:Hre.
  2: { split; [|split].
       - exists []. rewrite warnings_extend_nil.
         split; [destruct (PGPASSWORD o); exact H02 | cbn; lia].
       - split; [destruct (PGPASSWORD o); discriminate | by intros (_ & ? & _)].
       - intros _. destruct (PGPASSWORD o); (split; [exact H02 | done]). }
  assert (Hgoal : ∀ (env : gmap string string) (s2 : state),
            only_logs s s2 →
            let r := match _validate_identifier db_name "database name" s2 with
                     | (s, false) =>
                         let error_msg := "Invalid database name for REINDEX: " +:+ db_name in
                         let s := logger ERROR error_msg s in
                         (warnings_append error_msg s, false)
                     | (s, true) =>
                         let s := logger INFO ("Running REINDEX for " +:+ db_name +:+ " as "
                                               +:+ user +:+ "...") s in
                         let raised (text : string) (s : state) :=
                           let s := logger WARNING ("Error running REINDEX for " +:+ db_name
                                                    +:+ ": " +:+ text) s in
                           warnings_append ("REINDEX error for " +:+ db_name +:+ ": " +:+ text) s in
                         let quoted_db_name := String "034" db_name +:+ String "034" EmptyString in
                         let s :=
                           match _build_pg_connection_args user (Some db_name) s with
                           | (s, inl e) => raised (exn_text e) s
                           | (s, inr args) =>
                               match run t ("psql" :: args
                                            ++ ["-c"; "REINDEX DATABASE " +:+ quoted_db_name +:+ ";"])
                                         7200 env with
                               | Completed returncode _ stderr =>
                                   if negb (returncode =? 0) then
                                     let error_msg :=
                                       with_stderr ("REINDEX failed for " +:+ db_name) stderr in
                                     let s := logger WARNING error_msg s in
                                     warnings_append error_msg s
                                   else logger INFO ("REINDEX completed for " +:+ db_name) s
                               | TimeoutExpired text => raised text s
                               | Raised e => raised (exn_text e) s
                               end
                           end in
                         (s, true)
                     end in
            (∃ ws, only_logs (warnings_extend ws s) r.1 ∧ (List.length ws ≤ 1)%nat)
            ∧ (r.2 = false ↔ accepted db_name = false)).
  { clear. intros env s2 H2. cbv zeta.
    pose proof (validate_result db_name "database name" s2) as Hr.
    pose proof (validate_only_logs db_name "database name" s2) as Hl.
    destruct (_validate_identifier db_name "database name" s2) as [s3 b].
    cbn [fst snd] in Hr, Hl. rewrite <- Hr. clear Hr.
    assert (H3 : only_logs s s3) by (by eapply only_logs_trans).
    destruct b; cbn [fst snd].
    2: { split; [|done]. eexists [_]. split; [|cbn; lia].
         apply (only_logs_warnings_append s). logs. }
    split; [|done].
    pose proof (build_args_only_logs user (Some db_name)
                  (logger INFO ("Running REINDEX for " +:+ db_name +:+ " as "
                                +:+ user +:+ "...") s3)) as H.
    destruct (_build_pg_connection_args user (Some db_name) _) as [s4 [e|args]];
      cbn [fst] in H.
    { eexists [_]. split; [|cbn; lia]. apply (only_logs_warnings_append s).
      apply only_logs_logger. eapply only_logs_trans; [|exact H]. logs. }
    assert (H4 : only_logs s s4) by (eapply only_logs_trans; [|exact H]; logs).
    destruct (run t _ 7200 env) as [rc out err | text | e].
    - destruct (rc =? 0); cbn [negb].
      + exists []. rewrite warnings_extend_nil. split; [logs | cbn; lia].
      + eexists [_]. split; [|cbn; lia]. apply (only_logs_warnings_append s). logs.
    - eexists [_]. split; [|cbn; lia]. apply (only_logs_warnings_append s). logs.
    - eexists [_]. split; [|cbn; lia]. apply (only_logs_warnings_append s). logs. }
  destruct (PGPASSWORD o) as [pw|].
  - destruct (Hgoal (<["PGPASSWORD":=pw]> (<["PGUSER":=user]> (environ t))) _ H02)
      as [Hw Hb].
    split; [exact Hw|]. split; [|intros [?|?]; discriminate].
    rewrite Hb. tauto.
  - destruct (Hgoal (<["PGUSER":=user]> (environ t)) _ H02) as [Hw Hb].
    split; [exact Hw|]. split; [|intros [?|?]; discriminate].
    rewrite Hb. tauto.
Qed.
